(** * asyncProgramming: the synchronous weather service and the notebook cells

    A shallow embedding of the Python code of the repository:

    - the blocking weather service of the guide ([get_weather_data],
      [handle_client], [run_weather_server], [test_client] and the
      [__main__] driver);
    - the notebook cells: the coroutines and classes they define
      ([simple_coroutine], [fetch_data], [long_operation], [might_fail],
      [AsyncResource], [AsyncDatabase], [AsyncDataStream], [async_range],
      [async_timer], the demos that run them), and the table of names
      each code cell binds and reads.

    Python values are an inductive type, a Python [str] is the list of its
    code points, [bytes] the list of its octets.  Exceptions are values of
    [exn]; code that can raise returns a [result].  Code with effects
    (sleeping, printing, sockets) runs in a state-and-exception monad over
    an explicit [world].  The coroutines of the notebook are trees of
    requests to the event loop of asyncio, which is modelled with its
    futures, tasks, callbacks and timers. *)

From Stdlib Require Import NArith ZArith List Bool Lia String Ascii.
From Equations Require Import Equations.
Import ListNotations.

Local Open Scope N_scope.
Local Open Scope list_scope.

(** ** Python strings, bytes and values *)

(** A code point; a valid one is below [0x110000]. *)
Abbreviation char := N (only parsing).
Definition str := list N.
Definition bytes := list N.

(** A literal of the source, as a [str]. *)
Fixpoint py (s : string) : str :=
  match s with
  | EmptyString => []
  | String a r => N_of_ascii a :: py r
  end.

Fixpoint str_eqb (a b : str) : bool :=
  match a, b with
  | [], [] => true
  | x :: a', y :: b' => (x =? y) && str_eqb a' b'
  | _, _ => false
  end.

(** The values [json.loads] can build.  A [float] is kept as the literal
    it was read from; its printing is a parameter ([float_repr] below). *)
#[warnings="-register-all"]
Inductive pyval :=
| VNone
| VBool (b : bool)
| VInt (z : Z)
| VFloat (lit : str)
| VStr (s : str)
| VList (l : list pyval)
| VDict (d : list (str * pyval)).

(** Induction on values, through the lists and dictionaries in them. *)
Fixpoint pyval_induction (P : pyval -> Prop)
    (HNone : P VNone)
    (HBool : forall b, P (VBool b))
    (HInt : forall z, P (VInt z))
    (HFloat : forall lit, P (VFloat lit))
    (HStr : forall s, P (VStr s))
    (HList : forall l, Forall P l -> P (VList l))
    (HDict : forall d, Forall (fun kv => P (snd kv)) d -> P (VDict d))
    (v : pyval) {struct v} : P v :=
  let rec := pyval_induction P HNone HBool HInt HFloat HStr HList HDict in
  match v with
  | VNone => HNone
  | VBool b => HBool b
  | VInt z => HInt z
  | VFloat lit => HFloat lit
  | VStr s => HStr s
  | VList l =>
      HList l
        ((fix all (l : list pyval) : Forall P l :=
            match l with
            | [] => Forall_nil _
            | x :: l' => Forall_cons x (rec x) (all l')
            end) l)
  | VDict d =>
      HDict d
        ((fix all (d : list (str * pyval))
            : Forall (fun kv => P (snd kv)) d :=
            match d with
            | [] => Forall_nil _
            | kv :: d' =>
                @Forall_cons _ (fun kv => P (snd kv)) kv d'
                  (rec (snd kv)) (all d')
            end) d)
  end.

(** A [dict] with [str] keys, in insertion order, each key once. *)
Definition dict := list (str * pyval).

Fixpoint dict_get (k : str) (d : dict) : option pyval :=
  match d with
  | [] => None
  | (k', v) :: d' => if str_eqb k k' then Some v else dict_get k d'
  end.

(** [d[k] = v]: an existing key keeps its place. *)
Fixpoint dict_set (k : str) (v : pyval) (d : dict) : dict :=
  match d with
  | [] => [(k, v)]
  | (k', v') :: d' =>
      if str_eqb k k' then (k', v) :: d' else (k', v') :: dict_set k v d'
  end.

(** [dict(pairs)]. *)
Definition dict_of_pairs (ps : list (str * pyval)) : dict :=
  fold_left (fun d kv => dict_set (fst kv) (snd kv) d) ps [].

(** A [str] of ASCII characters only. *)
Definition is_ascii (s : str) : Prop := Forall (fun c => c < 128) s.

(** ** Exceptions *)

Inductive exn :=
| UnicodeDecodeError
| UnicodeEncodeError
| JSONDecodeError
| RecursionError
| KeyError (k : str)
| TypeError
| ValueError (msg : str)
| OSError
| ConnectionRefusedError
| StopAsyncIteration.

Inductive result (A : Type) :=
| Ok (a : A)
| Raise (e : exn).
Arguments Ok {A} a.
Arguments Raise {A} e.

Definition rbind {A B} (r : result A) (k : A -> result B) : result B :=
  match r with
  | Ok a => k a
  | Raise e => Raise e
  end.

(** [v[k]] for a [str] key [k]: only a [dict] can be indexed by a string. *)
Definition getitem (v : pyval) (k : str) : result pyval :=
  match v with
  | VDict d =>
      match dict_get k d with
      | Some x => Ok x
      | None => Raise (KeyError k)
      end
  | _ => Raise TypeError
  end.

(** ** [str.encode()] and [bytes.decode()]: strict UTF-8 *)

Module Utf8.

Definition cont (b : N) : bool := (0x80 <=? b) && (b <=? 0xBF).
Definition low6 (b : N) : N := N.land b 0x3F.

Definition encode_char (c : char) : result bytes :=
  if c <? 0x80 then Ok [c]
  else if c <? 0x800 then
    Ok [N.lor 0xC0 (N.shiftr c 6); N.lor 0x80 (low6 c)]
  else if c <? 0x10000 then
    if (0xD800 <=? c) && (c <=? 0xDFFF) then Raise UnicodeEncodeError
    else Ok [N.lor 0xE0 (N.shiftr c 12);
             N.lor 0x80 (low6 (N.shiftr c 6));
             N.lor 0x80 (low6 c)]
  else if c <? 0x110000 then
    Ok [N.lor 0xF0 (N.shiftr c 18);
        N.lor 0x80 (low6 (N.shiftr c 12));
        N.lor 0x80 (low6 (N.shiftr c 6));
        N.lor 0x80 (low6 c)]
  else Raise UnicodeEncodeError.

Fixpoint encode (s : str) : result bytes :=
  match s with
  | [] => Ok []
  | c :: s' =>
      rbind (encode_char c) (fun bs =>
      rbind (encode s') (fun rest => Ok (bs ++ rest)))
  end.

Fixpoint decode (bs : bytes) : result str :=
  match bs with
  | [] => Ok []
  | b0 :: t0 =>
      if b0 <? 0x80 then rbind (decode t0) (fun s => Ok (b0 :: s))
      else
        match t0 with
        | [] => Raise UnicodeDecodeError
        | b1 :: t1 =>
            if (0xC2 <=? b0) && (b0 <=? 0xDF) then
              if cont b1 then
                rbind (decode t1) (fun s =>
                  Ok (N.lor (N.shiftl (N.land b0 0x1F) 6) (low6 b1) :: s))
              else Raise UnicodeDecodeError
            else
              match t1 with
              | [] => Raise UnicodeDecodeError
              | b2 :: t2 =>
                  if (0xE0 <=? b0) && (b0 <=? 0xEF) then
                    if ((if b0 =? 0xE0 then 0xA0 else 0x80) <=? b1)
                       && (b1 <=? (if b0 =? 0xED then 0x9F else 0xBF))
                       && cont b2
                    then
                      rbind (decode t2) (fun s =>
                        Ok (N.lor (N.shiftl (N.land b0 0x0F) 12)
                              (N.lor (N.shiftl (low6 b1) 6) (low6 b2)) :: s))
                    else Raise UnicodeDecodeError
                  else
                    match t2 with
                    | [] => Raise UnicodeDecodeError
                    | b3 :: t3 =>
                        if (0xF0 <=? b0) && (b0 <=? 0xF4) then
                          if ((if b0 =? 0xF0 then 0x90 else 0x80) <=? b1)
                             && (b1 <=? (if b0 =? 0xF4 then 0x8F else 0xBF))
                             && cont b2 && cont b3
                          then
                            rbind (decode t3) (fun s =>
                              Ok (N.lor (N.shiftl (N.land b0 0x07) 18)
                                    (N.lor (N.shiftl (low6 b1) 12)
                                       (N.lor (N.shiftl (low6 b2) 6)
                                          (low6 b3))) :: s))
                          else Raise UnicodeDecodeError
                        else Raise UnicodeDecodeError
                    end
              end
        end
  end.

End Utf8.

(** ** The json module: [json.dumps] and [json.loads] with their defaults *)

Module Json.

(** The double quote and the backslash. *)
Definition quote : char := 34.
Definition backslash : char := 92.

(** *** Encoding: ensure_ascii is on, the separators are a comma and a
    colon, each followed by a space *)

Definition hex_digit (d : N) : char :=
  if d <? 10 then 48 + d else 87 + d.

(** The format [{0:04x}] of [n], for [n < 0x10000]. *)
Definition hex4 (n : N) : str :=
  [hex_digit (n / 4096 mod 16); hex_digit (n / 256 mod 16);
   hex_digit (n / 16 mod 16); hex_digit (n mod 16)].

Definition uescape (n : N) : str := backslash :: 117 :: hex4 n.

(** The replacement of one character by [py_encode_basestring_ascii]. *)
Definition escape_char (c : char) : str :=
  if c =? quote then [backslash; quote]
  else if c =? backslash then [backslash; backslash]
  else if c =? 8 then [backslash; 98]
  else if c =? 12 then [backslash; 102]
  else if c =? 10 then [backslash; 110]
  else if c =? 13 then [backslash; 114]
  else if c =? 9 then [backslash; 116]
  else if (32 <=? c) && (c <=? 126) then [c]
  else if c <? 0x10000 then uescape c
  else
    let n := c - 0x10000 in
    uescape (N.lor 0xd800 (N.land (N.shiftr n 10) 0x3ff))
    ++ uescape (N.lor 0xdc00 (N.land n 0x3ff)).

Definition escape (s : str) : str := flat_map escape_char s.

Definition encode_basestring_ascii (s : str) : str :=
  quote :: escape s ++ [quote].

Fixpoint uint_digits (u : Decimal.uint) : str :=
  match u with
  | Decimal.Nil => []
  | Decimal.D0 u => 48 :: uint_digits u
  | Decimal.D1 u => 49 :: uint_digits u
  | Decimal.D2 u => 50 :: uint_digits u
  | Decimal.D3 u => 51 :: uint_digits u
  | Decimal.D4 u => 52 :: uint_digits u
  | Decimal.D5 u => 53 :: uint_digits u
  | Decimal.D6 u => 54 :: uint_digits u
  | Decimal.D7 u => 55 :: uint_digits u
  | Decimal.D8 u => 56 :: uint_digits u
  | Decimal.D9 u => 57 :: uint_digits u
  end.

(** [int.__repr__]. *)
Definition int_repr (z : Z) : str :=
  match z with
  | Z0 => [48]
  | Zpos p => uint_digits (Pos.to_uint p)
  | Zneg p => 45 :: uint_digits (Pos.to_uint p)
  end.

Fixpoint join (sep : str) (parts : list str) : str :=
  match parts with
  | [] => []
  | [p] => p
  | p :: ps => p ++ sep ++ join sep ps
  end.

Section Dumps.
(** [float.__repr__] of the float a literal denotes: not modelled. *)
Variable float_repr : str -> str.

Fixpoint dumps (v : pyval) : str :=
  match v with
  | VNone => py "null"
  | VBool true => py "true"
  | VBool false => py "false"
  | VInt z => int_repr z
  | VFloat lit => float_repr lit
  | VStr s => encode_basestring_ascii s
  | VList l => py "[" ++ join (py ", ") (map dumps l) ++ py "]"
  | VDict d =>
      py "{"
      ++ join (py ", ")
           (map (fun kv =>
                   encode_basestring_ascii (fst kv) ++ py ": "
                   ++ dumps (snd kv)) d)
      ++ py "}"
  end.
End Dumps.

(** *** Decoding *)

Definition is_ws (c : char) : bool :=
  (c =? 32) || (c =? 9) || (c =? 10) || (c =? 13).

Fixpoint skip_ws (s : str) : str :=
  match s with
  | c :: s' => if is_ws c then skip_ws s' else s
  | [] => []
  end.

Definition is_digit (c : char) : bool := (48 <=? c) && (c <=? 57).

Definition hex_value (c : char) : option N :=
  if (48 <=? c) && (c <=? 57) then Some (c - 48)
  else if (97 <=? c) && (c <=? 102) then Some (c - 87)
  else if (65 <=? c) && (c <=? 70) then Some (c - 55)
  else None.

(** [_decode_uXXXX]: the value of four hexadecimal digits. *)
Definition decode_uXXXX (a b c d : char) : option N :=
  match hex_value a, hex_value b, hex_value c, hex_value d with
  | Some x, Some y, Some z, Some w => Some (((x * 16 + y) * 16 + z) * 16 + w)
  | _, _, _, _ => None
  end.

(** The table [BACKSLASH] of the one-letter escapes. *)
Definition unescape (e : char) : option char :=
  if e =? quote then Some quote
  else if e =? backslash then Some backslash
  else if e =? 47 then Some 47
  else if e =? 98 then Some 8
  else if e =? 102 then Some 12
  else if e =? 110 then Some 10
  else if e =? 114 then Some 13
  else if e =? 116 then Some 9
  else None.

Definition is_high_surrogate (u : N) : bool := (0xd800 <=? u) && (u <=? 0xdbff).
Definition is_low_surrogate (u : N) : bool := (0xdc00 <=? u) && (u <=? 0xdfff).

Definition join_surrogates (u u2 : N) : char :=
  0x10000 + N.lor (N.shiftl (u - 0xd800) 10) (u2 - 0xdc00).

(** A character a Python [str] can hold, other than the first half of
    a surrogate pair. *)
Definition plain (c : char) : Prop :=
  c < 0x110000 /\ is_high_surrogate c = false.

Definition push (c : char) (r : result (str * str)) : result (str * str) :=
  rbind r (fun xr => Ok (c :: fst xr, snd xr)).

(** [scanstring] in strict mode, from just after the opening quote:
    the decoded string and what follows the closing quote. *)
Fixpoint scanstring (s : str) : result (str * str) :=
  match s with
  | [] => Raise JSONDecodeError
  | c :: s1 =>
      if c =? quote then Ok ([], s1)
      else if c <? 32 then Raise JSONDecodeError
      else if c =? backslash then
        match s1 with
        | [] => Raise JSONDecodeError
        | e :: s2 =>
            if e =? 117 then
              match s2 with
              | h1 :: h2 :: h3 :: h4 :: s6 =>
                  match decode_uXXXX h1 h2 h3 h4 with
                  | None => Raise JSONDecodeError
                  | Some uni =>
                      if is_high_surrogate uni then
                        match s6 with
                        | b :: u :: s8 =>
                            if (b =? backslash) && (u =? 117) then
                              match s8 with
                              | l1 :: l2 :: l3 :: l4 :: s12 =>
                                  match decode_uXXXX l1 l2 l3 l4 with
                                  | None => Raise JSONDecodeError
                                  | Some uni2 =>
                                      if is_low_surrogate uni2
                                      then push (join_surrogates uni uni2)
                                             (scanstring s12)
                                      else push uni (scanstring s6)
                                  end
                              | _ => Raise JSONDecodeError
                              end
                            else push uni (scanstring s6)
                        | _ => push uni (scanstring s6)
                        end
                      else push uni (scanstring s6)
                  end
              | _ => Raise JSONDecodeError
              end
            else
              match unescape e with
              | Some ch => push ch (scanstring s2)
              | None => Raise JSONDecodeError
              end
        end
      else push c (scanstring s1)
  end.

Fixpoint span_digits (s : str) : str * str :=
  match s with
  | c :: s' =>
      if is_digit c
      then let dr := span_digits s' in (c :: fst dr, snd dr)
      else ([], s)
  | [] => ([], [])
  end.

(** The groups of [NUMBER_RE]: an optional minus sign and [0] or a
    number that does not start with [0]; a dot and digits; an exponent. *)
Definition match_sign (s : str) : str * str :=
  match s with
  | c :: s' => if c =? 45 then ([c], s') else ([], s)
  | [] => ([], s)
  end.

Definition match_integer (s : str) : option (str * str) :=
  let sg := match_sign s in
  match snd sg with
  | c :: s2 =>
      if c =? 48 then Some (fst sg ++ [c], s2)
      else if is_digit c then
        let dr := span_digits s2 in Some (fst sg ++ c :: fst dr, snd dr)
      else None
  | [] => None
  end.

Definition match_frac (s : str) : str * str :=
  match s with
  | c :: s1 =>
      if c =? 46 then
        match span_digits s1 with
        | ([], _) => ([], s)
        | (ds, r) => (c :: ds, r)
        end
      else ([], s)
  | [] => ([], s)
  end.

Definition match_exp (s : str) : str * str :=
  match s with
  | c :: s1 =>
      if (c =? 101) || (c =? 69) then
        let sg :=
          match s1 with
          | c2 :: s2 => if (c2 =? 45) || (c2 =? 43) then ([c2], s2) else ([], s1)
          | [] => ([], s1)
          end in
        match span_digits (snd sg) with
        | ([], _) => ([], s)
        | (ds, r) => (c :: fst sg ++ ds, r)
        end
      else ([], s)
  | [] => ([], s)
  end.

(** [int(lit)] for a literal matched by [match_integer]. *)
Definition int_of_literal (lit : str) : Z :=
  let sg := match_sign lit in
  let n := fold_left (fun acc c => acc * 10 + (c - 48)) (snd sg) 0 in
  match fst sg with
  | [] => Z.of_N n
  | _ => (- Z.of_N n)%Z
  end.

Fixpoint strip_prefix (p s : str) : option str :=
  match p, s with
  | [], _ => Some s
  | x :: p', y :: s' => if x =? y then strip_prefix p' s' else None
  | _ :: _, [] => None
  end.

(** A number or one of the constants [NaN], [Infinity], [-Infinity]. *)
Definition scan_number (s : str) : result (pyval * str) :=
  match match_integer s with
  | Some (int, r0) =>
      let fr := match_frac r0 in
      let ex := match_exp (snd fr) in
      match fst fr ++ fst ex with
      | [] => Ok (VInt (int_of_literal int), snd ex)
      | tail => Ok (VFloat (int ++ tail), snd ex)
      end
  | None =>
      match strip_prefix (py "NaN") s with
      | Some r => Ok (VFloat (py "NaN"), r)
      | None =>
          match strip_prefix (py "Infinity") s with
          | Some r => Ok (VFloat (py "Infinity"), r)
          | None =>
              match strip_prefix (py "-Infinity") s with
              | Some r => Ok (VFloat (py "-Infinity"), r)
              | None => Raise JSONDecodeError
              end
          end
      end
  end.

Definition scan_constant (s : str) : result (pyval * str) :=
  match strip_prefix (py "null") s with
  | Some r => Ok (VNone, r)
  | None =>
      match strip_prefix (py "true") s with
      | Some r => Ok (VBool true, r)
      | None =>
          match strip_prefix (py "false") s with
          | Some r => Ok (VBool false, r)
          | None => scan_number s
          end
      end
  end.

Section Loops.
(** The scanner for one value, [scan_once]. *)
Variable scan : str -> result (pyval * str).

(** The loop of [JSONArray], at the first character of an element;
    [n] bounds the number of elements. *)
Fixpoint array_items (n : nat) (s : str) (acc : list pyval)
  : result (pyval * str) :=
  match n with
  | O => Raise RecursionError
  | S n' =>
      rbind (scan s) (fun vr =>
        let values := acc ++ [fst vr] in
        match skip_ws (snd vr) with
        | c :: r' =>
            if c =? 93 then Ok (VList values, r')
            else if c =? 44 then array_items n' (skip_ws r') values
            else Raise JSONDecodeError
        | [] => Raise JSONDecodeError
        end)
  end.

(** The loop of [JSONObject], just after the opening quote of a key;
    [n] bounds the number of members. *)
Fixpoint object_members (n : nat) (s : str) (acc : list (str * pyval))
  : result (pyval * str) :=
  match n with
  | O => Raise RecursionError
  | S n' =>
      rbind (scanstring s) (fun kr =>
        match skip_ws (snd kr) with
        | c :: r1 =>
            if c =? 58 then
              rbind (scan (skip_ws r1)) (fun vr =>
                let pairs := acc ++ [(fst kr, fst vr)] in
                match skip_ws (snd vr) with
                | c2 :: r3 =>
                    if c2 =? 125 then Ok (VDict (dict_of_pairs pairs), r3)
                    else if c2 =? 44 then
                      match skip_ws r3 with
                      | q :: r4 =>
                          if q =? quote then object_members n' r4 pairs
                          else Raise JSONDecodeError
                      | [] => Raise JSONDecodeError
                      end
                    else Raise JSONDecodeError
                | [] => Raise JSONDecodeError
                end)
            else Raise JSONDecodeError
        | [] => Raise JSONDecodeError
        end)
  end.
End Loops.

(** [scan_once] at the first character of a value.  [fuel] bounds the
    nesting of arrays and objects; [loads] gives enough of it for its
    input (see [loads_fuel]), so the model never raises [RecursionError]. *)
Fixpoint scan_once (fuel : nat) (s : str) {struct fuel}
  : result (pyval * str) :=
  match fuel with
  | O => Raise RecursionError
  | S f =>
      match s with
      | [] => Raise JSONDecodeError
      | c :: rest =>
          if c =? quote then
            rbind (scanstring rest) (fun xr => Ok (VStr (fst xr), snd xr))
          else if c =? 123 then
            match skip_ws rest with
            | c1 :: r1 =>
                if c1 =? 125 then Ok (VDict [], r1)
                else if c1 =? quote
                then object_members (scan_once f) (S (List.length r1)) r1 []
                else Raise JSONDecodeError
            | [] => Raise JSONDecodeError
            end
          else if c =? 91 then
            match skip_ws rest with
            | c1 :: r1 =>
                if c1 =? 93 then Ok (VList [], r1)
                else array_items (scan_once f) (S (List.length r1)) (c1 :: r1) []
            | [] => Raise JSONDecodeError
            end
          else scan_constant s
      end
  end.

(** [json.loads] of a [str]. *)
Definition loads (s : str) : result pyval :=
  match s with
  | c :: _ =>
      if c =? 0xfeff then Raise JSONDecodeError
      else
        rbind (scan_once (S (List.length s)) (skip_ws s)) (fun vr =>
          match skip_ws (snd vr) with
          | [] => Ok (fst vr)
          | _ :: _ => Raise JSONDecodeError
          end)
  | [] => Raise JSONDecodeError
  end.

End Json.

(** ** Surrogates and [repr] of a [str] *)

(** A surrogate, U+D800 to U+DFFF: a [str] can hold one, and UTF-8 has
    no encoding for it. *)
Definition is_surrogate (c : char) : bool := (0xD800 <=? c) && (c <=? 0xDFFF).

Definition has_surrogate (s : str) : bool := existsb is_surrogate s.

Definition hex2 (n : N) : str :=
  [Json.hex_digit (n / 16 mod 16); Json.hex_digit (n mod 16)].

(** One character of [repr] of a string quoted with [q]: the backslash
    and the quote are escaped, and so are the characters that are not
    printable, those below U+0020, U+007F to U+00A0, U+00AD and the
    surrogates.  From U+0100 on the Unicode database decides what is
    printable; here every character there but the surrogates is taken
    to be. *)
Definition repr_char (q : char) (c : char) : str :=
  if c =? 92 then [92; 92]
  else if c =? q then [92; q]
  else if c =? 9 then [92; 116]
  else if c =? 10 then [92; 110]
  else if c =? 13 then [92; 114]
  else if (c <? 32) || ((127 <=? c) && (c <=? 160)) || (c =? 173)
  then 92 :: 120 :: hex2 c
  else if is_surrogate c then 92 :: 117 :: Json.hex4 c
  else [c].

(** [repr] of a [str]: in single quotes, unless it holds a single quote
    and no double quote. *)
Definition repr_str (s : str) : str :=
  let q := if existsb (N.eqb 39) s && negb (existsb (N.eqb 34) s)
           then 34 else 39 in
  q :: flat_map (repr_char q) s ++ [q].

(** A text of printable ASCII characters, U+0020 to U+007E. *)
Definition printable_ascii (s : str) : Prop :=
  Forall (fun c => 32 <= c /\ c <= 126) s.

(** ** The world of the weather service: clock, sockets, threads *)

Module Net.

Definition address := (str * Z)%type.

Definition address_eqb (a b : address) : bool :=
  str_eqb (fst a) (fst b) && (snd a =? snd b)%Z.

(** An established TCP connection, seen from both ends: the bytes in
    flight in each direction and which ends have closed their socket. *)
Record connection := {
  peer : address;
  to_server : bytes;
  to_client : bytes;
  client_closed : bool;
  server_closed : bool }.

Inductive side := Client | Server.

(** A connected socket object: one end of a connection. *)
Definition socket := (nat * side)%type.

Inductive event :=
| EvStart (thread : nat)
| EvBind (a : address)
| EvListen (n : Z)
| EvConnect (c : nat) (a : address)
| EvAccept (c : nat)
| EvRecv (s : socket) (data : bytes)
| EvSend (s : socket) (data : bytes)
| EvClose (s : socket)
| EvSleep (seconds : Z)
| EvPrint (line : str)
| EvUncaught (e : exn).

(** The state the program runs in.  [clock] counts the seconds spent in
    [time.sleep]; [bound] and [listening] describe the one listening
    socket of the host; [backlog] holds the connections established and
    not yet accepted, oldest first; [acceptor] is the thread parked in
    [accept]; [cur] is the running thread and [threads] the number of
    threads started so far (the main thread is thread 0); [log] is the
    history of effects, each with the thread that performed it. *)
Record world := {
  clock : Z;
  conns : list connection;
  bound : option address;
  listening : bool;
  backlog : list nat;
  acceptor : option nat;
  cur : nat;
  threads : nat;
  log : list (nat * event) }.

Definition initial : world :=
  {| clock := 0; conns := []; bound := None; listening := false;
     backlog := []; acceptor := None; cur := 0%nat; threads := 1%nat;
     log := [] |}.

Definition set_clock (t : Z) (w : world) : world :=
  {| clock := t; conns := conns w; bound := bound w;
     listening := listening w; backlog := backlog w;
     acceptor := acceptor w; cur := cur w; threads := threads w;
     log := log w |}.
Definition set_conns (cs : list connection) (w : world) : world :=
  {| clock := clock w; conns := cs; bound := bound w;
     listening := listening w; backlog := backlog w;
     acceptor := acceptor w; cur := cur w; threads := threads w;
     log := log w |}.
Definition set_bound (a : option address) (w : world) : world :=
  {| clock := clock w; conns := conns w; bound := a;
     listening := listening w; backlog := backlog w;
     acceptor := acceptor w; cur := cur w; threads := threads w;
     log := log w |}.
Definition set_listening (b : bool) (w : world) : world :=
  {| clock := clock w; conns := conns w; bound := bound w;
     listening := b; backlog := backlog w;
     acceptor := acceptor w; cur := cur w; threads := threads w;
     log := log w |}.
Definition set_backlog (q : list nat) (w : world) : world :=
  {| clock := clock w; conns := conns w; bound := bound w;
     listening := listening w; backlog := q;
     acceptor := acceptor w; cur := cur w; threads := threads w;
     log := log w |}.
Definition set_acceptor (t : option nat) (w : world) : world :=
  {| clock := clock w; conns := conns w; bound := bound w;
     listening := listening w; backlog := backlog w;
     acceptor := t; cur := cur w; threads := threads w;
     log := log w |}.
Definition set_cur (t : nat) (w : world) : world :=
  {| clock := clock w; conns := conns w; bound := bound w;
     listening := listening w; backlog := backlog w;
     acceptor := acceptor w; cur := t; threads := threads w;
     log := log w |}.
Definition set_threads (n : nat) (w : world) : world :=
  {| clock := clock w; conns := conns w; bound := bound w;
     listening := listening w; backlog := backlog w;
     acceptor := acceptor w; cur := cur w; threads := n;
     log := log w |}.
Definition emit (e : event) (w : world) : world :=
  {| clock := clock w; conns := conns w; bound := bound w;
     listening := listening w; backlog := backlog w;
     acceptor := acceptor w; cur := cur w; threads := threads w;
     log := log w ++ [(cur w, e)] |}.

(** What a call does: it returns, raises, blocks for ever, or is cut
    by the bound on the iterations of a loop of the model. *)
Inductive outcome (A : Type) :=
| Done (a : A)
| Raised (e : exn)
| Blocked
| Unfinished.
Arguments Done {A} a.
Arguments Raised {A} e.
Arguments Blocked {A}.
Arguments Unfinished {A}.

Definition M (A : Type) := world -> outcome A * world.

Definition ret {A} (a : A) : M A := fun w => (Done a, w).

Definition bind {A B} (m : M A) (k : A -> M B) : M B :=
  fun w =>
    match m w with
    | (Done a, w') => k a w'
    | (Raised e, w') => (Raised e, w')
    | (Blocked, w') => (Blocked, w')
    | (Unfinished, w') => (Unfinished, w')
    end.

Definition lift {A} (r : result A) : M A :=
  fun w =>
    match r with
    | Ok a => (Done a, w)
    | Raise e => (Raised e, w)
    end.

Definition raise {A} (e : exn) : M A := fun w => (Raised e, w).

Fixpoint update {A} (l : list A) (i : nat) (x : A) : list A :=
  match l, i with
  | [], _ => []
  | _ :: t, O => x :: t
  | h :: t, S j => h :: update t j x
  end.

(** [time.sleep(seconds)]. *)
Definition sleep (seconds : Z) : M unit :=
  fun w => (Done tt, emit (EvSleep seconds) (set_clock (clock w + seconds)%Z w)).

(** [time.time()], on the clock of the model. *)
Definition time : M Z := fun w => (Done (clock w), w).

(** [print(line)], on a standard output that encodes in UTF-8 and
    rejects what it cannot encode, as [sys.stdout] does under a UTF-8
    locale: a line that holds a surrogate cannot be encoded, [print]
    raises [UnicodeEncodeError] and nothing is written.  (Under the C
    locale the stream writes the surrogates U+DC80 to U+DCFF as bytes
    and rejects the others; the statements below that need [print] to
    succeed are about texts without any surrogate.) *)
Definition print (line : str) : M unit :=
  fun w =>
    if has_surrogate line then (Raised UnicodeEncodeError, w)
    else (Done tt, emit (EvPrint line) w).

(** [server.bind(a)] on a fresh socket: the address must be free. *)
Definition sock_bind (a : address) : M unit :=
  fun w =>
    match bound w with
    | Some _ => (Raised OSError, w)
    | None => (Done tt, emit (EvBind a) (set_bound (Some a) w))
    end.

(** [server.listen(n)]. *)
Definition sock_listen (n : Z) : M unit :=
  fun w =>
    match bound w with
    | Some _ => (Done tt, emit (EvListen n) (set_listening true w))
    | None => (Raised OSError, w)
    end.

(** [server.accept()]: the oldest pending connection and the address of
    its peer; with none pending the calling thread parks. *)
Definition sock_accept : M (socket * address) :=
  fun w =>
    match backlog w with
    | c :: rest =>
        match nth_error (conns w) c with
        | Some k =>
            (Done ((c, Server), peer k), emit (EvAccept c) (set_backlog rest w))
        | None => (Raised OSError, w)
        end
    | [] => (Blocked, set_acceptor (Some (cur w)) w)
    end.

(** The address the system gives to the client end of connection [c]. *)
Definition ephemeral (c : nat) : address :=
  (py "127.0.0.1", 49152 + Z.of_nat c)%Z.

(** [client.connect(a)] on a fresh socket. *)
Definition sock_connect (a : address) : M socket :=
  fun w =>
    match bound w with
    | Some b =>
        if listening w && address_eqb a b then
          let c := List.length (conns w) in
          let k := {| peer := ephemeral c; to_server := []; to_client := [];
                      client_closed := false; server_closed := false |} in
          (Done (c, Client),
           emit (EvConnect c a)
             (set_backlog (backlog w ++ [c]) (set_conns (conns w ++ [k]) w)))
        else (Raised ConnectionRefusedError, w)
    | None => (Raised ConnectionRefusedError, w)
    end.

Definition own_closed (sd : side) (k : connection) : bool :=
  match sd with Client => client_closed k | Server => server_closed k end.
Definition peer_closed (sd : side) (k : connection) : bool :=
  match sd with Client => server_closed k | Server => client_closed k end.
Definition inbox (sd : side) (k : connection) : bytes :=
  match sd with Client => to_client k | Server => to_server k end.
Definition set_inbox (sd : side) (data : bytes) (k : connection) : connection :=
  match sd with
  | Client =>
      {| peer := peer k; to_server := to_server k; to_client := data;
         client_closed := client_closed k; server_closed := server_closed k |}
  | Server =>
      {| peer := peer k; to_server := data; to_client := to_client k;
         client_closed := client_closed k; server_closed := server_closed k |}
  end.
Definition other (sd : side) : side :=
  match sd with Client => Server | Server => Client end.
Definition set_own_closed (sd : side) (k : connection) : connection :=
  match sd with
  | Client =>
      {| peer := peer k; to_server := to_server k; to_client := to_client k;
         client_closed := true; server_closed := server_closed k |}
  | Server =>
      {| peer := peer k; to_server := to_server k; to_client := to_client k;
         client_closed := client_closed k; server_closed := true |}
  end.

(** [s.recv(n)]: at most [n] of the bytes in flight towards [s]; the
    empty bytes once the peer has closed; blocks while there is nothing
    to read and the peer is still there. *)
Definition sock_recv (s : socket) (n : nat) : M bytes :=
  fun w =>
    match nth_error (conns w) (fst s) with
    | None => (Raised OSError, w)
    | Some k =>
        if own_closed (snd s) k then (Raised OSError, w)
        else
          match inbox (snd s) k with
          | [] =>
              if peer_closed (snd s) k
              then (Done [], emit (EvRecv s []) w)
              else (Blocked, w)
          | _ :: _ =>
              let got := firstn n (inbox (snd s) k) in
              let left := skipn n (inbox (snd s) k) in
              (Done got,
               emit (EvRecv s got)
                 (set_conns (update (conns w) (fst s) (set_inbox (snd s) left k)) w))
          end
    end.

(** [s.send(data)]: all of [data] goes in flight towards the peer. *)
Definition sock_send (s : socket) (data : bytes) : M Z :=
  fun w =>
    match nth_error (conns w) (fst s) with
    | None => (Raised OSError, w)
    | Some k =>
        if own_closed (snd s) k then (Raised OSError, w)
        else
          let k' := set_inbox (other (snd s))
                      (inbox (other (snd s)) k ++ data) k in
          (Done (Z.of_nat (List.length data)),
           emit (EvSend s data) (set_conns (update (conns w) (fst s) k') w))
    end.

(** [s.close()]. *)
Definition sock_close (s : socket) : M unit :=
  fun w =>
    match nth_error (conns w) (fst s) with
    | None => (Raised OSError, w)
    | Some k =>
        (Done tt,
         emit (EvClose s)
           (set_conns (update (conns w) (fst s) (set_own_closed (snd s) k)) w))
    end.

End Net.

(** ** The synchronous weather service of the guide *)

Module Weather.
Import Net.

Notation "x <- m ;; k" := (bind m (fun x => k))
  (at level 61, m at next level, right associativity).
Notation "m ;; k" := (bind m (fun _ => k))
  (at level 61, right associativity).

(** The text an f-string gives for an address, a pair of a host and a
    port: [repr] of the tuple. *)
Definition repr_address (a : address) : str :=
  py "(" ++ repr_str (fst a) ++ py ", " ++ Json.int_repr (snd a) ++ py ")".

(** The format [.2f] of a whole number of seconds. *)
Definition format_2f (seconds : Z) : str :=
  Json.int_repr seconds ++ py ".00".

(** The address in [server.bind] and in [client.connect]. *)
Definition localhost_8000 : address := (py "localhost", 8000%Z).

Section Service.
(** [float.__repr__], for [json.dumps]. *)
Variable float_repr : str -> str.

(** Simulate weather API call with delay. *)
Definition get_weather_data (city : pyval) : M pyval :=
  sleep 2 ;;
  ret (VDict (dict_of_pairs
                [(py "city", city);
                 (py "temperature", VInt 20);
                 (py "conditions", VStr (py "sunny"))])).

(** Handle a single client request. *)
Definition handle_client (client_socket : socket) : M unit :=
  raw <- sock_recv client_socket 1024 ;;
  data <- lift (Utf8.decode raw) ;;
  request <- lift (Json.loads data) ;;
  city <- lift (getitem request (py "city")) ;;
  weather <- get_weather_data city ;;
  payload <- lift (Utf8.encode (Json.dumps float_repr weather)) ;;
  sock_send client_socket payload ;;
  sock_close client_socket.

(** The loop [while True] of [run_weather_server], cut after [n]
    iterations. *)
Fixpoint accept_loop (n : nat) : M unit :=
  match n with
  | O => fun w => (Unfinished, w)
  | S n' =>
      ca <- sock_accept ;;
      print (py "Accepted connection from " ++ repr_address (snd ca)) ;;
      handle_client (fst ca) ;;
      accept_loop n'
  end.

(** The loop, with one iteration more than there are connections to
    accept: the last one parks in [accept]. *)
Definition serve : M unit :=
  fun w => accept_loop (S (List.length (backlog w))) w.

(** The socket is created, bound and put to listen; then the loop. *)
Definition run_weather_server : M unit :=
  sock_bind localhost_8000 ;;
  sock_listen 5 ;;
  print (py "Weather server started on port 8000") ;;
  serve.

(** *** Threads

    The demo has two threads, and the main thread only blocks in
    [recv]: a thread runs until it parks, ends or dies of an uncaught
    exception, and the thread parked in [accept] runs when the main
    thread is about to block.  A thread that starts runs first, up to
    its first [accept]: the guide starts the server before the clients.
    The [daemon] flag of the thread only matters when the process
    exits, which is not modelled. *)
Definition run_thread (t : nat) (body : M unit) : M unit :=
  fun w =>
    let me := cur w in
    match body (set_cur t w) with
    | (Raised e, w') => (Done tt, set_cur me (emit (EvUncaught e) w'))
    | (Unfinished, w') => (Unfinished, set_cur me w')
    | (_, w') => (Done tt, set_cur me w')
    end.

(** [threading.Thread(target=...).start()]. *)
Definition thread_start (target : M unit) : M unit :=
  fun w =>
    let t := threads w in
    run_thread t target (emit (EvStart t) (set_threads (S t) w)).

(** The thread parked in [accept] goes round its loop again. *)
Definition resume_acceptor : M unit :=
  fun w =>
    match acceptor w with
    | Some t => run_thread t serve (set_acceptor None w)
    | None => (Done tt, w)
    end.

(** A call of the main thread that may block: if it does, the parked
    thread runs and the call is tried again. *)
Definition blocking {A} (call : M A) : M A :=
  fun w =>
    match call w with
    | (Blocked, w') => (resume_acceptor ;; call) w'
    | r => r
    end.

(** Example client code for testing. *)
Definition test_client (city : str) : M unit :=
  client <- sock_connect localhost_8000 ;;
  request <- lift (Utf8.encode
                     (Json.dumps float_repr
                        (VDict (dict_of_pairs [(py "city", VStr city)])))) ;;
  sock_send client request ;;
  raw <- blocking (sock_recv client 1024) ;;
  response <- lift (Utf8.decode raw) ;;
  print (py "Received weather for " ++ city ++ py ": " ++ response) ;;
  sock_close client.

Definition cities : list str :=
  [py "London"; py "Paris"; py "New York"; py "Tokyo"; py "Berlin"].

Fixpoint for_each {A} (l : list A) (body : A -> M unit) : M unit :=
  match l with
  | [] => ret tt
  | x :: l' => body x ;; for_each l' body
  end.

(** The block that runs the demo: the server in a background thread,
    then the five clients one after the other. *)
Definition main : M unit :=
  thread_start run_weather_server ;;
  start_time <- time ;;
  for_each cities test_client ;;
  end_time <- time ;;
  let total_time := (end_time - start_time)%Z in
  print (10 :: py "Processed 5 requests in " ++ format_2f total_time
           ++ py " seconds").

End Service.

(** *** Names for what the statements below speak of *)

(** The dictionary [get_weather_data] returns. *)
Definition weather (city : pyval) : pyval :=
  VDict [(py "city", city); (py "temperature", VInt 20);
         (py "conditions", VStr (py "sunny"))].

(** The dictionary [test_client] sends. *)
Definition request (city : str) : pyval := VDict [(py "city", VStr city)].

(** The member [city] of the JSON text in [data]: the first steps of
    [handle_client] on what it received. *)
Definition city_of (data : bytes) : result pyval :=
  rbind (Utf8.decode data) (fun text =>
  rbind (Json.loads text) (fun v => getitem v (py "city"))).

(** [data] is not valid JSON: it is not UTF-8 text, or [json.loads]
    rejects the text. *)
Definition not_json (data : bytes) : Prop :=
  (exists e, Utf8.decode data = Raise e)
  \/ (exists text e, Utf8.decode data = Ok text /\ Json.loads text = Raise e).

(** [data] is JSON without a key [city]: another value than an object,
    or an object without that member. *)
Definition lacks_city (data : bytes) : Prop :=
  exists text v,
    Utf8.decode data = Ok text /\ Json.loads text = Ok v
    /\ forall d, v = VDict d -> dict_get (py "city") d = None.

(** The connection after [handle_client] has read [n] bytes and replied. *)
Definition answered (n : nat) (reply : bytes) (k : connection) : connection :=
  {| peer := peer k; to_server := skipn n (to_server k);
     to_client := to_client k ++ reply;
     client_closed := client_closed k; server_closed := true |}.

(** The world after [handle_client] has served connection [c]. *)
Definition served (c : nat) (k : connection) (reply : bytes) (w : world) : world :=
  {| clock := clock w + 2; conns := update (conns w) c (answered 1024 reply k);
     bound := bound w; listening := listening w; backlog := backlog w;
     acceptor := acceptor w; cur := cur w; threads := threads w;
     log := log w ++ [(cur w, EvRecv (c, Server) (firstn 1024 (to_server k)));
                      (cur w, EvSleep 2);
                      (cur w, EvSend (c, Server) reply);
                      (cur w, EvClose (c, Server))] |}.

(** The world after [accept] has returned connection [c] of peer [k] and
    the server has printed its line. *)
Definition accepted (c : nat) (k : connection) (w : world) : world :=
  emit (EvPrint (py "Accepted connection from " ++ repr_address (peer k)))
    (emit (EvAccept c) (set_backlog (tl (backlog w)) w)).

(** A printer of floats for the examples: the literal as it was read;
    [nan] for one that is not ASCII, which [json.loads] never builds. *)
Definition literal_repr (lit : str) : str :=
  if forallb (fun c => c <? 128) lit then lit else py "nan".

(** The threads that accepted a connection, in the order of the log. *)
Definition accepting_threads (l : list (nat * event)) : list nat :=
  flat_map (fun te => match snd te with EvAccept _ => [fst te] | _ => [] end) l.

(** The addresses bound and the addresses connected to. *)
Definition bound_addresses (l : list (nat * event)) : list address :=
  flat_map (fun te => match snd te with EvBind a => [a] | _ => [] end) l.
Definition connected_addresses (l : list (nat * event)) : list address :=
  flat_map (fun te => match snd te with EvConnect _ a => [a] | _ => [] end) l.

(** A world in which thread 1 runs the server and connection 0 carries
    [payload] to it. *)
Definition one_request (payload : bytes) : world :=
  {| clock := 0;
     conns := [{| peer := ephemeral 0; to_server := payload; to_client := [];
                  client_closed := false; server_closed := false |}];
     bound := Some localhost_8000; listening := true; backlog := [];
     acceptor := None; cur := 1%nat; threads := 2%nat; log := [] |}.

(** The specification read to the letter: every request [{city: c}] is
    echoed. *)
Definition echoes_every_request (float_repr : str -> str) : Prop :=
  forall w c k city,
    nth_error (conns w) c = Some k ->
    server_closed k = false ->
    to_server k = Json.dumps float_repr (request city) ->
    fst (handle_client float_repr (c, Server) w) = Done tt
    /\ nth_error (conns (snd (handle_client float_repr (c, Server) w))) c
       = Some (answered 1024 (Json.dumps float_repr (weather (VStr city))) k).

(** The specification read to the letter: every request that is not
    valid JSON, or that has no key [city], makes [handle_client]
    raise. *)
Definition raises_on_every_bad_request (float_repr : str -> str) : Prop :=
  forall w c k,
    nth_error (conns w) c = Some k ->
    server_closed k = false ->
    to_server k <> [] ->
    not_json (to_server k) \/ lacks_city (to_server k) ->
    exists e, fst (handle_client float_repr (c, Server) w) = Raised e.

(** Worlds in which the server listens and connections wait: connection
    [i] carries the [i]-th payload. *)
Fixpoint connections_from (i : nat) (payloads : list bytes) : list connection :=
  match payloads with
  | [] => []
  | p :: ps =>
      {| peer := ephemeral i; to_server := p; to_client := [];
         client_closed := false; server_closed := false |}
      :: connections_from (S i) ps
  end.

Definition pending (payloads : list bytes) : world :=
  {| clock := 0; conns := connections_from 0 payloads;
     bound := Some localhost_8000; listening := true;
     backlog := seq 0 (List.length payloads);
     acceptor := None; cur := 1%nat; threads := 2%nat; log := [] |}.

(** The specification read to the letter: the loop completes after one
    client. *)
Definition completes_after_one_client (float_repr : str -> str) : Prop :=
  forall payload city,
    payload <> [] -> (List.length payload <= 1024)%nat ->
    city_of payload = Ok city ->
    fst (serve float_repr (pending [payload])) = Done tt.

(** Events that name no address and no thread. *)
Definition plain_event (e : event) : Prop :=
  match e with
  | EvStart _ | EvBind _ | EvConnect _ _ | EvUncaught _ => False
  | _ => True
  end.

(** [w'] comes after [w], in the same thread, with no thread started in
    between and every effect in between performed by that thread. *)
Definition same_thread (w w' : world) : Prop :=
  cur w' = cur w /\ threads w' = threads w
  /\ exists l, log w' = log w ++ l /\ Forall (fun te => fst te = cur w) l.

(** An event that names no other address than [localhost_8000]. *)
Definition address_ok (e : event) : Prop :=
  match e with
  | EvBind a | EvConnect _ a => a = localhost_8000
  | _ => True
  end.

(** [w'] comes after [w] and no other address was named in between. *)
Definition same_address (w w' : world) : Prop :=
  exists l, log w' = log w ++ l /\ Forall (fun te => address_ok (snd te)) l.

(** A computation all of whose runs stay in a relation. *)
Definition respects {A} (R : world -> world -> Prop) (m : M A) : Prop :=
  forall w, R w (snd (m w)).

(** The server is parked: thread [t] waits in [accept] on
    [localhost_8000] and no connection is waiting. *)
Definition parked (t : nat) (w : world) : Prop :=
  bound w = Some localhost_8000 /\ listening w = true
  /\ acceptor w = Some t /\ backlog w = [].

(** The world after [test_client] has connected and sent its request. *)
Definition sent (req : bytes) (w : world) : world :=
  let c := List.length (conns w) in
  {| clock := clock w;
     conns := conns w ++ [{| peer := ephemeral c; to_server := req;
                             to_client := []; client_closed := false;
                             server_closed := false |}];
     bound := bound w; listening := listening w;
     backlog := backlog w ++ [c]; acceptor := acceptor w;
     cur := cur w; threads := threads w;
     log := log w ++ [(cur w, EvConnect c localhost_8000);
                      (cur w, EvSend (c, Client) req)] |}.

(** The world after the server, in thread [t], has answered that request
    with [reply] and parked again. *)
Definition replied (t : nat) (req reply : bytes) (w : world) : world :=
  let c := List.length (conns w) in
  {| clock := clock w + 2;
     conns := conns w ++ [{| peer := ephemeral c; to_server := [];
                             to_client := reply; client_closed := false;
                             server_closed := true |}];
     bound := bound w; listening := listening w;
     backlog := []; acceptor := Some t;
     cur := cur w; threads := threads w;
     log := log w ++ [(cur w, EvConnect c localhost_8000);
                      (cur w, EvSend (c, Client) req);
                      (t, EvAccept c);
                      (t, EvPrint (py "Accepted connection from "
                                   ++ repr_address (ephemeral c)));
                      (t, EvRecv (c, Server) req);
                      (t, EvSleep 2);
                      (t, EvSend (c, Server) reply);
                      (t, EvClose (c, Server))] |}.

(** The world after [test_client city] has run against the parked server. *)
Definition visited (t : nat) (city : str) (req reply : bytes) (w : world)
  : world :=
  let c := List.length (conns w) in
  {| clock := clock w + 2;
     conns := conns w ++ [{| peer := ephemeral c; to_server := [];
                             to_client := []; client_closed := true;
                             server_closed := true |}];
     bound := bound w; listening := listening w;
     backlog := []; acceptor := Some t;
     cur := cur w; threads := threads w;
     log := log (replied t req reply w)
            ++ [(cur w, EvRecv (c, Client) reply);
                (cur w, EvPrint (py "Received weather for " ++ city
                                 ++ py ": " ++ reply));
                (cur w, EvClose (c, Client))] |}.

(** What [handle_client] sends back to a client whose request is [req]. *)
Definition reply_of (float_repr : str -> str) (req : bytes) : bytes :=
  match nth_error
          (conns (snd (handle_client float_repr (0%nat, Server) (one_request req))))
          0 with
  | Some k => to_client k
  | None => []
  end.

(** The specification read to the letter, on the example it gives: the
    city a client sent is never read back from the reply. *)
Definition never_recovered (float_repr : str -> str) : Prop :=
  forall city,
    city_of (reply_of float_repr (Json.dumps float_repr (request city)))
    <> Ok (VStr city).

(** The specification read to the letter: one thread for each request, so
    in the run of the demo no two connections are accepted by the same
    thread. *)
Definition own_thread_per_request (float_repr : str -> str) : Prop :=
  NoDup (accepting_threads (log (snd (main float_repr initial)))).

(** A city name [test_client] can send and get back: no character is the
    first half of a surrogate pair, and the reply fits in one [recv]. *)
Definition fits (float_repr : str -> str) (city : str) : Prop :=
  Forall Json.plain city
  /\ (List.length (Json.dumps float_repr (weather (VStr city))) <= 1024)%nat.

(** A text [print] can write: it holds no surrogate. *)
Definition writable (s : str) : Prop := has_surrogate s = false.

(** A computation no run of which is cut by the bound of a loop. *)
Definition ends {A} (m : M A) : Prop := forall w, fst (m w) <> Unfinished.

(** The requests and the world of the examples. *)
Definition london : bytes := Json.dumps literal_repr (request (py "London")).

(** A request that is not JSON, though its first 1024 bytes are: the
    request for London, spaces up to 1024 bytes, and seven bytes
    more. *)
Definition padded_london : bytes :=
  london ++ repeat 32 (1024 - List.length london) ++ py "garbage".
Definition paris : bytes := Json.dumps literal_repr (request (py "Paris")).

Definition london_connection : connection :=
  {| peer := ephemeral 0; to_server := london; to_client := [];
     client_closed := false; server_closed := false |}.

(** The world of the demo once the server thread has started. *)
Definition listening_world : world :=
  snd (thread_start (run_weather_server literal_repr) initial).

End Weather.

(** ** The notebook: coroutines, the async iterator and the async generator *)

Module Notebook.

(** What a coroutine does while it runs: it sleeps (the delay in
    milliseconds), prints, or hands an item to the loop iterating it. *)
Inductive event :=
| Sleep (ms : Z)
| Print (line : str)
| Item (v : Z).

(** A coroutine run to its end: its trace and its result. *)
Definition Async (A : Type) := (list event * result A)%type.

Definition ret {A} (a : A) : Async A := ([], Ok a).
Definition raise {A} (e : exn) : Async A := ([], Raise e).
Definition bind {A B} (m : Async A) (k : A -> Async B) : Async B :=
  match snd m with
  | Ok a => (fst m ++ fst (k a), snd (k a))
  | Raise e => (fst m, Raise e)
  end.

(** [await asyncio.sleep(ms / 1000)]. *)
Definition asyncio_sleep (ms : Z) : Async unit := ([Sleep ms], Ok tt).

Notation "x <- m ;; k" := (bind m (fun x => k))
  (at level 61, m at next level, right associativity).
Notation "m ;; k" := (bind m (fun _ => k))
  (at level 61, right associativity).

(** *** class AsyncDataStream *)

Record AsyncDataStream := {
  start : Z;
  end_ : Z;
  current : Z }.

(** [__init__]. *)
Definition init (start end_ : Z) : AsyncDataStream :=
  {| start := start; end_ := end_; current := start |}.

(** [__aiter__]. *)
Definition aiter (self : AsyncDataStream) : AsyncDataStream := self.

(** [__anext__]: the coroutine and the object after it. *)
Definition anext (self : AsyncDataStream) : Async Z * AsyncDataStream :=
  if (current self <? end_ self)%Z then
    (asyncio_sleep 500 ;; ret (current self),
     {| start := start self; end_ := end_ self;
        current := (current self + 1)%Z |})
  else (raise StopAsyncIteration, self).

Definition inspect {A} (a : A) : {b | a = b} := exist _ a eq_refl.

(** One turn of the loop: the trace of [__anext__], the item, the rest. *)
Definition got (tr : list event) (v : Z) (rest : Async unit) : Async unit :=
  (tr ++ Item v :: fst rest, snd rest).

(** [async for num in self]: [__anext__] is awaited until it raises
    [StopAsyncIteration]; each value it returns is an item of the loop. *)
Equations? async_for (self : AsyncDataStream) : Async unit
  by wf (Z.to_nat (end_ self - current self)) lt :=
  async_for self with inspect (anext self) => {
    | exist _ ((tr, Ok v), self') _ => got tr v (async_for self');
    | exist _ ((tr, Raise StopAsyncIteration), _) _ => (tr, Ok tt);
    | exist _ ((tr, Raise e), _) _ => (tr, Raise e) }.
Proof.
  unfold anext in e.
  destruct (current self <? end_ self)%Z eqn:E; inversion e; subst; simpl.
  apply Z.ltb_lt in E. lia.
Qed.

(** [range(start, stop)]. *)
Definition range (start stop : Z) : list Z :=
  map (fun k => (start + Z.of_nat k)%Z) (seq 0 (Z.to_nat (stop - start))).

(** The async generator [async_range], iterated to its end. *)
Definition async_range (start end_ : Z) : Async unit :=
  (flat_map (fun i => [Sleep 500; Item i]) (range start end_), Ok tt).

(** The items a loop got. *)
Fixpoint items (tr : list event) : list Z :=
  match tr with
  | [] => []
  | Item v :: tr' => v :: items tr'
  | _ :: tr' => items tr'
  end.

(** *** The code cells

    For each code cell, in the order of the notebook: the names it
    binds at its top level (imports, functions, classes) and the global
    names its code reads. *)
Record cell := {
  binds : list string;
  reads : list string }.

Local Open Scope string_scope.

Definition cells : list cell := [
  {| binds := ["asyncio"; "simple_coroutine"];
     reads := ["print"; "asyncio"; "simple_coroutine"] |};
  {| binds := ["fetch_data"; "process_data"];
     reads := ["print"; "asyncio"; "fetch_data"; "process_data"] |};
  {| binds := ["main"];
     reads := ["asyncio"; "fetch_data"; "main"] |};
  {| binds := ["long_operation"; "task_demo"];
     reads := ["print"; "asyncio"; "long_operation"; "task_demo"] |};
  {| binds := ["task_operations_demo"];
     reads := ["asyncio"; "long_operation"; "print"; "task_operations_demo"] |};
  {| binds := ["might_fail"; "error_handling_demo"];
     reads := ["asyncio"; "ValueError"; "might_fail"; "print"; "enumerate";
               "isinstance"; "Exception"; "error_handling_demo"] |};
  {| binds := ["AsyncResource"; "context_manager_demo"];
     reads := ["print"; "asyncio"; "AsyncResource"; "context_manager_demo"] |};
  {| binds := ["AsyncDatabase"; "database_demo"];
     reads := ["asyncio"; "AsyncDatabase"; "print"; "database_demo"] |};
  {| binds := ["AsyncDataStream"; "iterator_demo"];
     reads := ["asyncio"; "StopAsyncIteration"; "AsyncDataStream"; "print";
               "iterator_demo"] |};
  {| binds := ["async_range"; "generator_demo"];
     reads := ["range"; "asyncio"; "async_range"; "print"; "generator_demo"] |};
  {| binds := ["aiohttp"; "fetch_url"; "fetch_multiple_urls"];
     reads := ["aiohttp"; "fetch_url"; "asyncio"; "zip"; "print"; "len"] |};
  {| binds := ["web"; "handle_get"; "init_app"];
     reads := ["asyncio"; "web"; "handle_get"] |};
  {| binds := ["demo_performance_patterns"];
     reads := ["asyncio"; "list"; "range"; "len"; "print";
               "demo_performance_patterns"] |};
  {| binds := ["time"; "functools"; "async_timer"; "monitored_operation"];
     reads := ["functools"; "time"; "print"; "asyncio"; "async_timer";
               "monitored_operation"] |} ].

(** The builtins the cells read. *)
Definition builtins : list string :=
  ["print"; "range"; "len"; "list"; "zip"; "enumerate"; "isinstance";
   "Exception"; "ValueError"; "StopAsyncIteration"].

Definition mem (x : string) (l : list string) : bool :=
  existsb (String.eqb x) l.

(** The names a cell reads that are neither builtins nor bound by it. *)
Definition imports_from_outside (c : cell) : list string :=
  filter (fun x => negb (mem x (binds c) || mem x builtins)) (reads c).

Definition self_contained (c : cell) : bool :=
  match imports_from_outside c with
  | [] => true
  | _ :: _ => false
  end.

(** The cells run in order in one namespace: [scope] holds the names
    bound so far.  A cell runs if every name it reads is a builtin, or
    bound by it or before it. *)
Fixpoint runs_in_order (scope : list string) (cs : list cell) : bool :=
  match cs with
  | [] => true
  | c :: cs' =>
      forallb (fun x => mem x (scope ++ binds c) || mem x builtins) (reads c)
      && runs_in_order (scope ++ binds c) cs'
  end.

(** Every code cell reads only names it binds itself. *)
Definition every_cell_self_contained : Prop :=
  forall c, In c cells -> self_contained c = true.

Local Close Scope string_scope.

(** The sequence of the specification: [n] integers from [start] on. *)
Fixpoint integers_from (start : Z) (n : nat) : list Z :=
  match n with
  | O => []
  | S n' => start :: integers_from (start + 1) n'
  end.

(** [start], [start + 1], ..., [end_ - 1]; empty when [start >= end_]. *)
Definition from_start_to_end (start end_ : Z) : list Z :=
  integers_from start (Z.to_nat (end_ - start)).

End Notebook.

(** ** The weather service with several clients: what the statements
    about queues and output speak of *)

Module Traffic.
Import Net Weather.

(** A connection both ends have closed, with nothing left in flight. *)
Definition finished (k : connection) : Prop :=
  client_closed k = true /\ server_closed k = true
  /\ to_server k = [] /\ to_client k = [].

(** The lines thread [t] printed, in order. *)
Definition printed_by (t : nat) (l : list (nat * event)) : list str :=
  flat_map (fun te => match snd te with
                      | EvPrint line =>
                          if Nat.eqb (fst te) t then [line] else []
                      | _ => []
                      end) l.

(** The line [test_client] prints for the response it read. *)
Definition received (city response : str) : str :=
  py "Received weather for " ++ city ++ py ": " ++ response.

(** Connection [c] of [w] is open on the side of the server and carries
    a request whose first 1024 bytes are JSON with a member [city]. *)
Definition answerable (w : world) (c : nat) : Prop :=
  exists k city,
    nth_error (conns w) c = Some k /\ server_closed k = false
    /\ to_server k <> []
    /\ city_of (firstn 1024 (to_server k)) = Ok city.

(** What thread [t] does for connection [c] in one turn of the loop of
    [run_weather_server], the connection being as it is in [w]. *)
Definition turn (float_repr : str -> str) (t : nat) (w : world) (c : nat)
  : list (nat * event) :=
  match nth_error (conns w) c with
  | Some k =>
      match city_of (firstn 1024 (to_server k)) with
      | Ok city =>
          [(t, EvAccept c);
           (t, EvPrint (py "Accepted connection from " ++ repr_address (peer k)));
           (t, EvRecv (c, Server) (firstn 1024 (to_server k)));
           (t, EvSleep 2);
           (t, EvSend (c, Server) (Json.dumps float_repr (weather city)));
           (t, EvClose (c, Server))]
      | Raise _ => []
      end
  | None => []
  end.

(** The connection [c] once [turn] has been taken for it. *)
Definition after_turn (float_repr : str -> str) (w : world) (c : nat)
  : option connection :=
  match nth_error (conns w) c with
  | Some k =>
      match city_of (firstn 1024 (to_server k)) with
      | Ok city => Some (answered 1024 (Json.dumps float_repr (weather city)) k)
      | Raise _ => Some k
      end
  | None => None
  end.

(** The connection of a client that has read the first 1024 bytes of
    [reply] and closed its socket. *)
Definition hung_up (c : nat) (reply : bytes) : connection :=
  {| peer := ephemeral c; to_server := []; to_client := skipn 1024 reply;
     client_closed := true; server_closed := true |}.

(** The world after [test_client city] has run against the server parked
    in thread [t], whatever the length of the reply: the client has read
    its first 1024 bytes. *)
Definition cut_short (t : nat) (city : str) (req reply : bytes) (w : world)
  : world :=
  let c := List.length (conns w) in
  {| clock := clock w + 2;
     conns := conns w ++ [hung_up c reply];
     bound := bound w; listening := listening w;
     backlog := []; acceptor := Some t;
     cur := cur w; threads := threads w;
     log := log (replied t req reply w)
            ++ [(cur w, EvRecv (c, Client) (firstn 1024 reply));
                (cur w, EvPrint (received city (firstn 1024 reply)));
                (cur w, EvClose (c, Client))] |}.

(** No socket listens on [localhost_8000]. *)
Definition nobody_listens (w : world) : Prop :=
  forall b, bound w = Some b ->
            listening w && address_eqb localhost_8000 b = false.

(** A city name of a thousand letters, for the examples. *)
Definition long_name : str := repeat 97 1000.

End Traffic.

(** ** asyncio: coroutines, futures, tasks and the event loop

    The notebook runs its coroutines on the event loop of asyncio.  The
    loop is modelled as the library has it: futures with their
    callbacks, tasks that step their coroutine, the queue of ready
    handles, the timers, and one iteration of the loop after the other.
    Time is virtual and counted in milliseconds: running code takes no
    time, and the clock moves only when the loop waits for a timer. *)

Module Asyncio.

(** The exceptions of the notebook: those of the first part, and those
    of asyncio and of attribute access. *)
Inductive error :=
| Exn (e : exn)
| CancelledError
| TimeoutError
| InvalidStateError
| RuntimeError
| AttributeError (type_name attr : str).

(** [isinstance(e, Exception)]: [CancelledError] derives from
    [BaseException] only. *)
Definition is_exception (e : error) : bool :=
  match e with
  | CancelledError => false
  | _ => true
  end.

Inductive answer (A : Type) :=
| Value (a : A)
| Error (e : error).
Arguments Value {A} a.
Arguments Error {A} e.

(** The values the coroutines of the notebook return and print. *)
#[warnings="-register-all"]
Inductive value :=
| NoneV
| BoolV (b : bool)
| IntV (z : Z)
| StrV (s : str)
| ListV (l : list value)
| DictV (d : list (str * value))
| ExcV (e : error).

(** *** [repr] and [str] *)

Definition type_name_of (e : error) : str :=
  match e with
  | Exn UnicodeDecodeError => py "UnicodeDecodeError"
  | Exn UnicodeEncodeError => py "UnicodeEncodeError"
  | Exn JSONDecodeError => py "JSONDecodeError"
  | Exn RecursionError => py "RecursionError"
  | Exn (KeyError _) => py "KeyError"
  | Exn TypeError => py "TypeError"
  | Exn (ValueError _) => py "ValueError"
  | Exn OSError => py "OSError"
  | Exn ConnectionRefusedError => py "ConnectionRefusedError"
  | Exn StopAsyncIteration => py "StopAsyncIteration"
  | CancelledError => py "CancelledError"
  | TimeoutError => py "TimeoutError"
  | InvalidStateError => py "InvalidStateError"
  | RuntimeError => py "RuntimeError"
  | AttributeError _ _ => py "AttributeError"
  end.

(** The one argument an exception of the notebook was built with. *)
Definition argument (e : error) : option str :=
  match e with
  | Exn (ValueError msg) => Some msg
  | Exn (KeyError k) => Some k
  | AttributeError ty attr =>
      Some (39 :: ty ++ py "' object has no attribute '" ++ attr ++ [39])
  | _ => None
  end.

(** [str(e)]. *)
Definition message (e : error) : str :=
  match e with
  | Exn (KeyError k) => repr_str k
  | _ => match argument e with Some msg => msg | None => [] end
  end.

Definition repr_error (e : error) : str :=
  type_name_of e ++ py "("
  ++ match argument e with Some msg => repr_str msg | None => [] end
  ++ py ")".

Fixpoint repr (v : value) : str :=
  match v with
  | NoneV => py "None"
  | BoolV true => py "True"
  | BoolV false => py "False"
  | IntV z => Json.int_repr z
  | StrV s => repr_str s
  | ListV l => py "[" ++ Json.join (py ", ") (map repr l) ++ py "]"
  | DictV d =>
      py "{"
      ++ Json.join (py ", ")
           (map (fun kv => repr_str (fst kv) ++ py ": " ++ repr (snd kv)) d)
      ++ py "}"
  | ExcV e => repr_error e
  end.

(** [str(v)], which an f-string applies to the values it formats. *)
Definition str_of (v : value) : str :=
  match v with
  | StrV s => s
  | ExcV e => message e
  | _ => repr v
  end.

(** The truth value of [v], which [not] and [if] test: [None], [False],
    zero and what is empty are false, every other value is true. *)
Definition truth (v : value) : bool :=
  match v with
  | NoneV => false
  | BoolV b => b
  | IntV z => negb (z =? 0)%Z
  | StrV s => match s with [] => false | _ :: _ => true end
  | ListV l => match l with [] => false | _ :: _ => true end
  | DictV d => match d with [] => false | _ :: _ => true end
  | ExcV _ => true
  end.

(** *** Coroutines

    A future or a task is named by its place in the table of the loop,
    a timer by its place in the table of the timers. *)
Definition fut := nat.
Definition timer := nat.

(** What a timer calls: [futures._set_result_unless_cancelled(f, v)] for
    [sleep], [_release_waiter(w)] for [wait_for]. *)
Inductive timer_action :=
| SetResultUnlessCancelled (f : fut) (v : value)
| ReleaseWaiter (w : fut).

(** The callbacks of a future: [Task.__wakeup] of a task that awaits
    it, [functools.partial(_release_waiter, w)], the [_done_callback]
    of a [gather], and [_run_until_complete_cb]. *)
Inductive callback :=
| Wakeup (t : fut)
| Release (w : fut)
| GatherDone (outer : fut)
| StopLoop.

Definition callback_eqb (a b : callback) : bool :=
  match a, b with
  | Wakeup x, Wakeup y => Nat.eqb x y
  | Release x, Release y => Nat.eqb x y
  | GatherDone x, GatherDone y => Nat.eqb x y
  | StopLoop, StopLoop => true
  | _, _ => false
  end.

(** A coroutine, as the tree of what it asks of the loop until it
    returns or raises.  [Sleep] is [await asyncio.sleep(delay)] and
    [YieldFuture] the [yield] of [Future.__await__]: there the task is
    suspended, and it is resumed with the exception thrown into it, if
    any.  The other nodes are calls that return at once. *)
Inductive coro (A : Type) : Type :=
| Return (a : A)
| Throw (e : error)
| Print (line : str) (k : coro A)
| Time (k : Z -> coro A)
| Sleep (delay : Z) (k : option error -> coro A)
| CreateTask (c : coro value) (k : fut -> coro A)
| CreateFuture (k : fut -> coro A)
| SetResult (f : fut) (v : value) (k : option error -> coro A)
| CreateGather (return_exceptions : bool) (k : fut -> coro A)
| AddChild (outer child : fut) (k : coro A)
| CallLater (delay : Z) (a : timer_action) (k : timer -> coro A)
| CancelTimer (h : timer) (k : coro A)
| AddDoneCallback (f : fut) (cb : callback) (k : coro A)
| RemoveDoneCallback (f : fut) (cb : callback) (k : coro A)
| Cancel (f : fut) (k : bool -> coro A)
| IsDone (f : fut) (k : bool -> coro A)
| GetResult (f : fut) (k : answer value -> coro A)
| YieldFuture (f : fut) (k : option error -> coro A).
Arguments Return {A} a.
Arguments Throw {A} e.
Arguments Print {A} line k.
Arguments Time {A} k.
Arguments Sleep {A} delay k.
Arguments CreateTask {A} c k.
Arguments CreateFuture {A} k.
Arguments SetResult {A} f v k.
Arguments CreateGather {A} return_exceptions k.
Arguments AddChild {A} outer child k.
Arguments CallLater {A} delay a k.
Arguments CancelTimer {A} h k.
Arguments AddDoneCallback {A} f cb k.
Arguments RemoveDoneCallback {A} f cb k.
Arguments Cancel {A} f k.
Arguments IsDone {A} f k.
Arguments GetResult {A} f k.
Arguments YieldFuture {A} f k.

Fixpoint bind {A B} (c : coro A) (f : A -> coro B) : coro B :=
  match c with
  | Return a => f a
  | Throw e => Throw e
  | Print line k => Print line (bind k f)
  | Time k => Time (fun t => bind (k t) f)
  | Sleep d k => Sleep d (fun r => bind (k r) f)
  | CreateTask c0 k => CreateTask c0 (fun t => bind (k t) f)
  | CreateFuture k => CreateFuture (fun x => bind (k x) f)
  | SetResult x v k => SetResult x v (fun r => bind (k r) f)
  | CreateGather re k => CreateGather re (fun x => bind (k x) f)
  | AddChild o c0 k => AddChild o c0 (bind k f)
  | CallLater d a k => CallLater d a (fun h => bind (k h) f)
  | CancelTimer h k => CancelTimer h (bind k f)
  | AddDoneCallback x cb k => AddDoneCallback x cb (bind k f)
  | RemoveDoneCallback x cb k => RemoveDoneCallback x cb (bind k f)
  | Cancel x k => Cancel x (fun b => bind (k b) f)
  | IsDone x k => IsDone x (fun b => bind (k b) f)
  | GetResult x k => GetResult x (fun r => bind (k r) f)
  | YieldFuture x k => YieldFuture x (fun r => bind (k r) f)
  end.

(** The coroutine with its exception, if it raises, turned into a
    value: the frame of a [try]. *)
Fixpoint attempt {A} (c : coro A) : coro (answer A) :=
  match c with
  | Return a => Return (Value a)
  | Throw e => Return (Error e)
  | Print line k => Print line (attempt k)
  | Time k => Time (fun t => attempt (k t))
  | Sleep d k => Sleep d (fun r => attempt (k r))
  | CreateTask c0 k => CreateTask c0 (fun t => attempt (k t))
  | CreateFuture k => CreateFuture (fun x => attempt (k x))
  | SetResult x v k => SetResult x v (fun r => attempt (k r))
  | CreateGather re k => CreateGather re (fun x => attempt (k x))
  | AddChild o c0 k => AddChild o c0 (attempt k)
  | CallLater d a k => CallLater d a (fun h => attempt (k h))
  | CancelTimer h k => CancelTimer h (attempt k)
  | AddDoneCallback x cb k => AddDoneCallback x cb (attempt k)
  | RemoveDoneCallback x cb k => RemoveDoneCallback x cb (attempt k)
  | Cancel x k => Cancel x (fun b => attempt (k b))
  | IsDone x k => IsDone x (fun b => attempt (k b))
  | GetResult x k => GetResult x (fun r => attempt (k r))
  | YieldFuture x k => YieldFuture x (fun r => attempt (k r))
  end.

Definition settle {A} (r : answer A) : coro A :=
  match r with
  | Value a => Return a
  | Error e => Throw e
  end.

(** [try: c except BaseException as e: h e]; a handler for some
    exceptions only raises the others again. *)
Definition try_except {A} (c : coro A) (h : error -> coro A) : coro A :=
  bind (attempt c) (fun r =>
    match r with
    | Value a => Return a
    | Error e => h e
    end).

(** [try: c finally: f]. *)
Definition try_finally {A} (c : coro A) (f : coro unit) : coro A :=
  bind (attempt c) (fun r => bind f (fun _ => settle r)).

(** [print(line)] in a cell: there [sys.stdout] is the stream of the
    kernel of the notebook, which keeps the text as it is and encodes
    nothing when it is written to. *)
Definition print (line : str) : coro unit := Print line (Return tt).
Definition time : coro Z := Time (fun t => Return t).

(** [await asyncio.sleep(ms / 1000)]. *)
Definition sleep (ms : Z) : coro unit :=
  Sleep ms (fun exc =>
    match exc with
    | Some e => Throw e
    | None => Return tt
    end).

(** [fut.result()]. *)
Definition result (f : fut) : coro value := GetResult f settle.

(** [await f] for a future or a task: [Future.__await__]. *)
Definition await (f : fut) : coro value :=
  IsDone f (fun d =>
    if d then result f
    else
      YieldFuture f (fun exc =>
        match exc with
        | Some e => Throw e
        | None =>
            IsDone f (fun d' => if d' then result f else Throw RuntimeError)
        end)).

(** [asyncio.create_task(c)], also [loop.create_task(c)]. *)
Definition create_task (c : coro value) : coro fut := CreateTask c Return.

(** What [gather] and [wait_for] take: a coroutine or a future. *)
Inductive awaitable :=
| Coroutine (c : coro value)
| Future (f : fut).

Definition ensure_future (a : awaitable) : coro fut :=
  match a with
  | Coroutine c => create_task c
  | Future f => Return f
  end.

Fixpoint add_children {A} (outer : fut) (aws : list awaitable) (k : coro A)
  : coro A :=
  match aws with
  | [] => k
  | a :: rest =>
      bind (ensure_future a) (fun f =>
        AddChild outer f (add_children outer rest k))
  end.

(** [asyncio.gather] of the awaitables [aws]: the future of the list of
    their results. *)
Definition gather (aws : list awaitable) (return_exceptions : bool)
  : coro fut :=
  match aws with
  | [] =>
      CreateFuture (fun outer =>
        SetResult outer (ListV []) (fun exc =>
          match exc with
          | Some e => Throw e
          | None => Return outer
          end))
  | _ :: _ =>
      CreateGather return_exceptions (fun outer =>
        add_children outer aws (Return outer))
  end.

(** [_cancel_and_wait(fut)]. *)
Definition cancel_and_wait (f : fut) : coro unit :=
  CreateFuture (fun waiter =>
    AddDoneCallback f (Release waiter)
      (try_finally
         (Cancel f (fun _ => bind (await waiter) (fun _ => Return tt)))
         (RemoveDoneCallback f (Release waiter) (Return tt)))).

(** The end of [wait_for] once the time is out: the future is cancelled
    and waited for, and [TimeoutError] replaces its [CancelledError]. *)
Definition timed_out (f : fut) : coro value :=
  bind (cancel_and_wait f) (fun _ =>
    try_except (result f) (fun e =>
      match e with
      | CancelledError => Throw TimeoutError
      | _ => Throw e
      end)).

(** [asyncio.wait_for(fut, timeout=ms / 1000)]. *)
Definition wait_for (a : awaitable) (timeout : option Z) : coro value :=
  match timeout with
  | None =>
      match a with
      | Coroutine c => c
      | Future f => await f
      end
  | Some ms =>
      if (ms <=? 0)%Z then
        bind (ensure_future a) (fun f =>
          IsDone f (fun d => if d then result f else timed_out f))
      else
        CreateFuture (fun waiter =>
          CallLater ms (ReleaseWaiter waiter) (fun timeout_handle =>
            bind (ensure_future a) (fun f =>
              AddDoneCallback f (Release waiter)
                (try_finally
                   (bind (attempt (await waiter)) (fun r =>
                      match r with
                      | Error CancelledError =>
                          IsDone f (fun d =>
                            if d then result f
                            else
                              RemoveDoneCallback f (Release waiter)
                                (bind (cancel_and_wait f) (fun _ =>
                                   Throw CancelledError)))
                      | Error e => Throw e
                      | Value _ =>
                          IsDone f (fun d =>
                            if d then result f
                            else
                              RemoveDoneCallback f (Release waiter)
                                (timed_out f))
                      end))
                   (CancelTimer timeout_handle (Return tt))))))
  end.

(** *** The event loop *)

Inductive fstate :=
| Pending
| Cancelled
| Finished (r : answer value).

(** A plain future, a task with the frame of its suspended coroutine,
    or the future [gather] returns. *)
Inductive kind :=
| Plain
| Task (frame : option error -> coro value) (must_cancel : bool)
       (fut_waiter : option fut)
| Gathering (children : list fut) (nfuts nfinished : nat)
            (return_exceptions cancel_requested : bool).

Record future := {
  state : fstate;
  callbacks : list callback;
  kind_of : kind }.

(** What the loop calls: [Task.__step], a callback of a future that is
    done, or the callback of a timer. *)
Inductive handle :=
| Step (t : fut) (exc : option error)
| Call (cb : callback) (arg : fut)
| Fire (h : timer).

Record timer_handle := {
  when : Z;
  action : timer_action;
  cancelled : bool }.

(** [now] is the clock, in milliseconds; [ready] the queue of
    [call_soon], oldest first; [scheduled] the timers not yet due, by
    time and, for the same time, in the order of their creation;
    [output] the lines printed, each with the time it was printed at;
    [faults] the exceptions raised in callbacks, which the loop only
    logs. *)
Record loop := {
  now : Z;
  futures : list future;
  ready : list handle;
  timers : list timer_handle;
  scheduled : list (Z * timer);
  stopping : bool;
  output : list (Z * str);
  faults : list error }.

Definition set_now (t : Z) (l : loop) : loop :=
  {| now := t; futures := futures l; ready := ready l; timers := timers l;
     scheduled := scheduled l; stopping := stopping l; output := output l;
     faults := faults l |}.
Definition set_futures (fs : list future) (l : loop) : loop :=
  {| now := now l; futures := fs; ready := ready l; timers := timers l;
     scheduled := scheduled l; stopping := stopping l; output := output l;
     faults := faults l |}.
Definition set_ready (q : list handle) (l : loop) : loop :=
  {| now := now l; futures := futures l; ready := q; timers := timers l;
     scheduled := scheduled l; stopping := stopping l; output := output l;
     faults := faults l |}.
Definition set_timers (ts : list timer_handle) (l : loop) : loop :=
  {| now := now l; futures := futures l; ready := ready l; timers := ts;
     scheduled := scheduled l; stopping := stopping l; output := output l;
     faults := faults l |}.
Definition set_scheduled (q : list (Z * timer)) (l : loop) : loop :=
  {| now := now l; futures := futures l; ready := ready l; timers := timers l;
     scheduled := q; stopping := stopping l; output := output l;
     faults := faults l |}.
Definition set_stopping (b : bool) (l : loop) : loop :=
  {| now := now l; futures := futures l; ready := ready l; timers := timers l;
     scheduled := scheduled l; stopping := b; output := output l;
     faults := faults l |}.
Definition set_output (o : list (Z * str)) (l : loop) : loop :=
  {| now := now l; futures := futures l; ready := ready l; timers := timers l;
     scheduled := scheduled l; stopping := stopping l; output := o;
     faults := faults l |}.
Definition fault (e : error) (l : loop) : loop :=
  {| now := now l; futures := futures l; ready := ready l; timers := timers l;
     scheduled := scheduled l; stopping := stopping l; output := output l;
     faults := faults l ++ [e] |}.

Definition pending_future : future :=
  {| state := Pending; callbacks := []; kind_of := Plain |}.

Definition get (f : fut) (l : loop) : future := nth f (futures l) pending_future.

Definition put (f : fut) (x : future) (l : loop) : loop :=
  set_futures (Net.update (futures l) f x) l.

Definition set_kind (f : fut) (k : kind) (l : loop) : loop :=
  put f {| state := state (get f l); callbacks := callbacks (get f l);
           kind_of := k |} l.

(** [f.done()], [f.cancelled()], and [f.result()] with what it raises. *)
Definition is_done (f : fut) (l : loop) : bool :=
  match state (get f l) with
  | Pending => false
  | _ => true
  end.
Definition is_cancelled (f : fut) (l : loop) : bool :=
  match state (get f l) with
  | Cancelled => true
  | _ => false
  end.
Definition result_of (f : fut) (l : loop) : answer value :=
  match state (get f l) with
  | Finished r => r
  | Cancelled => Error CancelledError
  | Pending => Error InvalidStateError
  end.

Definition call_soon (h : handle) (l : loop) : loop :=
  set_ready (ready l ++ [h]) l.

Definition new_future (k : kind) (l : loop) : fut * loop :=
  (List.length (futures l),
   set_futures (futures l ++ [{| state := Pending; callbacks := [];
                                 kind_of := k |}]) l).

(** The future [f] leaves the pending state: its callbacks are handed
    to [call_soon], in the order they were added. *)
Definition complete (f : fut) (s : fstate) (l : loop) : loop :=
  set_ready (ready l ++ map (fun cb => Call cb f) (callbacks (get f l)))
    (put f {| state := s; callbacks := []; kind_of := kind_of (get f l) |} l).

Definition add_done_callback (f : fut) (cb : callback) (l : loop) : loop :=
  if is_done f l then call_soon (Call cb f) l
  else put f {| state := state (get f l);
                callbacks := callbacks (get f l) ++ [cb];
                kind_of := kind_of (get f l) |} l.

Definition remove_done_callback (f : fut) (cb : callback) (l : loop) : loop :=
  put f {| state := state (get f l);
           callbacks := filter (fun c => negb (callback_eqb c cb))
                          (callbacks (get f l));
           kind_of := kind_of (get f l) |} l.

Fixpoint insert_timer (w : Z) (h : timer) (q : list (Z * timer))
  : list (Z * timer) :=
  match q with
  | [] => [(w, h)]
  | (w', h') :: q' =>
      if (w' <=? w)%Z then (w', h') :: insert_timer w h q'
      else (w, h) :: q
  end.

(** [loop.call_later(ms / 1000, ...)]. *)
Definition call_later (ms : Z) (a : timer_action) (l : loop) : timer * loop :=
  let h := List.length (timers l) in
  (h,
   set_scheduled (insert_timer (now l + ms)%Z h (scheduled l))
     (set_timers (timers l ++ [{| when := (now l + ms)%Z; action := a;
                                  cancelled := false |}]) l)).

(** [h.cancel()]. *)
Definition cancel_timer (h : timer) (l : loop) : loop :=
  match nth_error (timers l) h with
  | Some th =>
      set_timers (Net.update (timers l) h
                    {| when := when th; action := action th;
                       cancelled := true |}) l
  | None => l
  end.

Definition timer_cancelled (h : timer) (l : loop) : bool :=
  match nth_error (timers l) h with
  | Some th => cancelled th
  | None => true
  end.

(** [f.cancel()]: [Future.cancel] for a plain future, [Task.cancel] for
    a task, which cancels the future it waits for or, failing that,
    notes that it must be cancelled at its next step, and the [cancel]
    of the future of [gather], which cancels the children.  The depth
    of the calls is bounded by [fuel]. *)
Fixpoint cancel (fuel : nat) (f : fut) (l : loop) : bool * loop :=
  match fuel with
  | O => (false, fault (Exn RecursionError) l)
  | S n =>
      match state (get f l) with
      | Pending =>
          match kind_of (get f l) with
          | Plain => (true, complete f Cancelled l)
          | Task frame mc fw =>
              match fw with
              | Some w =>
                  let (b, l') := cancel n w l in
                  if b then (true, l')
                  else (true, set_kind f (Task frame true fw) l')
              | None => (true, set_kind f (Task frame true None) l)
              end
          | Gathering children nfuts nfin re cr =>
              let (ret, l') :=
                fold_left (fun (acc : bool * loop) child =>
                             let (b, l1) := cancel n child (snd acc) in
                             (fst acc || b, l1))
                  children (false, l) in
              if ret
              then (true, set_kind f (Gathering children nfuts nfin re true) l')
              else (false, l')
          end
      | _ => (false, l)
      end
  end.

(** The coroutine of task [t] has returned or raised. *)
Definition finish (t : fut) (r : answer value) (l : loop) : loop :=
  match r with
  | Value v =>
      match kind_of (get t l) with
      | Task frame true fw =>
          complete t Cancelled (set_kind t (Task frame false fw) l)
      | _ => complete t (Finished (Value v)) l
      end
  | Error CancelledError => complete t Cancelled l
  | Error e => complete t (Finished (Error e)) l
  end.

(** Task [t] has yielded the future [f]: it waits for it, with the rest
    of its coroutine as its frame. *)
Definition block (t f : fut) (k : option error -> coro value) (l : loop)
  : loop :=
  match kind_of (get t l) with
  | Task _ mc _ =>
      if Nat.eqb f t then
        call_soon (Step t (Some RuntimeError)) (set_kind t (Task k mc None) l)
      else
        let l1 := add_done_callback f (Wakeup t) l in
        let l2 := set_kind t (Task k mc (Some f)) l1 in
        if mc then
          let (b, l3) := cancel (S (List.length (futures l2))) f l2 in
          if b then set_kind t (Task k false (Some f)) l3 else l3
        else l2
  | _ => l
  end.

(** A child joins the future of [gather]. *)
Definition add_child (outer child : fut) (l : loop) : loop :=
  match kind_of (get outer l) with
  | Gathering children nfuts nfin re cr =>
      if existsb (Nat.eqb child) children then
        set_kind outer (Gathering (children ++ [child]) nfuts nfin re cr) l
      else
        add_done_callback child (GatherDone outer)
          (set_kind outer
             (Gathering (children ++ [child]) (S nfuts) nfin re cr) l)
  | _ => l
  end.

(** The frame of a coroutine that has not started. *)
Definition start (c : coro value) : option error -> coro value :=
  fun exc =>
    match exc with
    | None => c
    | Some e => Throw e
    end.

(** Task [t] runs its coroutine [c] up to the next point where it is
    suspended, or to its end. *)
Fixpoint exec (t : fut) (c : coro value) (l : loop) : loop :=
  match c with
  | Return v => finish t (Value v) l
  | Throw e => finish t (Error e) l
  | Print line k => exec t k (set_output (output l ++ [(now l, line)]) l)
  | Time k => exec t (k (now l)) l
  | Sleep d k =>
      if (d <=? 0)%Z then
        match kind_of (get t l) with
        | Task _ mc _ => call_soon (Step t None) (set_kind t (Task k mc None) l)
        | _ => l
        end
      else
        let (f, l1) := new_future Plain l in
        let (h, l2) := call_later d (SetResultUnlessCancelled f NoneV) l1 in
        block t f (fun exc => CancelTimer h (k exc)) l2
  | CreateTask c0 k =>
      let (f, l1) := new_future (Task (start c0) false None) l in
      exec t (k f) (call_soon (Step f None) l1)
  | CreateFuture k =>
      let (f, l1) := new_future Plain l in exec t (k f) l1
  | SetResult f v k =>
      if is_done f l then exec t (k (Some InvalidStateError)) l
      else exec t (k None) (complete f (Finished (Value v)) l)
  | CreateGather re k =>
      let (f, l1) := new_future (Gathering [] 0 0 re false) l in
      exec t (k f) l1
  | AddChild outer child k => exec t k (add_child outer child l)
  | CallLater d a k =>
      let (h, l1) := call_later d a l in exec t (k h) l1
  | CancelTimer h k => exec t k (cancel_timer h l)
  | AddDoneCallback f cb k => exec t k (add_done_callback f cb l)
  | RemoveDoneCallback f cb k => exec t k (remove_done_callback f cb l)
  | Cancel f k =>
      let (b, l1) := cancel (S (List.length (futures l))) f l in
      exec t (k b) l1
  | IsDone f k => exec t (k (is_done f l)) l
  | GetResult f k => exec t (k (result_of f l)) l
  | YieldFuture f k => block t f k l
  end.

(** [Task.__step(exc)]. *)
Definition step (t : fut) (exc : option error) (l : loop) : loop :=
  match kind_of (get t l), state (get t l) with
  | Task frame mc fw, Pending =>
      let exc' := if mc then
                    match exc with
                    | Some CancelledError => exc
                    | _ => Some CancelledError
                    end
                  else exc in
      exec t (frame exc') (set_kind t (Task frame false None) l)
  | Task _ _ _, _ => fault InvalidStateError l
  | _, _ => l
  end.

(** The [_done_callback] of [gather], called with the child [f]. *)
Definition gather_done (outer f : fut) (l : loop) : loop :=
  match kind_of (get outer l) with
  | Gathering children nfuts nfin re cr =>
      let l1 := set_kind outer (Gathering children nfuts (S nfin) re cr) l in
      if is_done outer l then l1
      else
        match re, result_of f l with
        | false, Error e => complete outer (Finished (Error e)) l1
        | _, _ =>
            if Nat.eqb (S nfin) nfuts then
              if cr then complete outer (Finished (Error CancelledError)) l1
              else
                complete outer
                  (Finished
                     (Value
                        (ListV
                           (map (fun c =>
                                   match result_of c l with
                                   | Value v => v
                                   | Error e => ExcV e
                                   end) children)))) l1
            else l1
        end
  | _ => l
  end.

(** One handle of the queue is run. *)
Definition run_handle (h : handle) (l : loop) : loop :=
  match h with
  | Step t exc => step t exc l
  | Call (Wakeup t) f =>
      match result_of f l with
      | Value _ => step t None l
      | Error e => step t (Some e) l
      end
  | Call (Release w) _ =>
      if is_done w l then l else complete w (Finished (Value NoneV)) l
  | Call (GatherDone outer) f => gather_done outer f l
  | Call StopLoop _ => set_stopping true l
  | Fire h =>
      match nth_error (timers l) h with
      | Some th =>
          if cancelled th then l
          else
            match action th with
            | SetResultUnlessCancelled f v =>
                match state (get f l) with
                | Pending => complete f (Finished (Value v)) l
                | Cancelled => l
                | Finished _ => fault InvalidStateError l
                end
            | ReleaseWaiter w =>
                if is_done w l then l
                else complete w (Finished (Value NoneV)) l
            end
      | None => l
      end
  end.

(** The timers that are not cancelled. *)
Definition live (l : loop) : list (Z * timer) :=
  filter (fun wh => negb (timer_cancelled (snd wh) l)) (scheduled l).

Fixpoint due (t : Z) (q : list (Z * timer)) : list (Z * timer) :=
  match q with
  | [] => []
  | (w, h) :: q' => if (w <=? t)%Z then (w, h) :: due t q' else []
  end.

Fixpoint later (t : Z) (q : list (Z * timer)) : list (Z * timer) :=
  match q with
  | [] => []
  | (w, h) :: q' => if (w <=? t)%Z then later t q' else q
  end.

(** With nothing ready the loop waits for the first timer. *)
Definition wait (l : loop) : loop :=
  match ready l, live l with
  | [], (w, _) :: _ => set_now (Z.max (now l) w) l
  | _, _ => l
  end.

(** [_run_once]: the loop waits if nothing is ready, the timers that
    are due join the queue, and the handles that are in the queue at
    that point are run; those they add wait for the next iteration. *)
Definition run_once (l : loop) : loop :=
  let l1 := wait l in
  let q := live l1 in
  fold_left (fun l' h => run_handle h l')
    (ready l1 ++ map (fun wh => Fire (snd wh)) (due (now l1) q))
    (set_ready [] (set_scheduled (later (now l1) q) l1)).

(** How a run of the loop ends: it is stopped, or nothing is ready and
    no timer is left, so that it waits for ever, or the bound on the
    iterations of the model is reached. *)
Inductive run :=
| Stopped (l : loop)
| Hung (l : loop)
| Unfinished (l : loop).

(** [run_forever], for at most [fuel] iterations. *)
Fixpoint run_forever (fuel : nat) (l : loop) : run :=
  match fuel with
  | O => Unfinished l
  | S n =>
      match ready l, live l with
      | [], [] => Hung l
      | _, _ =>
          let l' := run_once l in
          if stopping l' then Stopped l' else run_forever n l'
      end
  end.

(** The loop as [run_until_complete(c)] finds it: [c] is the coroutine
    of task 0, whose first step is scheduled. *)
Definition fresh (c : coro value) : loop :=
  {| now := 0;
     futures := [{| state := Pending; callbacks := [StopLoop];
                    kind_of := Task (start c) false None |}];
     ready := [Step 0%nat None];
     timers := []; scheduled := []; stopping := false;
     output := []; faults := [] |}.

(** [loop.run_until_complete(c)], which a cell of the notebook does for
    the coroutine it awaits at its top level. *)
Definition run_until_complete (c : coro value) (fuel : nat) : run :=
  run_forever fuel (fresh c).

(** What is seen of a run that has stopped: what task 0 returned or
    raised, the time, the lines printed and the exceptions logged; and
    the states of some futures. *)
Definition outcome_of (r : run)
  : option (answer value * Z * list (Z * str) * list error) :=
  match r with
  | Stopped l => Some (result_of 0%nat l, now l, output l, faults l)
  | _ => None
  end.

Definition states_of (fs : list fut) (r : run) : list fstate :=
  match r with
  | Stopped l => map (fun f => state (get f l)) fs
  | _ => []
  end.

(** *** A coroutine that runs alone

    What a coroutine that only prints, sleeps and reads the clock does
    from time [t] on: what it returns or raises, the time at its end,
    and the lines it printed after [out]. *)
Fixpoint alone {A} (c : coro A) (t : Z) (out : list (Z * str))
  : option (answer A * Z * list (Z * str)) :=
  match c with
  | Return a => Some (Value a, t, out)
  | Throw e => Some (Error e, t, out)
  | Print line k => alone k t (out ++ [(t, line)])
  | Time k => alone (k t) t out
  | Sleep d k => alone (k None) (t + Z.max 0 d)%Z out
  | _ => None
  end.

(** *** The loop while one task runs alone

    Task 0, the task of [run_until_complete], while it is pending. *)
Definition task0 (frame : option error -> coro value) (fw : option fut)
  : future :=
  {| state := Pending; callbacks := [StopLoop];
     kind_of := Task frame false fw |}.

(** The loop while task 0 runs and nothing else is going on. *)
Definition quiet (l : loop) : Prop :=
  ready l = [] /\ scheduled l = [] /\ stopping l = false
  /\ exists frame fw rest, futures l = task0 frame fw :: rest.

(** The rest of [run_forever] after an iteration. *)
Definition after (n : nat) (l : loop) : run :=
  if stopping l then Stopped l else run_forever n l.

(** The handles [hs] are run in turn. *)
Definition handles (hs : list handle) (l : loop) : loop :=
  fold_left (fun l' h => run_handle h l') hs l.

(** Task 0 runs alone. *)
Definition running (t : Z) (frame : option error -> coro value)
    (fw : option fut) (rest : list future) (ts : list timer_handle)
    (out : list (Z * str)) (flt : list error) : loop :=
  {| now := t; futures := task0 frame fw :: rest; ready := [];
     timers := ts; scheduled := []; stopping := false;
     output := out; faults := flt |}.

(** Task 0 sleeps for [d] milliseconds: it waits for a new future,
    which a new timer is to set; [k] is the rest of its coroutine. *)
Definition sleeping (t d : Z) (rest : list future) (ts : list timer_handle)
    (out : list (Z * str)) (flt : list error)
    (k : option error -> coro value) : loop :=
  {| now := t;
     futures := task0 (fun exc => CancelTimer (List.length ts) (k exc))
                  (Some (S (List.length rest)))
                :: rest ++ [{| state := Pending; callbacks := [Wakeup 0%nat];
                               kind_of := Plain |}];
     ready := [];
     timers := ts ++ [{| when := t + d;
                         action := SetResultUnlessCancelled
                                     (S (List.length rest)) NoneV;
                         cancelled := false |}];
     scheduled := [((t + d)%Z, List.length ts)];
     stopping := false; output := out; faults := flt |}.

(** The timer has set the future: the wakeup of task 0 is ready. *)
Definition woken (t d : Z) (rest : list future) (ts : list timer_handle)
    (out : list (Z * str)) (flt : list error)
    (k : option error -> coro value) : loop :=
  {| now := t + d;
     futures := task0 (fun exc => CancelTimer (List.length ts) (k exc))
                  (Some (S (List.length rest)))
                :: rest ++ [{| state := Finished (Value NoneV);
                               callbacks := []; kind_of := Plain |}];
     ready := [Call (Wakeup 0%nat) (S (List.length rest))];
     timers := ts ++ [{| when := t + d;
                         action := SetResultUnlessCancelled
                                     (S (List.length rest)) NoneV;
                         cancelled := false |}];
     scheduled := [];
     stopping := false; output := out; faults := flt |}.

(** Task 0 runs again, after the sleep. *)
Definition resumed (t d : Z) (rest : list future) (ts : list timer_handle)
    (out : list (Z * str)) (flt : list error)
    (k : option error -> coro value) : loop :=
  {| now := t + d;
     futures := task0 (fun exc => CancelTimer (List.length ts) (k exc)) None
                :: rest ++ [{| state := Finished (Value NoneV);
                               callbacks := []; kind_of := Plain |}];
     ready := [];
     timers := ts ++ [{| when := t + d;
                         action := SetResultUnlessCancelled
                                     (S (List.length rest)) NoneV;
                         cancelled := true |}];
     scheduled := [];
     stopping := false; output := out; faults := flt |}.

End Asyncio.

(** ** The cells of the notebook, as coroutines of asyncio *)

Module Cells.
Import Asyncio.

Notation "x <- m ;; k" := (bind m (fun x => k))
  (at level 61, m at next level, right associativity).
Notation "m ;; k" := (bind m (fun _ => k))
  (at level 61, right associativity).

(** A [for] loop over a list. *)
Fixpoint for_each {A} (l : list A) (body : A -> coro unit) : coro unit :=
  match l with
  | [] => Return tt
  | x :: l' => body x ;; for_each l' body
  end.

(** *** 1.1 Coroutines *)

Definition simple_coroutine : coro value :=
  print (py "Starting") ;;
  sleep 1000 ;;
  print (py "Finished") ;;
  Return NoneV.

(** *** 1.2 Understanding async/await *)

Definition fetch_data : coro value :=
  print (py "Fetching data...") ;;
  sleep 2000 ;;
  Return (DictV [(py "data", StrV (py "example"))]).

Definition process_data : coro value :=
  data <- fetch_data ;;
  print (py "Processing " ++ str_of data) ;;
  Return NoneV.

(** *** 1.3 Event Loop *)

Definition main : coro value :=
  task1 <- create_task fetch_data ;;
  task2 <- create_task fetch_data ;;
  outer <- gather [Future task1; Future task2] false ;;
  await outer ;;
  Return NoneV.

(** *** 2. Task Management; [seconds] is counted in milliseconds *)

Definition long_operation (name : str) (seconds : Z) : coro value :=
  print (py "Starting " ++ name) ;;
  sleep seconds ;;
  print (py "Finished " ++ name) ;;
  Return (StrV (name ++ py " completed")).

(** [task_demo], for the names and the durations it gives its two
    tasks. *)
Definition task_demo_with (name1 : str) (seconds1 : Z) (name2 : str)
    (seconds2 : Z) : coro value :=
  task1 <- create_task (long_operation name1 seconds1) ;;
  task2 <- create_task (long_operation name2 seconds2) ;;
  outer <- gather [Future task1; Future task2] false ;;
  results <- await outer ;;
  print (py "Results: " ++ str_of results) ;;
  Return NoneV.

Definition task_demo : coro value :=
  task_demo_with (py "Task 1") 2000 (py "Task 2") 1000.

(** *** 2.1 Common Task Operations

    [task_operations_demo], for the name and the duration it gives its
    task and for the [timeout] of its [wait_for], in milliseconds. *)
Definition task_operations_demo_with (name : str) (seconds timeout : Z)
  : coro value :=
  task <- create_task (long_operation name seconds) ;;
  done <- IsDone task Return ;;
  print (py "Task done? " ++ str_of (BoolV done)) ;;
  try_except
    (wait_for (Future task) (Some timeout) ;; Return NoneV)
    (fun e =>
       match e with
       | TimeoutError =>
           print (py "Task took too long, cancelling...") ;;
           Cancel task (fun _ =>
             try_except
               (await task ;; Return NoneV)
               (fun e' =>
                  match e' with
                  | CancelledError =>
                      print (py "Task was cancelled") ;; Return NoneV
                  | _ => Throw e'
                  end))
       | _ => Throw e
       end).

Definition task_operations_demo : coro value :=
  task_operations_demo_with (py "Demo Task") 3000 2000.

(** *** 3. Error Handling in Async Code; [if not succeed] tests the
    truth value of [succeed], whatever it is *)

Definition might_fail (succeed : value) : coro value :=
  sleep 1000 ;;
  if negb (truth succeed)
  then Throw (Exn (ValueError (py "Operation failed!")))
  else Return (StrV (py "Success!")).

(** The items of a list, each with its index: [enumerate]. *)
Definition enumerate {A} (l : list A) : list (Z * A) :=
  combine (map Z.of_nat (seq 0 (List.length l))) l.

Definition items_of (v : value) : list value :=
  match v with
  | ListV l => l
  | _ => []
  end.

(** [isinstance(v, Exception)]. *)
Definition is_exception_value (v : value) : bool :=
  match v with
  | ExcV e => is_exception e
  | _ => false
  end.

(** [error_handling_demo], for the [succeed] of its three calls of
    [might_fail], each [True] or [False]. *)
Definition error_handling_demo_with (succeed0 succeed1 succeed2 : bool)
  : coro value :=
  try_except
    (might_fail (BoolV succeed0) ;; Return tt)
    (fun e =>
       match e with
       | Exn (ValueError _) => print (py "Caught error: " ++ message e)
       | _ => Throw e
       end) ;;
  outer <- gather [Coroutine (might_fail (BoolV succeed1));
                   Coroutine (might_fail (BoolV succeed2))]
             true ;;
  results <- await outer ;;
  for_each (enumerate (items_of results)) (fun ir =>
    if is_exception_value (snd ir) then
      print (py "Task " ++ Json.int_repr (fst ir) ++ py " failed with: "
             ++ str_of (snd ir))
    else
      print (py "Task " ++ Json.int_repr (fst ir) ++ py " succeeded with: "
             ++ str_of (snd ir))) ;;
  Return NoneV.

Definition error_handling_demo : coro value :=
  error_handling_demo_with false true false.

(** *** 4. Async Context Managers

    [async with mgr as x: body]: [__aenter__] is awaited, then the
    body, then [__aexit__], with the exception of the body if it raised
    one; that exception is raised again unless [__aexit__] returns a
    true value.  [__aenter__] gives the manager as it has left it,
    with the value bound to [x]. *)
Definition async_with {M A} (mgr : M) (aenter : M -> coro (M * A))
    (aexit : M -> option error -> coro bool) (body : A -> coro unit)
  : coro unit :=
  entered <- aenter mgr ;;
  r <- attempt (body (snd entered)) ;;
  match r with
  | Value _ => aexit (fst entered) None ;; Return tt
  | Error e =>
      suppress <- aexit (fst entered) (Some e) ;;
      if suppress then Return tt else Throw e
  end.

(** An [AsyncResource] has no attribute of its own. *)
Inductive AsyncResource := new_AsyncResource.

Module Resource.
Definition aenter (self : AsyncResource)
  : coro (AsyncResource * AsyncResource) :=
  print (py "Acquiring resource") ;;
  sleep 1000 ;;
  Return (self, self).

(** [__aexit__] returns [None], which is not true. *)
Definition aexit (self : AsyncResource) (exc : option error) : coro bool :=
  print (py "Releasing resource") ;;
  sleep 500 ;;
  Return false.

Definition work (self : AsyncResource) : coro unit :=
  print (py "Using resource") ;;
  sleep 1000.
End Resource.

(** [async with AsyncResource() as resource: body]. *)
Definition with_resource (body : AsyncResource -> coro unit) : coro unit :=
  async_with new_AsyncResource Resource.aenter Resource.aexit body.

Definition context_manager_demo : coro value :=
  with_resource (fun resource => Resource.work resource) ;;
  print (py "Resource has been released") ;;
  Return NoneV.

(** *** 4.1 Real-world Example: Database Connection

    The names every object has, and the names the body of the class
    binds. *)
Definition object_names : list str :=
  map py ["__class__"; "__delattr__"; "__dict__"; "__dir__"; "__doc__";
          "__eq__"; "__format__"; "__ge__"; "__getattribute__"; "__gt__";
          "__hash__"; "__init__"; "__init_subclass__"; "__le__"; "__lt__";
          "__module__"; "__ne__"; "__new__"; "__reduce__"; "__reduce_ex__";
          "__repr__"; "__setattr__"; "__sizeof__"; "__str__";
          "__subclasshook__"; "__weakref__"]%string.

Definition has_name (x : str) (l : list str) : bool := existsb (str_eqb x) l.

(** An [AsyncDatabase]: [conn] is unset until [__aenter__] stores there
    what [connect] returned, which is the object itself. *)
Inductive reference := Itself.
Record AsyncDatabase := { conn : option reference }.

Definition new_AsyncDatabase : AsyncDatabase := {| conn := None |}.

Module Database.

Definition methods : list str :=
  map py ["__aenter__"; "__aexit__"; "connect"; "query"]%string.

(** What the lookup of an attribute finds: the attribute [conn] of the
    object, a method of the class, or a name every object has. *)
Inductive attribute :=
| Own (r : reference)
| Method (name : str)
| Inherited (name : str).

(** [self.attr]. *)
Definition getattr (self : AsyncDatabase) (attr : str) : answer attribute :=
  match (if str_eqb attr (py "conn") then conn self else None) with
  | Some r => Value (Own r)
  | None =>
      if has_name attr methods then Value (Method attr)
      else if has_name attr object_names then Value (Inherited attr)
      else Error (AttributeError (py "AsyncDatabase") attr)
  end.

Definition connect (self : AsyncDatabase) : coro reference :=
  sleep 1000 ;;
  Return Itself.

Definition query (self : AsyncDatabase) (sql : str) : coro value :=
  sleep 500 ;;
  Return (ListV [StrV (py "result1"); StrV (py "result2")]).

(** [self.conn = await self.connect()], then [return self]. *)
Definition aenter (self : AsyncDatabase)
  : coro (AsyncDatabase * AsyncDatabase) :=
  c <- connect self ;;
  let self := {| conn := Some c |} in
  Return (self, self).

(** [await a()] for an attribute [a] of the object: of the methods only
    [connect] and [__aenter__] take no argument, and what the other
    names give when called is not awaitable. *)
Definition await_call (self : AsyncDatabase) (a : attribute) : coro unit :=
  match a with
  | Method name =>
      if str_eqb name (py "connect") then connect self ;; Return tt
      else if str_eqb name (py "__aenter__") then aenter self ;; Return tt
      else Throw (Exn TypeError)
  | _ => Throw (Exn TypeError)
  end.

(** [await self.conn.close()]: the attribute [conn] is read, then the
    attribute [close] of the object it holds, which is [self]; the
    method returns [None], which is not true. *)
Definition aexit (self : AsyncDatabase) (exc : option error) : coro bool :=
  c <- settle (getattr self (py "conn")) ;;
  match c with
  | Own Itself =>
      close <- settle (getattr self (py "close")) ;;
      await_call self close ;;
      Return false
  | _ => Throw (Exn TypeError)
  end.
End Database.

(** [async with AsyncDatabase() as db: body]. *)
Definition with_database (body : AsyncDatabase -> coro unit) : coro unit :=
  async_with new_AsyncDatabase Database.aenter Database.aexit body.

Definition database_demo : coro value :=
  with_database (fun db =>
    results <- Database.query db (py "SELECT * FROM table") ;;
    print (py "Query results: " ++ str_of results)) ;;
  Return NoneV.

(** *** 5. Async Iterators and Generators

    The class [AsyncDataStream] is the record of the first part; its
    method [__anext__] is here a coroutine of asyncio, which gives the
    item with the object as it leaves it. *)
Module Stream.
Definition anext (self : Notebook.AsyncDataStream)
  : coro (Z * Notebook.AsyncDataStream) :=
  if (Notebook.current self <? Notebook.end_ self)%Z then
    sleep 500 ;;
    Return (Notebook.current self,
            {| Notebook.start := Notebook.start self;
               Notebook.end_ := Notebook.end_ self;
               Notebook.current := (Notebook.current self + 1)%Z |})
  else Throw (Exn StopAsyncIteration).

(** At most [n] turns of [async for num in self: body num]: the loop
    ends when [__anext__] raises [StopAsyncIteration]. *)
Fixpoint turns (n : nat) (self : Notebook.AsyncDataStream)
    (body : Z -> coro unit) : coro Notebook.AsyncDataStream :=
  match n with
  | O => Throw (Exn RecursionError)
  | S n' =>
      r <- attempt (anext self) ;;
      match r with
      | Value (num, self') => body num ;; turns n' self' body
      | Error (Exn StopAsyncIteration) => Return self
      | Error e => Throw e
      end
  end.

(** [async for num in self: body num], with one turn more than there
    are items left, the last of which ends the loop; the result is the
    object as the loop leaves it. *)
Definition async_for (self : Notebook.AsyncDataStream) (body : Z -> coro unit)
  : coro Notebook.AsyncDataStream :=
  turns (S (Z.to_nat (Notebook.end_ self - Notebook.current self)))
    (Notebook.aiter self) body.
End Stream.

Definition iterator_demo : coro value :=
  Stream.async_for (Notebook.init 1 4) (fun num =>
    print (py "Got number: " ++ str_of (IntV num))) ;;
  Return NoneV.

(** *** 5.1 Async Generators

    A [for] loop that carries a state, as a loop that collects does. *)
Fixpoint fold_for {S A} (l : list A) (body : S -> A -> coro S) (s : S)
  : coro S :=
  match l with
  | [] => Return s
  | x :: l' => s' <- body s x ;; fold_for l' body s'
  end.

(** The async generator, with the loop that iterates it: at a [yield]
    the body of that loop runs with the item. *)
Definition async_range {S} (start end_ : Z) (body : S -> Z -> coro S)
  : S -> coro S :=
  fold_for (Notebook.range start end_) (fun s i => sleep 500 ;; body s i).

Definition generator_demo : coro value :=
  async_range 1 4
    (fun _ num => print (py "Generated: " ++ str_of (IntV num))) tt ;;
  results <- async_range 5 8 (fun acc num => Return (acc ++ [IntV num])) [] ;;
  print (py "Collected: " ++ str_of (ListV results)) ;;
  Return NoneV.

(** *** 7.1 Performance Best Practices *)

(** [range(start, stop, step)]. *)
Definition range_step (start stop step : Z) : answer (list Z) :=
  if (step =? 0)%Z then
    Error (Exn (ValueError (py "range() arg 3 must not be zero")))
  else
    let n := if (0 <? step)%Z then ((stop - start + step - 1) / step)%Z
             else ((start - stop - step - 1) / (- step))%Z in
    Value (map (fun k => (start + Z.of_nat k * step)%Z) (seq 0 (Z.to_nat n))).

(** An index of a slice, brought within the list. *)
Definition clamp (len i : Z) : Z :=
  if (i <? 0)%Z then Z.max 0 (len + i) else Z.min i len.

(** [l[i:j]]. *)
Definition slice {A} (l : list A) (i j : Z) : list A :=
  let a := clamp (Z.of_nat (List.length l)) i in
  let b := clamp (Z.of_nat (List.length l)) j in
  firstn (Z.to_nat (b - a)) (skipn (Z.to_nat a) l).

Definition process_batch (items : list Z) : coro (list str) :=
  sleep 1000 ;;
  Return (map (fun item => py "processed_" ++ Json.int_repr item) items).

Definition parallel_operation (x : Z) : coro value :=
  sleep 100 ;;
  Return (IntV (x * 2)).

(** The batches the loop of [demo_performance_patterns] takes of
    [items]. *)
Definition batches (items : list Z) (batch_size : Z) : answer (list (list Z)) :=
  match range_step 0 (Z.of_nat (List.length items)) batch_size with
  | Value starts =>
      Value (map (fun i => slice items i (i + batch_size)) starts)
  | Error e => Error e
  end.

(** That loop, for the [items] and the [batch_size] it reads. *)
Definition process_in_batches (items : list Z) (batch_size : Z) : coro unit :=
  starts <- settle (range_step 0 (Z.of_nat (List.length items)) batch_size) ;;
  for_each starts (fun i =>
    let batch := slice items i (i + batch_size) in
    results <- process_batch batch ;;
    print (py "Processed batch of "
           ++ Json.int_repr (Z.of_nat (List.length results)) ++ py " items")).

Definition demo_performance_patterns : coro value :=
  let items := Notebook.range 0 100 in
  let batch_size := 10%Z in
  process_in_batches items batch_size ;;
  let tasks := map (fun x => Coroutine (parallel_operation x))
                 (Notebook.range 0 5) in
  outer <- gather tasks false ;;
  results <- await outer ;;
  print (py "Parallel results: " ++ str_of results) ;;
  Return NoneV.

(** *** 7.2 Monitoring and Debugging *)

Section Monitoring.
(** The format [.2f] of a duration, here counted in milliseconds: the
    text Python gives for the float of the seconds. *)
Variable format_2f : Z -> str.

(** The decorator: [name] is [func.__name__], [args] the arguments the
    wrapper passes on. *)
Definition async_timer {Args} (name : str) (func : Args -> coro value)
  : Args -> coro value :=
  fun args =>
    start <- time ;;
    result <- func args ;;
    end_ <- time ;;
    print (name ++ py " took " ++ format_2f (end_ - start) ++ py " seconds") ;;
    Return result.

Definition monitored_operation : unit -> coro value :=
  async_timer (py "monitored_operation") (fun _ =>
    sleep 1000 ;;
    Return (StrV (py "done"))).

End Monitoring.

(** *** Names for what the statements below speak of *)

(** A task runs [c] and is cancelled [ms] milliseconds later, then
    awaited: [task = asyncio.create_task(c)], [await asyncio.sleep],
    [task.cancel()], [await task]. *)
Definition cancelled_after (ms : Z) (c : coro value) : coro value :=
  task <- create_task c ;;
  sleep ms ;;
  Cancel task (fun _ => await task).

(** The specification read to the letter: [might_fail] raises
    [ValueError] exactly when [succeed] is [False], and returns
    [Success!] exactly when [succeed] is [True]. *)
Definition fails_exactly_on_false : Prop :=
  forall succeed r t out,
    alone (might_fail succeed) 0%Z [] = Some (r, t, out) ->
    (r = Error (Exn (ValueError (py "Operation failed!")))
     <-> succeed = BoolV false)
    /\ (r = Value (StrV (py "Success!")) <-> succeed = BoolV true).

(** A statement that returns nothing, as the body of a coroutine that
    returns [None]. *)
Definition returning_none (r : answer unit) : answer value :=
  match r with
  | Value _ => Value NoneV
  | Error e => Error e
  end.

(** The output the notebook has recorded for its first three code
    cells, the only ones it was saved with an output for. *)
Definition recorded_output (cell : nat) : list str :=
  match cell with
  | 0%nat => [py "Starting"; py "Finished"]
  | 1%nat => [py "Fetching data..."; py "Processing {'data': 'example'}"]
  | 2%nat => [py "Fetching data..."; py "Fetching data..."]
  | _ => []
  end.

(** The stream once it has given its last item. *)
Definition exhausted (self : Notebook.AsyncDataStream)
  : Notebook.AsyncDataStream :=
  {| Notebook.start := Notebook.start self;
     Notebook.end_ := Notebook.end_ self;
     Notebook.current := Z.max (Notebook.current self) (Notebook.end_ self) |}.

(** The lines a loop prints for [n] items from [first] on, one every
    half second after [t]. *)
Definition ticks (line : Z -> str) (t first : Z) (n : nat) : list (Z * str) :=
  map (fun i => ((t + 500 * (Z.of_nat i + 1))%Z, line (first + Z.of_nat i)%Z))
    (seq 0 n).

(** The lines [process_in_batches] prints for the batches [bs], one
    every second after [t]. *)
Fixpoint batch_lines (t : Z) (bs : list (list Z)) : list (Z * str) :=
  match bs with
  | [] => []
  | b :: bs' =>
      ((t + 1000)%Z,
       py "Processed batch of " ++ Json.int_repr (Z.of_nat (List.length b))
       ++ py " items")
      :: batch_lines (t + 1000) bs'
  end.

(** The line the wrapper of [async_timer] prints. *)
Definition took (format_2f : Z -> str) (name : str) (ms : Z) : str :=
  name ++ py " took " ++ format_2f ms ++ py " seconds".

(** The format [.2f] of the durations of the examples, which are whole
    numbers of seconds. *)
Definition whole_seconds_2f (ms : Z) : str := Weather.format_2f (ms / 1000).

End Cells.

(** * Properties *)

(** ** The notebook *)

Module NotebookFacts.
Import Notebook.

Lemma range_nil start stop : (stop <= start)%Z -> range start stop = [].
Proof.
  intros H. unfold range.
  replace (Z.to_nat (stop - start)) with 0%nat by lia. reflexivity.
Qed.

Lemma range_cons start stop :
  (start < stop)%Z -> range start stop = start :: range (start + 1) stop.
Proof.
  intros H. unfold range.
  replace (Z.to_nat (stop - start))
    with (S (Z.to_nat (stop - (start + 1)))) by lia.
  simpl. f_equal; [lia |].
  rewrite <- seq_shift, map_map. apply map_ext. intros k. lia.
Qed.

Lemma range_integers_from start stop :
  range start stop = from_start_to_end start stop.
Proof.
  unfold from_start_to_end.
  remember (Z.to_nat (stop - start)) as n eqn:Hn.
  revert start Hn. induction n as [| n IH]; intros start Hn.
  - apply range_nil. lia.
  - rewrite range_cons by lia. simpl. f_equal. apply IH. lia.
Qed.

Lemma items_turns l :
  items (flat_map (fun i => [Sleep 500; Item i]) l) = l.
Proof. induction l as [| x l IH]; simpl; [| rewrite IH]; reflexivity. Qed.

(** The loop over the iterator, whatever its position. *)
Lemma async_for_trace self :
  async_for self =
    (flat_map (fun i => [Sleep 500; Item i])
       (range (current self) (end_ self)), Ok tt).
Proof.
  funelim (async_for self);
    match goal with
    | e : anext ?s = _ |- _ =>
        pose proof e as Hnext; unfold anext in Hnext;
        destruct (current s <? end_ s)%Z eqn:E; cbn in Hnext;
        inversion Hnext; subst; clear Hnext
    end.
  - apply Z.ltb_lt in E.
    match goal with IH : async_for _ = _ |- _ => rewrite IH end.
    rewrite (range_cons (current self)) by assumption. reflexivity.
  - apply Z.ltb_ge in E. rewrite range_nil by assumption. reflexivity.
Qed.

(** C9: iterating [AsyncDataStream(start, end)] and iterating
    [async_range(start, end)] give the same items (and the same sleeps
    between them): the integers [start], [start + 1], ..., [end - 1] in
    increasing order, none when [start >= end]. *)
Theorem stream_and_generator_agree (start end_ : Z) :
  async_for (aiter (init start end_)) = async_range start end_
  /\ items (fst (async_for (aiter (init start end_))))
     = from_start_to_end start end_
  /\ items (fst (async_range start end_)) = from_start_to_end start end_
  /\ from_start_to_end start end_
     = map (fun k => (start + Z.of_nat k)%Z)
         (seq 0 (Z.to_nat (end_ - start)))
  /\ ((start >= end_)%Z -> from_start_to_end start end_ = []).
Proof.
  assert (Hfor : async_for (aiter (init start end_)) = async_range start end_).
  { rewrite async_for_trace. reflexivity. }
  split; [exact Hfor |].
  split; [rewrite Hfor; simpl; rewrite items_turns; apply range_integers_from |].
  split; [simpl; rewrite items_turns; apply range_integers_from |].
  split; [symmetry; apply range_integers_from |].
  intros H. rewrite <- range_integers_from. apply range_nil. lia.
Qed.

Lemma stream_and_generator_agree_witness :
  items (fst (async_for (aiter (init 1 4)))) = [1; 2; 3]%Z
  /\ items (fst (async_range 5 8)) = [5; 6; 7]%Z
  /\ from_start_to_end 4 1 = [].
Proof.
  destruct (stream_and_generator_agree 1 4) as (_ & H1 & _).
  destruct (stream_and_generator_agree 5 8) as (_ & _ & H2 & _).
  destruct (stream_and_generator_agree 4 1) as (_ & _ & _ & _ & H3).
  split; [rewrite H1; reflexivity |].
  split; [rewrite H2; reflexivity |].
  apply H3. lia.
Defined.

(** ** The cells *)

Local Open Scope string_scope.

(** C7, read to the letter, fails: the cell of [main] reads [fetch_data],
    bound by the cell before it, and [asyncio], imported by the first
    cell. *)
Lemma cell_of_main_reads_earlier_cells :
  nth_error cells 2
  = Some {| binds := ["main"]; reads := ["asyncio"; "fetch_data"; "main"] |}
  /\ imports_from_outside
       {| binds := ["main"]; reads := ["asyncio"; "fetch_data"; "main"] |}
     = ["asyncio"; "fetch_data"]
  /\ ~ every_cell_self_contained.
Proof.
  split; [reflexivity |]. split; [reflexivity |].
  intros H.
  specialize (H {| binds := ["main"];
                   reads := ["asyncio"; "fetch_data"; "main"] |}).
  assert (Hin : In {| binds := ["main"];
                      reads := ["asyncio"; "fetch_data"; "main"] |} cells).
  { simpl. right. right. left. reflexivity. }
  apply H in Hin. discriminate Hin.
Qed.

(** C7, amended: the cells share one namespace and run in order.  Each
    cell reads only builtins and names bound by itself or by an earlier
    cell; the first cell alone is self-contained, every later cell reads
    [asyncio] from the first, the cell of [main] reads [fetch_data] and
    the cell of [task_operations_demo] reads [long_operation], both
    bound by the cell before. *)
Theorem cells_share_one_namespace :
  runs_in_order [] cells = true
  /\ map self_contained cells
     = true :: repeat false 13
  /\ (forall c, In c (tl cells) -> In "asyncio" (imports_from_outside c))
  /\ option_map imports_from_outside (nth_error cells 2)
     = Some ["asyncio"; "fetch_data"]
  /\ option_map imports_from_outside (nth_error cells 4)
     = Some ["asyncio"; "long_operation"].
Proof.
  split; [reflexivity |]. split; [reflexivity |].
  split; [| split; reflexivity].
  intros c Hc. simpl in Hc.
  repeat (destruct Hc as [Hc | Hc]; [subst c; simpl; tauto |]).
  contradiction.
Qed.

End NotebookFacts.

(** ** The json module and UTF-8 *)

Module JsonFacts.
Import Json.

Lemma is_ascii_app a b : is_ascii a -> is_ascii b -> is_ascii (a ++ b).
Proof. intros Ha Hb. apply Forall_app. split; assumption. Qed.

Lemma hex_digit_ascii d : d < 16 -> hex_digit d < 128.
Proof. intros H. unfold hex_digit. destruct (d <? 10); lia. Qed.

Lemma mod16_lt n : n mod 16 < 16.
Proof. apply N.mod_lt. discriminate. Qed.

Lemma uescape_ascii n : is_ascii (uescape n).
Proof.
  unfold uescape, hex4, backslash.
  repeat constructor; try apply hex_digit_ascii; apply mod16_lt.
Qed.

Lemma escape_char_ascii c : is_ascii (escape_char c).
Proof.
  unfold escape_char, quote, backslash.
  repeat match goal with
         | |- context [if ?b then _ else _] => destruct b eqn:?
         end;
    try (repeat constructor; fail);
    try apply uescape_ascii.
  - constructor; [| constructor].
    apply andb_prop in Heqb6. destruct Heqb6 as [_ H].
    apply N.leb_le in H. lia.
  - apply is_ascii_app; apply uescape_ascii.
Qed.

Lemma escape_ascii s : is_ascii (escape s).
Proof.
  induction s as [| c s IH]; [constructor |].
  simpl. apply is_ascii_app; [apply escape_char_ascii | exact IH].
Qed.

Lemma encode_basestring_ascii_ascii s : is_ascii (encode_basestring_ascii s).
Proof.
  unfold encode_basestring_ascii. constructor; [reflexivity |].
  apply is_ascii_app; [apply escape_ascii | repeat constructor].
Qed.

Lemma uint_digits_ascii u : is_ascii (uint_digits u).
Proof. induction u; simpl; constructor; (reflexivity || assumption). Qed.

Lemma int_repr_ascii z : is_ascii (int_repr z).
Proof.
  destruct z; simpl; repeat constructor; apply uint_digits_ascii.
Qed.

Lemma join_ascii sep parts :
  is_ascii sep -> Forall is_ascii parts -> is_ascii (join sep parts).
Proof.
  intros Hs Hp. induction Hp as [| p ps Hp Hps IH]; [constructor |].
  simpl. destruct ps as [| q ps']; [exact Hp |].
  apply is_ascii_app; [exact Hp |]. apply is_ascii_app; [exact Hs | exact IH].
Qed.

Section Dumps.
Variable float_repr : str -> str.
Hypothesis float_repr_ascii : forall lit, is_ascii (float_repr lit).

Lemma dumps_list l :
  dumps float_repr (VList l)
  = py "[" ++ join (py ", ") (map (dumps float_repr) l) ++ py "]".
Proof. reflexivity. Qed.

Lemma dumps_dict d :
  dumps float_repr (VDict d)
  = py "{"
    ++ join (py ", ")
         (map (fun kv => encode_basestring_ascii (fst kv) ++ py ": "
                         ++ dumps float_repr (snd kv)) d)
    ++ py "}".
Proof. reflexivity. Qed.

(** [json.dumps] writes ASCII only. *)
Lemma dumps_ascii v : is_ascii (dumps float_repr v).
Proof.
  induction v using pyval_induction.
  - repeat constructor.
  - destruct b; repeat constructor.
  - apply int_repr_ascii.
  - apply float_repr_ascii.
  - apply encode_basestring_ascii_ascii.
  - rewrite dumps_list.
    apply is_ascii_app; [repeat constructor |].
    apply is_ascii_app; [| repeat constructor].
    apply join_ascii; [repeat constructor |].
    apply Forall_map. exact H.
  - rewrite dumps_dict.
    apply is_ascii_app; [repeat constructor |].
    apply is_ascii_app; [| repeat constructor].
    apply join_ascii; [repeat constructor |].
    apply Forall_map. eapply Forall_impl; [| exact H].
    intros kv Hkv. cbv beta.
    apply is_ascii_app; [apply encode_basestring_ascii_ascii |].
    apply is_ascii_app; [repeat constructor | exact Hkv].
Qed.
End Dumps.

(** On ASCII text, [encode] and [decode] leave the numbers as they are. *)
Lemma encode_ascii s : is_ascii s -> Utf8.encode s = Ok s.
Proof.
  induction 1 as [| c s Hc Hs IH]; [reflexivity |].
  simpl. unfold Utf8.encode_char.
  replace (c <? 128) with true by (symmetry; apply N.ltb_lt; lia).
  simpl. rewrite IH. reflexivity.
Qed.

Lemma decode_ascii s : is_ascii s -> Utf8.decode s = Ok s.
Proof.
  induction 1 as [| c s Hc Hs IH]; [reflexivity |].
  simpl.
  replace (c <? 128) with true by (symmetry; apply N.ltb_lt; lia).
  rewrite IH. reflexivity.
Qed.

(** *** Reading back an escaped string *)

Ltac cases_of_tests :=
  repeat match goal with
         | |- context [?a <=? ?b] => destruct (N.leb_spec a b); try lia
         | |- context [?a <? ?b] => destruct (N.ltb_spec a b); try lia
         | |- context [?a =? ?b] => destruct (N.eqb_spec a b); try lia
         end.

Lemma hex_value_digit d : d < 16 -> hex_value (hex_digit d) = Some d.
Proof.
  intros H. unfold hex_value, hex_digit.
  cases_of_tests; cbn [andb]; f_equal; lia.
Qed.

Lemma hex4_value n :
  n < 65536 ->
  ((n / 4096 mod 16 * 16 + n / 256 mod 16) * 16 + n / 16 mod 16) * 16
  + n mod 16 = n.
Proof.
  intros H.
  assert (E1 : n = 16 * (n / 16) + n mod 16) by (apply N.div_mod; discriminate).
  assert (E2 : n / 16 = 16 * (n / 16 / 16) + n / 16 mod 16)
    by (apply N.div_mod; discriminate).
  assert (E3 : n / 256 = 16 * (n / 256 / 16) + n / 256 mod 16)
    by (apply N.div_mod; discriminate).
  rewrite N.Div0.div_div in E2, E3.
  change (16 * 16) with 256 in E2. change (256 * 16) with 4096 in E3.
  assert (L : n / 4096 < 16)
    by (apply N.Div0.div_lt_upper_bound; lia).
  rewrite (N.mod_small (n / 4096) 16) by exact L.
  lia.
Qed.

Lemma decode_hex4 n rest :
  n < 65536 ->
  match hex4 n ++ rest with
  | h1 :: h2 :: h3 :: h4 :: r => decode_uXXXX h1 h2 h3 h4 = Some n /\ r = rest
  | _ => False
  end.
Proof.
  intros H. unfold hex4, decode_uXXXX. simpl.
  rewrite !hex_value_digit by apply mod16_lt.
  split; [| reflexivity]. f_equal. apply hex4_value. exact H.
Qed.

Lemma testbit_small b m : b < 2 ^ m -> N.testbit b m = false.
Proof.
  intros H. destruct (N.eq_dec b 0) as [-> | Hb]; [apply N.bits_0 |].
  apply N.bits_above_log2. apply N.log2_lt_pow2; lia.
Qed.

Lemma lor_high_low a b k : b < 2 ^ k -> N.lor (a * 2 ^ k) b = a * 2 ^ k + b.
Proof.
  intros H.
  assert (D : N.land (a * 2 ^ k) b = 0).
  { apply N.bits_inj. intros m. rewrite N.land_spec, N.bits_0.
    destruct (N.lt_ge_cases m k) as [Hm | Hm].
    - rewrite N.mul_pow2_bits_low by exact Hm. reflexivity.
    - rewrite (testbit_small b m), andb_false_r; [reflexivity |].
      apply N.lt_le_trans with (2 ^ k); [exact H |].
      apply N.pow_le_mono_r; [discriminate | exact Hm]. }
  rewrite <- N.lxor_lor by exact D. symmetry. apply N.add_nocarry_lxor, D.
Qed.

(** The two halves [py_encode_basestring_ascii] writes for a character
    above the basic plane, and [join_surrogates] on them. *)
Lemma surrogate_pair c :
  0x10000 <= c -> c < 0x110000 ->
  let n := c - 0x10000 in
  let hi := N.lor 0xd800 (N.land (N.shiftr n 10) 0x3ff) in
  let lo := N.lor 0xdc00 (N.land n 0x3ff) in
  hi < 65536 /\ lo < 65536
  /\ is_high_surrogate hi = true /\ is_low_surrogate lo = true
  /\ join_surrogates hi lo = c.
Proof.
  intros Hlo Hhi n hi lo.
  assert (Hn : n < 1024 * 1024) by (subst n; lia).
  assert (Ea : N.land (N.shiftr n 10) 0x3ff = n / 1024).
  { change 0x3ff with (N.ones 10). rewrite N.land_ones, N.shiftr_div_pow2.
    change (2 ^ 10) with 1024. apply N.mod_small.
    apply N.Div0.div_lt_upper_bound. exact Hn. }
  assert (Eb : N.land n 0x3ff = n mod 1024).
  { change 0x3ff with (N.ones 10). rewrite N.land_ones. reflexivity. }
  assert (La : n / 1024 < 1024)
    by (apply N.Div0.div_lt_upper_bound; exact Hn).
  assert (Lb : n mod 1024 < 1024) by (apply N.mod_lt; discriminate).
  assert (Ehi : hi = 0xd800 + n / 1024).
  { subst hi. rewrite Ea. change 0xd800 with (54 * 2 ^ 10).
    apply lor_high_low. exact La. }
  assert (Elo : lo = 0xdc00 + n mod 1024).
  { subst lo. rewrite Eb. change 0xdc00 with (55 * 2 ^ 10).
    apply lor_high_low. exact Lb. }
  assert (Ejoin : join_surrogates hi lo = c).
  { unfold join_surrogates. rewrite Ehi, Elo.
    replace (0xd800 + n / 1024 - 0xd800) with (n / 1024) by lia.
    replace (0xdc00 + n mod 1024 - 0xdc00) with (n mod 1024) by lia.
    rewrite N.shiftl_mul_pow2, lor_high_low by exact Lb.
    change (2 ^ 10) with 1024.
    pose proof (N.div_mod n 1024) as E. subst n. lia. }
  unfold is_high_surrogate, is_low_surrogate.
  rewrite Ehi, Elo in *.
  repeat split; try lia; try exact Ejoin;
    apply andb_true_intro; split; apply N.leb_le; lia.
Qed.

Lemma scanstring_plain c rest :
  c <> quote -> 32 <= c -> c <> backslash ->
  scanstring (c :: rest) = push c (scanstring rest).
Proof.
  intros Hq Hc Hb. simpl.
  destruct (N.eqb_spec c quote); [contradiction |].
  destruct (N.ltb_spec c 32); [lia |].
  destruct (N.eqb_spec c backslash); [contradiction |].
  reflexivity.
Qed.

Lemma scanstring_unicode h1 h2 h3 h4 s6 :
  scanstring (backslash :: 117 :: h1 :: h2 :: h3 :: h4 :: s6)
  = match decode_uXXXX h1 h2 h3 h4 with
    | None => Raise JSONDecodeError
    | Some uni =>
        if is_high_surrogate uni then
          match s6 with
          | b :: u :: s8 =>
              if (b =? backslash) && (u =? 117) then
                match s8 with
                | l1 :: l2 :: l3 :: l4 :: s12 =>
                    match decode_uXXXX l1 l2 l3 l4 with
                    | None => Raise JSONDecodeError
                    | Some uni2 =>
                        if is_low_surrogate uni2
                        then push (join_surrogates uni uni2) (scanstring s12)
                        else push uni (scanstring s6)
                    end
                | _ => Raise JSONDecodeError
                end
              else push uni (scanstring s6)
          | _ => push uni (scanstring s6)
          end
        else push uni (scanstring s6)
    end.
Proof. reflexivity. Qed.

Lemma scanstring_uescape n rest :
  n < 65536 -> is_high_surrogate n = false ->
  scanstring (uescape n ++ rest) = push n (scanstring rest).
Proof.
  intros Hn Hs. pose proof (decode_hex4 n rest Hn) as D.
  unfold uescape. unfold hex4 in *. cbn [app] in *. destruct D as [D _].
  rewrite scanstring_unicode, D, Hs. reflexivity.
Qed.

Lemma scanstring_pair hi lo rest :
  hi < 65536 -> lo < 65536 ->
  is_high_surrogate hi = true -> is_low_surrogate lo = true ->
  scanstring (uescape hi ++ uescape lo ++ rest)
  = push (join_surrogates hi lo) (scanstring rest).
Proof.
  intros Hhi Hlo Sh Sl.
  pose proof (decode_hex4 hi (uescape lo ++ rest) Hhi) as D1.
  pose proof (decode_hex4 lo rest Hlo) as D2.
  unfold uescape. unfold hex4 in *. cbn [app] in *.
  destruct D1 as [D1 _]. destruct D2 as [D2 _].
  rewrite scanstring_unicode, D1, Sh.
  rewrite !N.eqb_refl. cbn [andb]. rewrite D2, Sl. reflexivity.
Qed.

Lemma scanstring_escape_char c rest :
  plain c ->
  scanstring (escape_char c ++ rest) = push c (scanstring rest).
Proof.
  intros [Hc Hs]. unfold escape_char.
  destruct (N.eqb_spec c quote) as [-> | Hq]; [reflexivity |].
  destruct (N.eqb_spec c backslash) as [-> | Hb]; [reflexivity |].
  destruct (N.eqb_spec c 8) as [-> | H8]; [reflexivity |].
  destruct (N.eqb_spec c 12) as [-> | H12]; [reflexivity |].
  destruct (N.eqb_spec c 10) as [-> | H10]; [reflexivity |].
  destruct (N.eqb_spec c 13) as [-> | H13]; [reflexivity |].
  destruct (N.eqb_spec c 9) as [-> | H9]; [reflexivity |].
  destruct (N.leb_spec 32 c) as [H32 | H32];
    [destruct (N.leb_spec c 126) as [H126 | H126] |]; cbn [andb].
  - apply scanstring_plain; assumption.
  - destruct (N.ltb_spec c 0x10000) as [Hbmp | Hbmp].
    + apply scanstring_uescape; assumption.
    + destruct (surrogate_pair c Hbmp Hc) as (L1 & L2 & S1 & S2 & J).
      rewrite <- app_assoc, scanstring_pair by assumption.
      rewrite J. reflexivity.
  - destruct (N.ltb_spec c 0x10000) as [Hbmp | Hbmp]; [| lia].
    apply scanstring_uescape; assumption.
Qed.

Lemma scanstring_escape s rest :
  Forall plain s ->
  scanstring (escape s ++ quote :: rest) = Ok (s, rest).
Proof.
  induction 1 as [| c s Hc Hs IH]; [reflexivity |].
  unfold escape in *. cbn [flat_map]. rewrite <- app_assoc.
  rewrite scanstring_escape_char by exact Hc. rewrite IH. reflexivity.
Qed.

End JsonFacts.

(** ** What [print] can write *)

Module PrintFacts.
Import Net.

Lemma has_surrogate_app a b :
  has_surrogate (a ++ b) = has_surrogate a || has_surrogate b.
Proof. apply existsb_app. Qed.

Lemma ascii_no_surrogate s : is_ascii s -> has_surrogate s = false.
Proof.
  induction 1 as [| c s Hc Hs IH]; [reflexivity |].
  cbn [has_surrogate existsb]. fold (has_surrogate s). rewrite IH.
  unfold is_surrogate.
  replace (0xD800 <=? c) with false by (symmetry; apply N.leb_gt; lia).
  reflexivity.
Qed.

Lemma hex2_ascii n : is_ascii (hex2 n).
Proof.
  unfold hex2.
  repeat constructor; apply JsonFacts.hex_digit_ascii, JsonFacts.mod16_lt.
Qed.

Lemma hex4_ascii n : is_ascii (Json.hex4 n).
Proof.
  unfold Json.hex4.
  repeat constructor; apply JsonFacts.hex_digit_ascii, JsonFacts.mod16_lt.
Qed.

(** [repr] leaves no surrogate: it escapes them, in ASCII. *)
Lemma repr_char_no_surrogate q c :
  is_surrogate q = false -> has_surrogate (repr_char q c) = false.
Proof.
  intros Hq. unfold repr_char.
  repeat match goal with
         | |- context [if ?b then _ else _] => destruct b eqn:?
         end;
    try reflexivity.
  - cbn [has_surrogate existsb]. rewrite Hq. reflexivity.
  - change (has_surrogate ([92; 120] ++ hex2 c) = false).
    rewrite has_surrogate_app, (ascii_no_surrogate _ (hex2_ascii c)).
    reflexivity.
  - change (has_surrogate ([92; 117] ++ Json.hex4 c) = false).
    rewrite has_surrogate_app, (ascii_no_surrogate _ (hex4_ascii c)).
    reflexivity.
  - cbn [has_surrogate existsb].
    match goal with H : is_surrogate c = false |- _ => rewrite H end.
    reflexivity.
Qed.

Lemma repr_str_no_surrogate s : has_surrogate (repr_str s) = false.
Proof.
  unfold repr_str.
  set (q := if existsb (N.eqb 39) s && negb (existsb (N.eqb 34) s)
            then 34 else 39).
  assert (Hq : is_surrogate q = false).
  { subst q.
    destruct (existsb (N.eqb 39) s && negb (existsb (N.eqb 34) s)); reflexivity. }
  change (has_surrogate ([q] ++ flat_map (repr_char q) s ++ [q]) = false).
  rewrite !has_surrogate_app.
  cbn [has_surrogate existsb]. rewrite Hq. cbn [orb].
  rewrite orb_false_r.
  clearbody q. induction s as [| c s IH]; [reflexivity |].
  cbn [flat_map].
  rewrite has_surrogate_app, repr_char_no_surrogate by exact Hq.
  exact IH.
Qed.

Lemma repr_address_no_surrogate a :
  has_surrogate (Weather.repr_address a) = false.
Proof.
  unfold Weather.repr_address.
  rewrite !has_surrogate_app, repr_str_no_surrogate,
    (ascii_no_surrogate _ (JsonFacts.int_repr_ascii (snd a))).
  reflexivity.
Qed.

Lemma print_ok line w :
  has_surrogate line = false -> print line w = (Done tt, emit (EvPrint line) w).
Proof. intros H. unfold print. rewrite H. reflexivity. Qed.

Lemma print_raises line w :
  has_surrogate line = true -> print line w = (Raised UnicodeEncodeError, w).
Proof. intros H. unfold print. rewrite H. reflexivity. Qed.

(** The line the server prints for a connection can always be written. *)
Lemma print_accepted a w :
  print (py "Accepted connection from " ++ Weather.repr_address a) w
  = (Done tt,
     emit (EvPrint (py "Accepted connection from " ++ Weather.repr_address a)) w).
Proof.
  apply print_ok. rewrite has_surrogate_app, repr_address_no_surrogate.
  reflexivity.
Qed.

(** The line of [test_client] can be written when the city can. *)
Lemma received_line city reply :
  is_ascii reply ->
  has_surrogate (py "Received weather for " ++ city ++ py ": " ++ reply)
  = has_surrogate city.
Proof.
  intros H.
  rewrite !has_surrogate_app, (ascii_no_surrogate _ H).
  cbn. rewrite orb_false_r. reflexivity.
Qed.

End PrintFacts.

(** ** The bounds of the parser are never reached *)

Module FuelFacts.
Import Json.

Lemma skip_ws_length s : (List.length (skip_ws s) <= List.length s)%nat.
Proof.
  induction s as [| c s IH]; simpl; [lia |].
  destruct (is_ws c); simpl; lia.
Qed.

Lemma push_ok c r0 x r :
  push c r0 = Ok (x, r) -> exists x', r0 = Ok (x', r).
Proof.
  unfold push. destruct r0 as [[x' r'] | e]; simpl; intros H;
    inversion H; subst. exists x'. reflexivity.
Qed.

Lemma push_raise c r0 e : push c r0 = Raise e -> r0 = Raise e.
Proof.
  unfold push. destruct r0 as [[x' r'] | e']; simpl; intros H;
    inversion H; subst. reflexivity.
Qed.

Ltac split_matches H :=
  repeat match type of H with
         | context [match ?x with _ => _ end] => destruct x eqn:?
         end.

(** [scanstring] consumes the closing quote at least. *)
Lemma scanstring_shorter s x r :
  scanstring s = Ok (x, r) -> (List.length r < List.length s)%nat.
Proof.
  remember (List.length s) as n eqn:Hn.
  assert (Hle : (List.length s <= n)%nat) by lia. clear Hn.
  revert s x r Hle. induction n as [| n IH]; intros s x r Hle H.
  - destruct s; [discriminate H | simpl in Hle; lia].
  - destruct s as [| c s1]; [discriminate H |].
    simpl in H. simpl in Hle.
    split_matches H; try discriminate H;
      try (inversion H; subst; simpl; lia);
      apply push_ok in H; destruct H as [x' H];
      apply IH in H; simpl in *; lia.
Qed.

Lemma scanstring_raises s e : scanstring s = Raise e -> e = JSONDecodeError.
Proof.
  remember (List.length s) as n eqn:Hn.
  assert (Hle : (List.length s <= n)%nat) by lia. clear Hn.
  revert s e Hle. induction n as [| n IH]; intros s e Hle H.
  - destruct s; [inversion H; reflexivity | simpl in Hle; lia].
  - destruct s as [| c s1]; [inversion H; reflexivity |].
    simpl in H. simpl in Hle.
    split_matches H; try discriminate H;
      try (inversion H; reflexivity);
      apply push_raise in H; apply IH in H; simpl in *; try lia; exact H.
Qed.

Lemma strip_prefix_length p s r :
  strip_prefix p s = Some r ->
  List.length s = (List.length p + List.length r)%nat.
Proof.
  revert s. induction p as [| x p IH]; intros s H; simpl in H.
  - inversion H. reflexivity.
  - destruct s as [| y s]; [discriminate H |].
    destruct (x =? y); [| discriminate H].
    simpl. rewrite (IH s H). reflexivity.
Qed.

Lemma span_digits_length s :
  (List.length (snd (span_digits s)) <= List.length s)%nat.
Proof.
  induction s as [| c s IH]; simpl; [lia |].
  destruct (is_digit c); simpl; lia.
Qed.

Lemma match_integer_shorter s i r :
  match_integer s = Some (i, r) -> (List.length r < List.length s)%nat.
Proof.
  unfold match_integer, match_sign. intros H.
  destruct s as [| c s1]; [discriminate H |].
  destruct (c =? 45); cbn [fst snd] in H.
  - destruct s1 as [| c2 s2]; [discriminate H |].
    destruct (c2 =? 48); [inversion H; subst; simpl; lia |].
    destruct (is_digit c2); [| discriminate H].
    inversion H; subst. pose proof (span_digits_length s2). simpl. lia.
  - destruct (c =? 48); [inversion H; subst; simpl; lia |].
    destruct (is_digit c); [| discriminate H].
    inversion H; subst. pose proof (span_digits_length s1). simpl. lia.
Qed.

Lemma match_frac_length s :
  (List.length (snd (match_frac s)) <= List.length s)%nat.
Proof.
  unfold match_frac. destruct s as [| c s1]; [simpl; lia |].
  destruct (c =? 46); [| simpl; lia].
  pose proof (span_digits_length s1).
  destruct (span_digits s1) as [[| d ds] r]; simpl in *; lia.
Qed.

Lemma match_exp_length s :
  (List.length (snd (match_exp s)) <= List.length s)%nat.
Proof.
  unfold match_exp. destruct s as [| c s1]; [simpl; lia |].
  destruct ((c =? 101) || (c =? 69)); [| simpl; lia].
  destruct s1 as [| c2 s2]; cbn [fst snd].
  - simpl. lia.
  - destruct ((c2 =? 45) || (c2 =? 43)); cbn [fst snd].
    + pose proof (span_digits_length s2).
      destruct (span_digits s2) as [[| d ds] r]; simpl in *; lia.
    + pose proof (span_digits_length (c2 :: s2)).
      destruct (span_digits (c2 :: s2)) as [[| d ds] r]; simpl in *; lia.
Qed.

Lemma scan_number_shorter s v r :
  scan_number s = Ok (v, r) -> (List.length r < List.length s)%nat.
Proof.
  unfold scan_number. intros H.
  destruct (match_integer s) as [[i r0] |] eqn:Hi.
  - apply match_integer_shorter in Hi.
    pose proof (match_frac_length r0).
    pose proof (match_exp_length (snd (match_frac r0))).
    destruct (fst (match_frac r0) ++ fst (match_exp (snd (match_frac r0))));
      inversion H; subst; lia.
  - split_matches H; try discriminate H; inversion H; subst;
      match goal with
      | E : strip_prefix _ _ = Some _ |- _ =>
          apply strip_prefix_length in E; rewrite E; simpl; lia
      end.
Qed.

Lemma scan_number_raises s e : scan_number s = Raise e -> e = JSONDecodeError.
Proof.
  unfold scan_number. intros H.
  split_matches H; try discriminate H; inversion H; reflexivity.
Qed.

Lemma scan_constant_shorter s v r :
  scan_constant s = Ok (v, r) -> (List.length r < List.length s)%nat.
Proof.
  unfold scan_constant. intros H.
  destruct (strip_prefix (py "null") s) eqn:E1;
    [inversion H; subst; apply strip_prefix_length in E1; rewrite E1;
     simpl; lia |].
  destruct (strip_prefix (py "true") s) eqn:E2;
    [inversion H; subst; apply strip_prefix_length in E2; rewrite E2;
     simpl; lia |].
  destruct (strip_prefix (py "false") s) eqn:E3;
    [inversion H; subst; apply strip_prefix_length in E3; rewrite E3;
     simpl; lia |].
  apply scan_number_shorter in H. exact H.
Qed.

Lemma scan_constant_raises s e :
  scan_constant s = Raise e -> e = JSONDecodeError.
Proof.
  unfold scan_constant. intros H.
  split_matches H; try discriminate H. apply scan_number_raises in H. exact H.
Qed.

Section Loops.
Variable scan : str -> result (pyval * str).
Hypothesis scan_shorter :
  forall s v r, scan s = Ok (v, r) -> (List.length r < List.length s)%nat.

Lemma array_items_shorter n s acc v r :
  array_items scan n s acc = Ok (v, r) ->
  (List.length r < List.length s)%nat.
Proof.
  revert s acc. induction n as [| n IH]; intros s acc H; [discriminate H |].
  cbn [array_items] in H. unfold rbind in H.
  destruct (scan s) as [[v1 r1] |] eqn:Es; [| discriminate H].
  apply scan_shorter in Es. cbn [fst snd] in H.
  pose proof (skip_ws_length r1) as L1.
  destruct (skip_ws r1) as [| c r'] eqn:E1; [discriminate H |].
  destruct (c =? 93); [inversion H; subst; simpl in L1; lia |].
  destruct (c =? 44); [| discriminate H].
  apply IH in H. pose proof (skip_ws_length r'). simpl in L1. lia.
Qed.

Lemma object_members_shorter n s acc v r :
  object_members scan n s acc = Ok (v, r) ->
  (List.length r < List.length s)%nat.
Proof.
  revert s acc. induction n as [| n IH]; intros s acc H; [discriminate H |].
  cbn [object_members] in H. unfold rbind in H.
  destruct (scanstring s) as [[key r0] |] eqn:Ek; [| discriminate H].
  apply scanstring_shorter in Ek. cbn [fst snd] in H.
  pose proof (skip_ws_length r0) as L0.
  destruct (skip_ws r0) as [| c r1] eqn:E0; [discriminate H |].
  destruct (c =? 58); [| discriminate H].
  pose proof (skip_ws_length r1) as L1.
  destruct (scan (skip_ws r1)) as [[v1 r2] |] eqn:Es; [| discriminate H].
  apply scan_shorter in Es. cbn [fst snd] in H.
  pose proof (skip_ws_length r2) as L2.
  destruct (skip_ws r2) as [| c2 r3] eqn:E2; [discriminate H |].
  destruct (c2 =? 125); [inversion H; subst; simpl in *; lia |].
  destruct (c2 =? 44); [| discriminate H].
  pose proof (skip_ws_length r3) as L3.
  destruct (skip_ws r3) as [| q r4] eqn:E3; [discriminate H |].
  destruct (q =? quote); [| discriminate H].
  apply IH in H. simpl in *. lia.
Qed.

(** With a bound at least the length of the input, the loops end before
    the bound is reached. *)
Lemma array_items_bound n s acc :
  (forall s', (List.length s' <= List.length s)%nat ->
              scan s' <> Raise RecursionError) ->
  (List.length s <= n)%nat -> (0 < n)%nat ->
  array_items scan n s acc <> Raise RecursionError.
Proof.
  revert s acc. induction n as [| n IH]; intros s acc Hscan Hle Hpos; [lia |].
  cbn [array_items]. unfold rbind.
  destruct (scan s) as [[v1 r1] | e] eqn:Es.
  - apply scan_shorter in Es. cbn [fst snd].
    pose proof (skip_ws_length r1) as L1.
    destruct (skip_ws r1) as [| c r'] eqn:E1; [discriminate |].
    destruct (c =? 93); [discriminate |].
    destruct (c =? 44); [| discriminate].
    pose proof (skip_ws_length r') as L2. simpl in L1.
    apply IH; [| lia | lia].
    intros s' Hs'. apply Hscan. lia.
  - intros H. inversion H; subst. apply (Hscan s); [lia | exact Es].
Qed.

Lemma object_members_bound n s acc :
  (forall s', (List.length s' <= List.length s)%nat ->
              scan s' <> Raise RecursionError) ->
  (List.length s <= n)%nat -> (0 < n)%nat ->
  object_members scan n s acc <> Raise RecursionError.
Proof.
  revert s acc. induction n as [| n IH]; intros s acc Hscan Hle Hpos; [lia |].
  cbn [object_members]. unfold rbind.
  destruct (scanstring s) as [[key r0] | e] eqn:Ek;
    [| apply scanstring_raises in Ek; subst; discriminate].
  apply scanstring_shorter in Ek. cbn [fst snd].
  pose proof (skip_ws_length r0) as L0.
  destruct (skip_ws r0) as [| c r1] eqn:E0; [discriminate |].
  destruct (c =? 58); [| discriminate].
  pose proof (skip_ws_length r1) as L1. simpl in L0.
  destruct (scan (skip_ws r1)) as [[v1 r2] | e] eqn:Es.
  - apply scan_shorter in Es. cbn [fst snd].
    pose proof (skip_ws_length r2) as L2.
    destruct (skip_ws r2) as [| c2 r3] eqn:E2; [discriminate |].
    destruct (c2 =? 125); [discriminate |].
    destruct (c2 =? 44); [| discriminate].
    pose proof (skip_ws_length r3) as L3.
    destruct (skip_ws r3) as [| q r4] eqn:E3; [discriminate |].
    destruct (q =? quote); [| discriminate].
    simpl in *. apply IH; [| lia | lia].
    intros s' Hs'. apply Hscan. lia.
  - intros H. inversion H; subst.
    apply (Hscan (skip_ws r1)); [lia | exact Es].
Qed.

End Loops.

Lemma scan_once_shorter fuel s v r :
  scan_once fuel s = Ok (v, r) -> (List.length r < List.length s)%nat.
Proof.
  revert s v r. induction fuel as [| f IH]; intros s v r H; [discriminate H |].
  cbn [scan_once] in H.
  destruct s as [| c rest]; [discriminate H |].
  destruct (c =? quote).
  - unfold rbind in H.
    destruct (scanstring rest) as [[x r0] |] eqn:E; [| discriminate H].
    apply scanstring_shorter in E. inversion H; subst. simpl. lia.
  - pose proof (skip_ws_length rest) as L.
    destruct (c =? 123).
    + destruct (skip_ws rest) as [| c1 r1]; [discriminate H |].
      destruct (c1 =? 125); [inversion H; subst; simpl in *; lia |].
      destruct (c1 =? quote); [| discriminate H].
      apply (object_members_shorter _ IH) in H. simpl in *. lia.
    + destruct (c =? 91); [| apply scan_constant_shorter in H; exact H].
      destruct (skip_ws rest) as [| c1 r1]; [discriminate H |].
      destruct (c1 =? 93); [inversion H; subst; simpl in *; lia |].
      apply (array_items_shorter _ IH) in H. simpl in *. lia.
Qed.

Lemma scan_once_bound fuel s :
  (List.length s < fuel)%nat -> scan_once fuel s <> Raise RecursionError.
Proof.
  revert s. induction fuel as [| f IH]; intros s Hlt; [lia |].
  cbn [scan_once].
  destruct s as [| c rest]; [discriminate |]. simpl in Hlt.
  destruct (c =? quote).
  - unfold rbind.
    destruct (scanstring rest) as [[x r0] | e] eqn:E; [discriminate |].
    apply scanstring_raises in E. subst. discriminate.
  - pose proof (skip_ws_length rest) as L.
    destruct (c =? 123).
    + destruct (skip_ws rest) as [| c1 r1]; [discriminate |].
      destruct (c1 =? 125); [discriminate |].
      destruct (c1 =? quote); [| discriminate].
      simpl in L.
      apply object_members_bound; [apply scan_once_shorter | | lia | lia].
      intros s' Hs'. apply IH. lia.
    + destruct (c =? 91).
      * destruct (skip_ws rest) as [| c1 r1]; [discriminate |].
        destruct (c1 =? 93); [discriminate |].
        simpl in L.
        apply array_items_bound;
          [apply scan_once_shorter | | simpl; lia | lia].
        intros s' Hs'. apply IH. simpl in Hs'. lia.
      * intros H. apply scan_constant_raises in H. discriminate H.
Qed.

(** [loads] gives its scanner enough fuel: the [RecursionError] of the
    model is never raised. *)
Lemma loads_fuel s : loads s <> Raise RecursionError.
Proof.
  unfold loads. destruct s as [| c s1]; [discriminate |].
  destruct (c =? 0xfeff); [discriminate |].
  unfold rbind.
  pose proof (skip_ws_length (c :: s1)) as L.
  destruct (scan_once (S (List.length (c :: s1))) (skip_ws (c :: s1)))
    as [[v r] | e] eqn:E.
  - cbn [fst snd]. destruct (skip_ws r); discriminate.
  - intros H. inversion H; subst.
    apply (scan_once_bound (S (List.length (c :: s1))) (skip_ws (c :: s1)));
      [lia | exact E].
Qed.

End FuelFacts.

(** ** The weather service *)

Module WeatherFacts.
Import Net Weather.

Lemma nth_error_update {A} (l : list A) i x y :
  nth_error l i = Some x -> nth_error (update l i y) i = Some y.
Proof.
  revert i. induction l as [| h t IH]; intros [| j] H; simpl in *;
    try discriminate; [reflexivity | apply IH; exact H].
Qed.

Lemma update_update {A} (l : list A) i x y :
  update (update l i x) i y = update l i y.
Proof.
  revert i. induction l as [| h t IH]; intros [| j]; simpl;
    try reflexivity. rewrite IH. reflexivity.
Qed.

Lemma nth_error_snoc {A} (l : list A) x :
  nth_error (l ++ [x]) (List.length l) = Some x.
Proof. induction l as [| h t IH]; simpl; [reflexivity | exact IH]. Qed.

Lemma update_snoc {A} (l : list A) x y :
  update (l ++ [x]) (List.length l) y = l ++ [y].
Proof.
  induction l as [| h t IH]; simpl; [reflexivity | rewrite IH; reflexivity].
Qed.

Lemma world_ext w1 w2 :
  clock w1 = clock w2 -> conns w1 = conns w2 -> bound w1 = bound w2 ->
  listening w1 = listening w2 -> backlog w1 = backlog w2 ->
  acceptor w1 = acceptor w2 -> cur w1 = cur w2 -> threads w1 = threads w2 ->
  log w1 = log w2 -> w1 = w2.
Proof.
  destruct w1, w2. cbn. intros. subst. reflexivity.
Qed.

(** Reading a field of a world built by the setters. *)
Ltac fields :=
  cbn [clock conns bound listening backlog acceptor cur threads log
       emit set_clock set_conns set_bound set_listening set_backlog
       set_acceptor set_cur set_threads served accepted].

Lemma bind_done {A B} (m : M A) (k : A -> M B) w a w' :
  m w = (Done a, w') -> bind m k w = k a w'.
Proof. intros H. unfold bind. rewrite H. reflexivity. Qed.

Lemma bind_raised {A B} (m : M A) (k : A -> M B) w e w' :
  m w = (Raised e, w') -> bind m k w = (Raised e, w').
Proof. intros H. unfold bind. rewrite H. reflexivity. Qed.

Lemma bind_blocked {A B} (m : M A) (k : A -> M B) w w' :
  m w = (Blocked, w') -> bind m k w = (Blocked, w').
Proof. intros H. unfold bind. rewrite H. reflexivity. Qed.

Lemma bind_lift_ok {A B} (a : A) (k : A -> M B) w :
  bind (lift (Ok a)) k w = k a w.
Proof. reflexivity. Qed.

Lemma bind_lift_raise {A B} e (k : A -> M B) w :
  bind (lift (Raise e)) k w = (Raised e, w).
Proof. reflexivity. Qed.

Lemma sock_recv_run w c sd k n :
  nth_error (conns w) c = Some k ->
  own_closed sd k = false ->
  inbox sd k <> [] ->
  sock_recv (c, sd) n w
  = (Done (firstn n (inbox sd k)),
     emit (EvRecv (c, sd) (firstn n (inbox sd k)))
       (set_conns (update (conns w) c (set_inbox sd (skipn n (inbox sd k)) k)) w)).
Proof.
  intros Hk Hopen Hdata. unfold sock_recv. cbn [fst snd].
  rewrite Hk, Hopen. destruct (inbox sd k); [contradiction | reflexivity].
Qed.

Lemma sock_send_run w c sd k data :
  nth_error (conns w) c = Some k ->
  own_closed sd k = false ->
  sock_send (c, sd) data w
  = (Done (Z.of_nat (List.length data)),
     emit (EvSend (c, sd) data)
       (set_conns
          (update (conns w) c
             (set_inbox (other sd) (inbox (other sd) k ++ data) k)) w)).
Proof.
  intros Hk Hopen. unfold sock_send. cbn [fst snd].
  rewrite Hk, Hopen. reflexivity.
Qed.

Lemma sock_close_run w c sd k :
  nth_error (conns w) c = Some k ->
  sock_close (c, sd) w
  = (Done tt,
     emit (EvClose (c, sd))
       (set_conns (update (conns w) c (set_own_closed sd k)) w)).
Proof. intros Hk. unfold sock_close. cbn [fst snd]. rewrite Hk. reflexivity. Qed.

(** *** Relations every step of the service keeps *)

Section Invariant.
Variable R : world -> world -> Prop.
Variable ok : event -> Prop.
Hypothesis R_refl : forall w, R w w.
Hypothesis R_trans : forall a b c, R a b -> R b c -> R a c.
Hypothesis R_emit : forall w e, ok e -> R w (emit e w).
Hypothesis R_clock : forall w t, R w (set_clock t w).
Hypothesis R_conns : forall w cs, R w (set_conns cs w).
Hypothesis R_bound : forall w a, R w (set_bound a w).
Hypothesis R_listening : forall w b, R w (set_listening b w).
Hypothesis R_backlog : forall w q, R w (set_backlog q w).
Hypothesis R_acceptor : forall w t, R w (set_acceptor t w).
Hypothesis ok_plain : forall e, plain_event e -> ok e.

Lemma respects_ret {A} (a : A) : respects R (ret a).
Proof. intros w. apply R_refl. Qed.

Lemma respects_lift {A} (r : result A) : respects R (lift r).
Proof. intros w. destruct r; apply R_refl. Qed.

Lemma respects_bind {A B} (m : M A) (k : A -> M B) :
  respects R m -> (forall a, respects R (k a)) -> respects R (bind m k).
Proof.
  intros Hm Hk w. unfold bind. specialize (Hm w).
  destruct (m w) as [[a | e | |] w1]; cbn [snd] in *; try exact Hm.
  eapply R_trans; [exact Hm | apply Hk].
Qed.

Ltac step_by_step :=
  repeat match goal with
         | |- R ?w ?w => apply R_refl
         | |- R ?w (emit _ _) => eapply R_trans; [| apply R_emit]
         | |- R ?w (set_clock _ _) => eapply R_trans; [| apply R_clock]
         | |- R ?w (set_conns _ _) => eapply R_trans; [| apply R_conns]
         | |- R ?w (set_bound _ _) => eapply R_trans; [| apply R_bound]
         | |- R ?w (set_listening _ _) => eapply R_trans; [| apply R_listening]
         | |- R ?w (set_backlog _ _) => eapply R_trans; [| apply R_backlog]
         | |- R ?w (set_acceptor _ _) => eapply R_trans; [| apply R_acceptor]
         end.

Lemma respects_sleep z : respects R (sleep z).
Proof. intros w. cbn. step_by_step. apply ok_plain. exact I. Qed.

Lemma respects_time : respects R time.
Proof. intros w. apply R_refl. Qed.

Lemma respects_print line : respects R (print line).
Proof.
  intros w. unfold print. destruct (has_surrogate line); cbn [snd].
  - apply R_refl.
  - step_by_step. apply ok_plain. exact I.
Qed.

Lemma respects_bind_address a : ok (EvBind a) -> respects R (sock_bind a).
Proof.
  intros Ha w. unfold sock_bind. destruct (bound w); cbn [snd]; step_by_step.
  exact Ha.
Qed.

Lemma respects_listen n : respects R (sock_listen n).
Proof.
  intros w. unfold sock_listen. destruct (bound w); cbn [snd]; step_by_step.
  apply ok_plain. exact I.
Qed.

Lemma respects_accept : respects R sock_accept.
Proof.
  intros w. unfold sock_accept.
  destruct (backlog w) as [| c rest]; cbn [snd]; step_by_step.
  destruct (nth_error (conns w) c); cbn [snd]; step_by_step.
  apply ok_plain. exact I.
Qed.

Lemma respects_connect a :
  (forall c, ok (EvConnect c a)) -> respects R (sock_connect a).
Proof.
  intros Ha w. unfold sock_connect.
  destruct (bound w) as [b |]; cbn [snd]; step_by_step.
  destruct (listening w && address_eqb a b); cbn [snd]; step_by_step.
  apply Ha.
Qed.

Lemma respects_recv s n : respects R (sock_recv s n).
Proof.
  intros w. unfold sock_recv.
  destruct (nth_error (conns w) (fst s)) as [k |]; cbn [snd]; step_by_step.
  destruct (own_closed (snd s) k); cbn [snd]; step_by_step.
  destruct (inbox (snd s) k);
    [destruct (peer_closed (snd s) k) |]; cbn [snd]; step_by_step;
    apply ok_plain; exact I.
Qed.

Lemma respects_send s data : respects R (sock_send s data).
Proof.
  intros w. unfold sock_send.
  destruct (nth_error (conns w) (fst s)) as [k |]; cbn [snd]; step_by_step.
  destruct (own_closed (snd s) k); cbn [snd]; step_by_step.
  apply ok_plain. exact I.
Qed.

Lemma respects_close s : respects R (sock_close s).
Proof.
  intros w. unfold sock_close.
  destruct (nth_error (conns w) (fst s)) as [k |]; cbn [snd]; step_by_step.
  apply ok_plain. exact I.
Qed.

Variable float_repr : str -> str.

Lemma respects_get_weather_data city : respects R (get_weather_data city).
Proof.
  unfold get_weather_data.
  apply respects_bind; [apply respects_sleep | intros; apply respects_ret].
Qed.

Lemma respects_handle_client s : respects R (handle_client float_repr s).
Proof.
  unfold handle_client.
  repeat (apply respects_bind; [| intros ?]);
    auto using respects_recv, respects_lift, respects_sleep, respects_ret,
               respects_send, respects_close.
Qed.

Lemma respects_accept_loop n : respects R (accept_loop float_repr n).
Proof.
  induction n as [| n IH]; [intros w; apply R_refl |].
  cbn [accept_loop].
  repeat (apply respects_bind; [| intros ?]);
    auto using respects_accept, respects_print, respects_handle_client,
               respects_recv, respects_lift, respects_sleep, respects_ret,
               respects_send, respects_close.
Qed.

Lemma respects_serve : respects R (serve float_repr).
Proof. intros w. apply respects_accept_loop. Qed.

Lemma respects_run_weather_server :
  ok (EvBind localhost_8000) -> respects R (run_weather_server float_repr).
Proof.
  intros Ha. unfold run_weather_server.
  repeat (apply respects_bind; [| intros ?]);
    auto using respects_bind_address, respects_listen, respects_print,
               respects_serve.
Qed.

(** Threads: here the relation must not look at the running thread. *)
Hypothesis R_cur : forall w t, R w (set_cur t w).
Hypothesis R_threads : forall w n, R w (set_threads n w).
Hypothesis ok_start : forall t, ok (EvStart t).
Hypothesis ok_uncaught : forall e, ok (EvUncaught e).

Lemma respects_run_thread t (body : M unit) :
  respects R body -> respects R (run_thread t body).
Proof.
  intros Hb w. unfold run_thread.
  pose proof (Hb (set_cur t w)) as H.
  destruct (body (set_cur t w)) as [[[] | e | |] w1]; cbn [snd] in *.
  - eapply R_trans; [apply R_cur |]. eapply R_trans; [exact H | apply R_cur].
  - eapply R_trans; [apply R_cur |]. eapply R_trans; [exact H |].
    eapply R_trans; [apply R_emit, ok_uncaught | apply R_cur].
  - eapply R_trans; [apply R_cur |]. eapply R_trans; [exact H | apply R_cur].
  - eapply R_trans; [apply R_cur |]. eapply R_trans; [exact H | apply R_cur].
Qed.

Lemma respects_thread_start (target : M unit) :
  respects R target -> respects R (thread_start target).
Proof.
  intros Ht w. unfold thread_start.
  eapply R_trans; [apply R_threads |].
  eapply R_trans; [apply R_emit, ok_start |].
  apply respects_run_thread. exact Ht.
Qed.

Lemma respects_resume_acceptor : respects R (resume_acceptor float_repr).
Proof.
  intros w. unfold resume_acceptor.
  destruct (acceptor w) as [t |]; [| apply R_refl].
  eapply R_trans; [apply R_acceptor |].
  apply respects_run_thread, respects_serve.
Qed.

Lemma respects_blocking {A} (call : M A) :
  respects R call -> respects R (blocking float_repr call).
Proof.
  intros Hc w. unfold blocking. pose proof (Hc w) as H.
  destruct (call w) as [[a | e | |] w1]; cbn [snd] in *; try exact H.
  eapply R_trans; [exact H |].
  apply respects_bind; [apply respects_resume_acceptor | intros; exact Hc].
Qed.

Lemma respects_test_client city :
  (forall c, ok (EvConnect c localhost_8000)) ->
  respects R (test_client float_repr city).
Proof.
  intros Ha. unfold test_client.
  repeat (apply respects_bind; [| intros ?]);
    auto using respects_connect, respects_lift, respects_send,
               respects_blocking, respects_recv, respects_print,
               respects_close.
Qed.

Lemma respects_for_each {A} (l : list A) (body : A -> M unit) :
  (forall x, respects R (body x)) -> respects R (for_each l body).
Proof.
  intros Hb. induction l as [| x l IH]; cbn [for_each];
    [apply respects_ret | apply respects_bind; [apply Hb | intros; exact IH]].
Qed.

Lemma respects_main :
  ok (EvBind localhost_8000) ->
  (forall c, ok (EvConnect c localhost_8000)) ->
  respects R (main float_repr).
Proof.
  intros Hb Hc. unfold main.
  repeat (apply respects_bind; [| intros ?]);
    auto 6 using respects_thread_start, respects_run_weather_server,
               respects_time, respects_for_each, respects_test_client,
               respects_print, respects_connect, respects_lift, respects_send,
               respects_blocking, respects_recv, respects_close, respects_ret.
Qed.

End Invariant.

Lemma same_thread_refl w : same_thread w w.
Proof.
  repeat split. exists []. rewrite app_nil_r. split; [reflexivity | constructor].
Qed.

Lemma same_thread_trans a b c :
  same_thread a b -> same_thread b c -> same_thread a c.
Proof.
  intros (C1 & T1 & l1 & L1 & F1) (C2 & T2 & l2 & L2 & F2).
  split; [congruence |]. split; [congruence |].
  exists (l1 ++ l2). split; [rewrite L2, L1, app_assoc; reflexivity |].
  apply Forall_app. split; [exact F1 |].
  rewrite C1 in F2. exact F2.
Qed.

Lemma same_thread_emit w e : same_thread w (emit e w).
Proof.
  repeat split. exists [(cur w, e)]. split; [reflexivity |].
  repeat constructor.
Qed.

Lemma same_thread_frame w w' :
  cur w' = cur w -> threads w' = threads w -> log w' = log w ->
  same_thread w w'.
Proof.
  intros C T L. split; [exact C |]. split; [exact T |].
  exists []. rewrite app_nil_r. split; [exact L | constructor].
Qed.

Lemma same_address_frame w w' : log w' = log w -> same_address w w'.
Proof.
  intros L. exists []. rewrite app_nil_r. split; [exact L | constructor].
Qed.

Lemma same_address_refl w : same_address w w.
Proof. exists []. rewrite app_nil_r. split; [reflexivity | constructor]. Qed.

Lemma same_address_trans a b c :
  same_address a b -> same_address b c -> same_address a c.
Proof.
  intros (l1 & L1 & F1) (l2 & L2 & F2).
  exists (l1 ++ l2). split; [rewrite L2, L1, app_assoc; reflexivity |].
  apply Forall_app. split; assumption.
Qed.

Lemma same_address_emit w e : address_ok e -> same_address w (emit e w).
Proof.
  intros He. exists [(cur w, e)]. split; [reflexivity |].
  repeat constructor. exact He.
Qed.

Lemma plain_event_address_ok e : plain_event e -> address_ok e.
Proof. destruct e; cbn; tauto. Qed.

Section Service.
Variable float_repr : str -> str.
Hypothesis float_repr_ascii : forall lit, is_ascii (float_repr lit).

Lemma get_weather_data_run city w :
  get_weather_data city w
  = (Done (weather city), emit (EvSleep 2) (set_clock (clock w + 2) w)).
Proof. reflexivity. Qed.

Lemma handle_client_run w c k text d city :
  nth_error (conns w) c = Some k ->
  server_closed k = false ->
  to_server k <> [] ->
  Utf8.decode (firstn 1024 (to_server k)) = Ok text ->
  Json.loads text = Ok (VDict d) ->
  dict_get (py "city") d = Some city ->
  handle_client float_repr (c, Server) w
  = (Done tt, served c k (Json.dumps float_repr (weather city)) w).
Proof.
  intros Hk Hopen Hdata Htext Hjson Hcity.
  unfold handle_client.
  erewrite bind_done
    by (apply sock_recv_run with (k := k); assumption).
  cbn [inbox]. rewrite Htext, bind_lift_ok, Hjson, bind_lift_ok.
  cbn [getitem]. rewrite Hcity, bind_lift_ok.
  erewrite bind_done by apply get_weather_data_run.
  rewrite (JsonFacts.encode_ascii _
             (JsonFacts.dumps_ascii float_repr float_repr_ascii (weather city))).
  rewrite bind_lift_ok.
  erewrite bind_done
    by (apply sock_send_run with (k := set_inbox Server (skipn 1024 (to_server k)) k);
        [apply (nth_error_update _ _ _ _ Hk) | exact Hopen]).
  erewrite sock_close_run
    by (cbn [conns emit set_conns set_clock];
        eapply nth_error_update, nth_error_update, Hk).
  f_equal. apply world_ext; fields; try reflexivity.
  - rewrite !update_update. reflexivity.
  - rewrite <- !app_assoc. reflexivity.
Qed.

(** C1, amended: when the bytes [handle_client] reads, the first 1024
    of the request, are the UTF-8 text of a JSON object with a member
    [city] of value [c] (so for every request [{city: c}] of at most 1024
    bytes), it sends exactly the JSON text of [{city: c, temperature: 20,
    conditions: sunny}] and then closes the client socket. *)
Theorem handle_client_echoes_city w c k text d city :
  nth_error (conns w) c = Some k ->
  server_closed k = false ->
  to_server k <> [] ->
  Utf8.decode (firstn 1024 (to_server k)) = Ok text ->
  Json.loads text = Ok (VDict d) ->
  dict_get (py "city") d = Some city ->
  let reply := Json.dumps float_repr (weather city) in
  let w' := snd (handle_client float_repr (c, Server) w) in
  fst (handle_client float_repr (c, Server) w) = Done tt
  /\ Utf8.encode reply = Ok reply
  /\ log w' = log w ++ [(cur w, EvRecv (c, Server) (firstn 1024 (to_server k)));
                        (cur w, EvSleep 2);
                        (cur w, EvSend (c, Server) reply);
                        (cur w, EvClose (c, Server))]
  /\ nth_error (conns w') c = Some (answered 1024 reply k).
Proof.
  intros Hk Hopen Hdata Htext Hjson Hcity reply w'. subst w'.
  rewrite (handle_client_run w c k text d city) by assumption.
  cbn [fst snd served log conns]. fold reply.
  split; [reflexivity |].
  split; [apply JsonFacts.encode_ascii, JsonFacts.dumps_ascii, float_repr_ascii |].
  split; [reflexivity |].
  apply (nth_error_update _ _ _ _ Hk).
Qed.

Lemma sock_accept_run w c rest k :
  backlog w = c :: rest ->
  nth_error (conns w) c = Some k ->
  sock_accept w
  = (Done ((c, Server), peer k), emit (EvAccept c) (set_backlog rest w)).
Proof. intros Hb Hk. unfold sock_accept. rewrite Hb, Hk. reflexivity. Qed.

(** One turn of the loop: [accept], the line printed, then the handler. *)
Lemma accept_loop_turn n w c rest k :
  backlog w = c :: rest ->
  nth_error (conns w) c = Some k ->
  accept_loop float_repr (S n) w
  = bind (handle_client float_repr (c, Server))
      (fun _ => accept_loop float_repr n) (accepted c k w).
Proof.
  intros Hb Hk. cbn [accept_loop].
  erewrite bind_done by (apply sock_accept_run; eassumption).
  cbn [fst snd].
  erewrite bind_done by apply PrintFacts.print_accepted.
  unfold accepted. rewrite Hb. reflexivity.
Qed.

Lemma accept_loop_parks n w :
  backlog w = [] ->
  accept_loop float_repr (S n) w = (Blocked, set_acceptor (Some (cur w)) w).
Proof.
  intros Hb. cbn [accept_loop]. apply bind_blocked.
  unfold sock_accept. rewrite Hb. reflexivity.
Qed.

(** What [recv] gives the handler when there is something to read, or
    the client has closed: the connection is otherwise as it was. *)
Lemma sock_recv_ready w c k :
  nth_error (conns w) c = Some k ->
  server_closed k = false ->
  to_server k <> [] \/ client_closed k = true ->
  exists w1 k1,
    sock_recv (c, Server) 1024 w = (Done (firstn 1024 (to_server k)), w1)
    /\ nth_error (conns w1) c = Some k1
    /\ to_client k1 = to_client k /\ server_closed k1 = false.
Proof.
  intros Hk Hopen Hready.
  destruct (to_server k) as [| b bs] eqn:Ek.
  - destruct Hready as [Hne | Hclosed]; [contradiction |].
    exists (emit (EvRecv (c, Server) []) w), k.
    unfold sock_recv. cbn [fst snd own_closed inbox peer_closed].
    rewrite Hk, Hopen, Ek, Hclosed. repeat split; assumption.
  - exists (emit (EvRecv (c, Server) (firstn 1024 (b :: bs)))
              (set_conns (update (conns w) c
                            (set_inbox Server (skipn 1024 (b :: bs)) k)) w)),
           (set_inbox Server (skipn 1024 (b :: bs)) k).
    split.
    + rewrite <- Ek.
      apply (sock_recv_run w c Server k 1024 Hk Hopen).
      cbn [inbox]. rewrite Ek. discriminate.
    + cbn [conns emit set_conns]. split; [| split].
      * apply (nth_error_update _ _ _ _ Hk).
      * reflexivity.
      * exact Hopen.
Qed.

Lemma handle_client_keeps_backlog s w :
  backlog (snd (handle_client float_repr s w)) = backlog w.
Proof.
  apply (respects_handle_client
           (fun w w' => backlog w' = backlog w) (fun _ => True));
    try reflexivity; try (intros; exact I).
  intros a b c0 H1 H2. congruence.
Qed.

(** The handler stops at the first step that raises. *)
Lemma handle_client_raises w c k :
  nth_error (conns w) c = Some k ->
  server_closed k = false ->
  to_server k <> [] \/ client_closed k = true ->
  not_json (firstn 1024 (to_server k)) \/ lacks_city (firstn 1024 (to_server k)) ->
  exists e w' k',
    handle_client float_repr (c, Server) w = (Raised e, w')
    /\ nth_error (conns w') c = Some k'
    /\ to_client k' = to_client k /\ server_closed k' = false.
Proof.
  intros Hk Hopen Hready Hbad.
  destruct (sock_recv_ready w c k Hk Hopen Hready)
    as (w1 & k1 & Hrecv & Hk1 & Hout & Hopen1).
  unfold handle_client. rewrite (bind_done _ _ _ _ _ Hrecv).
  destruct Hbad as [[[e He] | (text & e & Htext & He)]
                   | (text & v & Htext & Hv & Hno)].
  - exists e, w1, k1. rewrite He. repeat split; assumption.
  - exists e, w1, k1. rewrite Htext, bind_lift_ok, He.
    repeat split; assumption.
  - rewrite Htext, bind_lift_ok, Hv, bind_lift_ok.
    destruct v as [| b | z | lit | s | l | d];
      try (exists TypeError, w1, k1; repeat split; assumption).
    exists (KeyError (py "city")), w1, k1.
    cbn [getitem]. rewrite (Hno d eq_refl). repeat split; assumption.
Qed.

(** C2, amended: a request whose first 1024 bytes, the ones
    [handle_client] reads, are not valid JSON, or are JSON without a key
    [city], makes [handle_client] raise; nothing is sent and the socket
    is not closed; no handler catches the exception: it comes out of
    the loop of [run_weather_server], which serves no later
    connection. *)
Theorem bad_request_is_not_caught n w c rest k :
  backlog w = c :: rest ->
  nth_error (conns w) c = Some k ->
  server_closed k = false ->
  to_server k <> [] \/ client_closed k = true ->
  not_json (firstn 1024 (to_server k)) \/ lacks_city (firstn 1024 (to_server k)) ->
  exists e w' k',
    handle_client float_repr (c, Server) (accepted c k w) = (Raised e, w')
    /\ accept_loop float_repr (S n) w = (Raised e, w')
    /\ serve float_repr w = (Raised e, w')
    /\ nth_error (conns w') c = Some k'
    /\ to_client k' = to_client k /\ server_closed k' = false
    /\ backlog w' = rest.
Proof.
  intros Hb Hk Hopen Hready Hbad.
  destruct (handle_client_raises (accepted c k w) c k Hk Hopen Hready Hbad)
    as (e & w' & k' & Hrun & Hk' & Hout & Hopen').
  exists e, w', k'.
  assert (Hloop : forall m, accept_loop float_repr (S m) w = (Raised e, w')).
  { intros m. rewrite (accept_loop_turn m w c rest k Hb Hk).
    apply bind_raised. exact Hrun. }
  repeat split; try assumption; try apply Hloop.
  pose proof (handle_client_keeps_backlog (c, Server) (accepted c k w)) as Hq.
  rewrite Hrun in Hq. cbn [snd] in Hq. rewrite Hq. fields.
  rewrite Hb. reflexivity.
Qed.

(** The loop of the server never returns: it parks in [accept], or an
    exception comes out of it. *)
Lemma accept_loop_never_returns n w :
  fst (accept_loop float_repr n w) <> Done tt.
Proof.
  revert w. induction n as [| n IH]; intros w; [discriminate |].
  cbn [accept_loop]. unfold bind.
  destruct (sock_accept w) as [[[s a] | e | |] w1]; try discriminate.
  destruct (print _ w1) as [[[] | e | |] w2]; try discriminate.
  destruct (handle_client float_repr (fst (s, a)) w2) as [[[] | e | |] w3];
    try discriminate.
  apply IH.
Qed.

Lemma serve_turn w c rest k text d city :
  backlog w = c :: rest ->
  nth_error (conns w) c = Some k ->
  server_closed k = false ->
  to_server k <> [] ->
  Utf8.decode (firstn 1024 (to_server k)) = Ok text ->
  Json.loads text = Ok (VDict d) ->
  dict_get (py "city") d = Some city ->
  serve float_repr w
  = serve float_repr
      (served c k (Json.dumps float_repr (weather city)) (accepted c k w)).
Proof.
  intros Hb Hk Hopen Hdata Htext Hjson Hcity.
  unfold serve at 1. rewrite Hb. cbn [List.length].
  rewrite (accept_loop_turn _ w c rest k Hb Hk).
  erewrite bind_done
    by (apply (handle_client_run (accepted c k w) c k text d city);
        assumption).
  unfold serve. cbn [served accepted backlog emit set_backlog].
  rewrite Hb. reflexivity.
Qed.

Lemma serve_parks w :
  backlog w = [] ->
  serve float_repr w = (Blocked, set_acceptor (Some (cur w)) w).
Proof. intros H. unfold serve. rewrite H. apply accept_loop_parks, H. Qed.

(** C3, amended: [run_weather_server] accepts the connections one after
    another; each one it handles (sleeping two seconds) and closes, and
    then it goes back to [accept] for the next one.  The loop never
    completes: with no connection waiting it parks in [accept], and only
    an exception ends it. *)
Theorem server_goes_back_to_accept w c rest k text d city :
  backlog w = c :: rest ->
  nth_error (conns w) c = Some k ->
  server_closed k = false ->
  to_server k <> [] ->
  Utf8.decode (firstn 1024 (to_server k)) = Ok text ->
  Json.loads text = Ok (VDict d) ->
  dict_get (py "city") d = Some city ->
  serve float_repr w
  = serve float_repr
      (served c k (Json.dumps float_repr (weather city)) (accepted c k w))
  /\ (forall n w0, fst (accept_loop float_repr n w0) <> Done tt)
  /\ (forall w0, fst (serve float_repr w0) <> Done tt)
  /\ (forall w0, fst (run_weather_server float_repr w0) <> Done tt)
  /\ (forall w0, backlog w0 = [] ->
                 serve float_repr w0
                 = (Blocked, set_acceptor (Some (cur w0)) w0)).
Proof.
  intros Hb Hk Hopen Hdata Htext Hjson Hcity.
  split; [apply (serve_turn w c rest k text d city); assumption |].
  split; [apply accept_loop_never_returns |].
  split; [intros w0; apply accept_loop_never_returns |].
  split.
  - intros w0. unfold run_weather_server, bind.
    destruct (sock_bind localhost_8000 w0) as [[[] | e | |] w1];
      try discriminate.
    destruct (sock_listen 5 w1) as [[[] | e | |] w2]; try discriminate.
    destruct (print _ w2) as [[[] | e | |] w3]; try discriminate.
    apply accept_loop_never_returns.
  - apply serve_parks.
Qed.

(** C5, amended (the general part): the loop of the server and the
    handler run in the thread that called them and start no thread. *)
Lemma server_loop_same_thread n w :
  same_thread w (snd (accept_loop float_repr n w)).
Proof.
  apply (respects_accept_loop same_thread (fun _ => True));
    try (intros; apply same_thread_frame; reflexivity);
    try (intros; exact I).
  - apply same_thread_trans.
  - intros; apply same_thread_emit.
Qed.

End Service.

Lemma literal_repr_ascii lit : is_ascii (literal_repr lit).
Proof.
  unfold literal_repr.
  destruct (forallb (fun c => c <? 128) lit) eqn:E; [| repeat constructor].
  apply Forall_forall. intros x Hx.
  rewrite forallb_forall in E. apply N.ltb_lt, E, Hx.
Qed.

Lemma handle_client_echoes_city_witness :
  let payload := Json.dumps literal_repr (request (py "London")) in
  let reply := Json.dumps literal_repr (weather (VStr (py "London"))) in
  let w := one_request payload in
  let w' := snd (handle_client literal_repr (0%nat, Server) w) in
  fst (handle_client literal_repr (0%nat, Server) w) = Done tt
  /\ Utf8.encode reply = Ok reply
  /\ log w' = [(1%nat, EvRecv (0%nat, Server) payload);
               (1%nat, EvSleep 2);
               (1%nat, EvSend (0%nat, Server) reply);
               (1%nat, EvClose (0%nat, Server))]
  /\ nth_error (conns w') 0
     = Some {| peer := ephemeral 0; to_server := []; to_client := reply;
               client_closed := false; server_closed := true |}.
Proof.
  intros payload reply w w'.
  exact (handle_client_echoes_city literal_repr literal_repr_ascii
           w 0%nat
           {| peer := ephemeral 0; to_server := payload; to_client := [];
              client_closed := false; server_closed := false |}
           payload [(py "city", VStr (py "London"))] (VStr (py "London"))
           eq_refl eq_refl ltac:(discriminate) eq_refl eq_refl eq_refl).
Defined.

(** C1, read to the letter, fails on a long city name: of a request of 1025
    bytes [handle_client] reads 1024, [json.loads] rejects them, nothing
    is sent and the socket stays open. *)
Lemma long_city_is_not_echoed :
  let city := repeat 97 1013 in
  let payload := Json.dumps literal_repr (request city) in
  let w := one_request payload in
  List.length payload = 1025%nat
  /\ city_of payload = Ok (VStr city)
  /\ handle_client literal_repr (0%nat, Server) w
     = (Raised JSONDecodeError,
        emit (EvRecv (0%nat, Server) (firstn 1024 payload))
          (set_conns [{| peer := ephemeral 0; to_server := [125];
                         to_client := []; client_closed := false;
                         server_closed := false |}] w))
  /\ ~ echoes_every_request literal_repr.
Proof.
  intros city payload w.
  assert (Hrun : handle_client literal_repr (0%nat, Server) w
     = (Raised JSONDecodeError,
        emit (EvRecv (0%nat, Server) (firstn 1024 payload))
          (set_conns [{| peer := ephemeral 0; to_server := [125];
                         to_client := []; client_closed := false;
                         server_closed := false |}] w)))
    by (vm_compute; reflexivity).
  split; [vm_compute; reflexivity |].
  split; [vm_compute; reflexivity |].
  split; [exact Hrun |].
  intros H.
  destruct (H w 0%nat
              {| peer := ephemeral 0; to_server := payload; to_client := [];
                 client_closed := false; server_closed := false |}
              city eq_refl eq_refl eq_refl) as [Hdone _].
  rewrite Hrun in Hdone. discriminate Hdone.
Qed.

End WeatherFacts.

(** ** The bound of the loop of the server is never reached *)

Module LoopFacts.
Import Net Weather WeatherFacts.

Lemma ends_ret {A} (a : A) : ends (ret a).
Proof. intros w. discriminate. Qed.

Lemma ends_lift {A} (r : result A) : ends (lift r).
Proof. intros w. destruct r; discriminate. Qed.

Lemma ends_bind {A B} (m : M A) (k : A -> M B) :
  ends m -> (forall a, ends (k a)) -> ends (bind m k).
Proof.
  intros Hm Hk w. unfold bind. specialize (Hm w).
  destruct (m w) as [[a | e | |] w1]; cbn [fst] in *;
    try discriminate; [apply Hk | contradiction].
Qed.

Lemma ends_sleep z : ends (sleep z).
Proof. intros w. discriminate. Qed.

Lemma ends_time : ends time.
Proof. intros w. discriminate. Qed.

Lemma ends_print line : ends (print line).
Proof. intros w. unfold print. destruct (has_surrogate line); discriminate. Qed.

Lemma ends_bind_address a : ends (sock_bind a).
Proof. intros w. unfold sock_bind. destruct (bound w); discriminate. Qed.

Lemma ends_listen n : ends (sock_listen n).
Proof. intros w. unfold sock_listen. destruct (bound w); discriminate. Qed.

Lemma ends_connect a : ends (sock_connect a).
Proof.
  intros w. unfold sock_connect.
  destruct (bound w) as [b |]; [| discriminate].
  destruct (listening w && address_eqb a b); discriminate.
Qed.

Lemma ends_recv s n : ends (sock_recv s n).
Proof.
  intros w. unfold sock_recv.
  destruct (nth_error (conns w) (fst s)) as [k |]; [| discriminate].
  destruct (own_closed (snd s) k); [discriminate |].
  destruct (inbox (snd s) k); [| discriminate].
  destruct (peer_closed (snd s) k); discriminate.
Qed.

Lemma ends_send s data : ends (sock_send s data).
Proof.
  intros w. unfold sock_send.
  destruct (nth_error (conns w) (fst s)) as [k |]; [| discriminate].
  destruct (own_closed (snd s) k); discriminate.
Qed.

Lemma ends_close s : ends (sock_close s).
Proof.
  intros w. unfold sock_close.
  destruct (nth_error (conns w) (fst s)); discriminate.
Qed.

Section Service.
Variable float_repr : str -> str.

Lemma ends_handle_client s : ends (handle_client float_repr s).
Proof.
  unfold handle_client, get_weather_data.
  repeat (apply ends_bind; [| intros ?]);
    auto using ends_recv, ends_lift, ends_sleep, ends_ret, ends_send,
               ends_close.
Qed.

(** With more turns than connections waiting, the loop parks or raises
    before its bound. *)
Lemma accept_loop_ends n w :
  (List.length (backlog w) < n)%nat ->
  fst (accept_loop float_repr n w) <> Unfinished.
Proof.
  revert w. induction n as [| n IH]; intros w Hlt; [lia |].
  cbn [accept_loop]. unfold bind at 1. unfold sock_accept.
  destruct (backlog w) as [| c rest] eqn:Hb; [discriminate |].
  destruct (nth_error (conns w) c) as [k |]; [| discriminate].
  unfold bind at 1. rewrite PrintFacts.print_accepted. cbn [fst snd].
  set (w2 := emit _ (emit _ _)).
  unfold bind.
  pose proof (ends_handle_client (c, Server) w2) as Hend.
  pose proof (handle_client_keeps_backlog float_repr (c, Server) w2) as Hkeep.
  destruct (handle_client float_repr (c, Server) w2) as [[[] | e | |] w3];
    cbn [fst snd] in *; try discriminate; [| contradiction].
  apply IH. rewrite Hkeep. subst w2. cbn. simpl in Hlt. lia.
Qed.

Lemma ends_serve : ends (serve float_repr).
Proof. intros w. apply accept_loop_ends. lia. Qed.

Lemma ends_run_weather_server : ends (run_weather_server float_repr).
Proof.
  unfold run_weather_server.
  repeat (apply ends_bind; [| intros ?]);
    auto using ends_bind_address, ends_listen, ends_print, ends_serve.
Qed.

Lemma ends_run_thread t (body : M unit) :
  ends body -> ends (run_thread t body).
Proof.
  intros Hb w. unfold run_thread. specialize (Hb (set_cur t w)).
  destruct (body (set_cur t w)) as [[[] | e | |] w1]; cbn [fst] in *;
    try discriminate. contradiction.
Qed.

Lemma ends_blocking {A} (call : M A) :
  ends call -> ends (blocking float_repr call).
Proof.
  intros Hc w. unfold blocking. pose proof (Hc w) as H.
  destruct (call w) as [[a | e | |] w1]; cbn [fst] in *;
    try discriminate; [| contradiction].
  apply ends_bind; [| intros _; exact Hc].
  intros w0. unfold resume_acceptor.
  destruct (acceptor w0); [| discriminate].
  apply ends_run_thread, ends_serve.
Qed.

Lemma ends_test_client city : ends (test_client float_repr city).
Proof.
  unfold test_client.
  repeat (apply ends_bind; [| intros ?]);
    auto using ends_connect, ends_lift, ends_send, ends_blocking, ends_recv,
               ends_print, ends_close.
Qed.

Lemma ends_for_each {A} (l : list A) (body : A -> M unit) :
  (forall x, ends (body x)) -> ends (for_each l body).
Proof.
  intros Hb. induction l as [| x l IH]; cbn [for_each];
    [apply ends_ret | apply ends_bind; [apply Hb | intros; exact IH]].
Qed.

(** No run of the demo is cut by the bound of the model. *)
Lemma ends_main : ends (main float_repr).
Proof.
  unfold main.
  apply ends_bind;
    [intros w; apply ends_run_thread, ends_run_weather_server | intros _].
  apply ends_bind; [apply ends_time | intros start_time].
  apply ends_bind;
    [apply ends_for_each, ends_test_client | intros _].
  apply ends_bind; [apply ends_time | intros end_time; apply ends_print].
Qed.

End Service.
End LoopFacts.

Module RoundTrip.
Import Net Weather Json.

Lemma object_members_step scan n s acc :
  object_members scan (S n) s acc
  = rbind (scanstring s) (fun kr =>
      match skip_ws (snd kr) with
      | c :: r1 =>
          if c =? 58 then
            rbind (scan (skip_ws r1)) (fun vr =>
              let pairs := acc ++ [(fst kr, fst vr)] in
              match skip_ws (snd vr) with
              | c2 :: r3 =>
                  if c2 =? 125 then Ok (VDict (dict_of_pairs pairs), r3)
                  else if c2 =? 44 then
                    match skip_ws r3 with
                    | q :: r4 =>
                        if q =? quote then object_members scan n r4 pairs
                        else Raise JSONDecodeError
                    | [] => Raise JSONDecodeError
                    end
                  else Raise JSONDecodeError
              | [] => Raise JSONDecodeError
              end)
          else Raise JSONDecodeError
      | [] => Raise JSONDecodeError
      end).
Proof. reflexivity. Qed.

(** A member written by [dumps] and followed by another one. *)
Lemma object_member_more scan n s key rest0 acc v s' :
  scanstring s = Ok (key, 58 :: 32 :: rest0) ->
  scan (skip_ws rest0) = Ok (v, 44 :: 32 :: quote :: s') ->
  object_members scan (S n) s acc
  = object_members scan n s' (acc ++ [(key, v)]).
Proof.
  intros Hkey Hval. rewrite object_members_step, Hkey.
  cbn [rbind fst snd].
  change (skip_ws (58 :: 32 :: rest0)) with (58 :: 32 :: rest0).
  cbv beta iota. change (58 =? 58) with true. cbv beta iota.
  change (skip_ws (32 :: rest0)) with (skip_ws rest0).
  rewrite Hval. reflexivity.
Qed.

(** The last member written by [dumps]. *)
Lemma object_member_last scan n s key rest0 acc v r :
  scanstring s = Ok (key, 58 :: 32 :: rest0) ->
  scan (skip_ws rest0) = Ok (v, 125 :: r) ->
  object_members scan (S n) s acc
  = Ok (VDict (dict_of_pairs (acc ++ [(key, v)])), r).
Proof.
  intros Hkey Hval. rewrite object_members_step, Hkey.
  cbn [rbind fst snd].
  change (skip_ws (58 :: 32 :: rest0)) with (58 :: 32 :: rest0).
  cbv beta iota. change (58 =? 58) with true. cbv beta iota.
  change (skip_ws (32 :: rest0)) with (skip_ws rest0).
  rewrite Hval. reflexivity.
Qed.

Lemma scan_once_dumped_string f s rest :
  Forall plain s ->
  scan_once (S f) (skip_ws (encode_basestring_ascii s ++ rest))
  = Ok (VStr s, rest).
Proof.
  intros Hs. unfold encode_basestring_ascii.
  change (skip_ws ((quote :: escape s ++ [quote]) ++ rest))
    with (quote :: (escape s ++ [quote]) ++ rest).
  change (scan_once (S f) (quote :: (escape s ++ [quote]) ++ rest))
    with (rbind (scanstring ((escape s ++ [quote]) ++ rest))
            (fun xr => Ok (VStr (fst xr), snd xr))).
  rewrite <- app_assoc. cbn [app].
  rewrite JsonFacts.scanstring_escape by exact Hs. reflexivity.
Qed.

Lemma loads_object text a b r1 v :
  text = 123 :: 34 :: a :: b :: r1 ->
  object_members (scan_once (S (S (S (S (List.length r1))))))
    (S (S (S (List.length r1)))) (a :: b :: r1) [] = Ok (v, []) ->
  loads text = Ok v.
Proof.
  intros -> H.
  change (loads (123 :: 34 :: a :: b :: r1))
    with (rbind
            (object_members (scan_once (S (S (S (S (List.length r1))))))
               (S (S (S (List.length r1)))) (a :: b :: r1) [])
            (fun vr => match skip_ws (snd vr) with
                       | [] => Ok (fst vr)
                       | _ :: _ => Raise JSONDecodeError
                       end)).
  rewrite H. reflexivity.
Qed.

Lemma scan_once_twenty f rest :
  scan_once (S f) (skip_ws (50 :: 48 :: 44 :: rest))
  = Ok (VInt 20, 44 :: rest).
Proof. reflexivity. Qed.

Section Codec.
Variable float_repr : str -> str.

Lemma dumps_request city :
  dumps float_repr (request city)
  = 123 :: 34 :: py "city" ++ 34 :: 58 :: 32
      :: encode_basestring_ascii city ++ [125].
Proof. reflexivity. Qed.

Lemma dumps_weather city :
  dumps float_repr (weather (VStr city))
  = 123 :: 34 :: py "city" ++ 34 :: 58 :: 32
      :: encode_basestring_ascii city
      ++ 44 :: 32 :: 34 :: py "temperature" ++ 34 :: 58 :: 32 :: 50 :: 48
      :: 44 :: 32 :: 34 :: py "conditions" ++ 34 :: 58 :: 32
      :: encode_basestring_ascii (py "sunny") ++ [125].
Proof.
  unfold weather. rewrite JsonFacts.dumps_dict.
  cbn [map fst snd join].
  change (dumps float_repr (VStr city)) with (encode_basestring_ascii city).
  change (py "{" ++ ?x) with (123 :: x).
  change (encode_basestring_ascii (py "city") ++ ?x)
    with (34 :: py "city" ++ 34 :: x).
  change (py ": " ++ ?x) with (58 :: 32 :: x).
  do 2 f_equal. rewrite <- !app_assoc. do 4 f_equal.
  reflexivity.
Qed.

Lemma loads_request city :
  Forall plain city ->
  loads (dumps float_repr (request city)) = Ok (request city).
Proof.
  intros Hc.
  apply (loads_object _ 99 105
           (py "ty" ++ 34 :: 58 :: 32 :: encode_basestring_ascii city ++ [125]));
    [reflexivity |].
  rewrite (object_member_last _ _ _ (py "city")
             (encode_basestring_ascii city ++ [125]) [] (VStr city) []);
    [reflexivity | reflexivity |].
  apply scan_once_dumped_string. exact Hc.
Qed.

Lemma sunny_plain : Forall plain (py "sunny").
Proof. repeat constructor. Qed.

Lemma loads_weather city :
  Forall plain city ->
  loads (dumps float_repr (weather (VStr city))) = Ok (weather (VStr city)).
Proof.
  intros Hc. rewrite dumps_weather.
  eapply (loads_object _ 99 105); [reflexivity |].
  rewrite (object_member_more _ _ _ (py "city")
             (encode_basestring_ascii city
              ++ 44 :: 32 :: 34 :: py "temperature" ++ 34 :: 58 :: 32 :: 50 :: 48
              :: 44 :: 32 :: 34 :: py "conditions" ++ 34 :: 58 :: 32
              :: encode_basestring_ascii (py "sunny") ++ [125])
             [] (VStr city)
             (py "temperature" ++ 34 :: 58 :: 32 :: 50 :: 48
              :: 44 :: 32 :: 34 :: py "conditions" ++ 34 :: 58 :: 32
              :: encode_basestring_ascii (py "sunny") ++ [125]));
    [| reflexivity | apply scan_once_dumped_string; exact Hc].
  rewrite (object_member_more _ _ _ (py "temperature")
             (50 :: 48 :: 44 :: 32 :: 34 :: py "conditions" ++ 34 :: 58 :: 32
              :: encode_basestring_ascii (py "sunny") ++ [125])
             _ (VInt 20)
             (py "conditions" ++ 34 :: 58 :: 32
              :: encode_basestring_ascii (py "sunny") ++ [125]));
    [| reflexivity | apply scan_once_twenty].
  rewrite (object_member_last _ _ _ (py "conditions")
             (encode_basestring_ascii (py "sunny") ++ [125])
             _ (VStr (py "sunny")) []);
    [reflexivity | reflexivity |].
  apply scan_once_dumped_string, sunny_plain.
Qed.

Lemma dumps_request_shorter city :
  (List.length (dumps float_repr (request city))
   <= List.length (dumps float_repr (weather (VStr city))))%nat.
Proof.
  rewrite dumps_request, dumps_weather.
  repeat (rewrite length_app || cbn [List.length]).
  lia.
Qed.

Hypothesis float_repr_ascii : forall lit, is_ascii (float_repr lit).

Import WeatherFacts.

Ltac fields :=
  cbn [clock conns bound listening backlog acceptor cur threads log
       emit set_clock set_conns set_bound set_listening set_backlog
       set_acceptor set_cur set_threads served accepted sent replied visited].

Lemma sock_connect_run w :
  bound w = Some localhost_8000 -> listening w = true ->
  sock_connect localhost_8000 w
  = (Done (List.length (conns w), Client),
     emit (EvConnect (List.length (conns w)) localhost_8000)
       (set_backlog (backlog w ++ [List.length (conns w)])
          (set_conns
             (conns w ++ [{| peer := ephemeral (List.length (conns w));
                             to_server := []; to_client := [];
                             client_closed := false;
                             server_closed := false |}]) w))).
Proof.
  intros Hb Hl. unfold sock_connect. rewrite Hb, Hl. reflexivity.
Qed.

(** The client connects and sends its request. *)
Lemma client_sends {A} (rest : socket -> M A) w city :
  bound w = Some localhost_8000 -> listening w = true ->
  bind (sock_connect localhost_8000) (fun client =>
    bind (lift (Utf8.encode
                  (dumps float_repr
                     (VDict (dict_of_pairs [(py "city", VStr city)])))))
      (fun req => bind (sock_send client req) (fun _ => rest client))) w
  = rest (List.length (conns w), Client)
      (sent (dumps float_repr (request city)) w).
Proof.
  intros Hb Hl.
  erewrite bind_done by (apply sock_connect_run; assumption).
  change (VDict (dict_of_pairs [(py "city", VStr city)])) with (request city).
  rewrite (JsonFacts.encode_ascii _
             (JsonFacts.dumps_ascii float_repr float_repr_ascii (request city))).
  rewrite bind_lift_ok.
  erewrite bind_done
    by (apply sock_send_run; [fields; apply nth_error_snoc | reflexivity]).
  f_equal. apply world_ext; fields; try reflexivity.
  - rewrite update_snoc. reflexivity.
  - rewrite <- app_assoc. reflexivity.
Qed.

Lemma request_not_empty city : dumps float_repr (request city) <> [].
Proof. rewrite dumps_request. discriminate. Qed.

Lemma weather_not_empty city : dumps float_repr (weather (VStr city)) <> [].
Proof. rewrite dumps_weather. discriminate. Qed.

(** The parked server wakes, answers the request and parks again. *)
Lemma server_answers w t city :
  parked t w -> Forall plain city ->
  (List.length (dumps float_repr (weather (VStr city))) <= 1024)%nat ->
  resume_acceptor float_repr (sent (dumps float_repr (request city)) w)
  = (Done tt,
     replied t (dumps float_repr (request city))
       (dumps float_repr (weather (VStr city))) w).
Proof.
  intros (Hb & Hl & Ha & Hq) Hc Hlen.
  assert (Hreq : (List.length (dumps float_repr (request city)) <= 1024)%nat)
    by (pose proof (dumps_request_shorter city); lia).
  assert (Hne : dumps float_repr (request city) <> [])
    by apply request_not_empty.
  assert (Hdec : Utf8.decode (dumps float_repr (request city))
                 = Ok (dumps float_repr (request city)))
    by apply JsonFacts.decode_ascii, JsonFacts.dumps_ascii, float_repr_ascii.
  assert (Hloads : loads (dumps float_repr (request city))
                   = Ok (VDict [(py "city", VStr city)]))
    by apply loads_request, Hc.
  generalize dependent (dumps float_repr (request city)).
  intros req Hreq Hne Hdec Hloads.
  set (reply := dumps float_repr (weather (VStr city))).
  unfold resume_acceptor. fields. rewrite Ha. unfold run_thread.
  rewrite (serve_turn float_repr float_repr_ascii
             (set_cur t (set_acceptor None (sent req w)))
             (List.length (conns w)) []
             {| peer := ephemeral (List.length (conns w)); to_server := req;
                to_client := []; client_closed := false;
                server_closed := false |}
             req [(py "city", VStr city)] (VStr city)).
  - rewrite serve_parks by (fields; rewrite Hq; reflexivity).
    f_equal. apply world_ext; fields; try reflexivity.
    + rewrite update_snoc. unfold answered.
      cbn [peer to_server to_client client_closed server_closed app].
      rewrite skipn_all2 by lia. reflexivity.
    + rewrite Hq. reflexivity.
    + cbn [to_server peer]. rewrite firstn_all2 by lia.
      rewrite <- !app_assoc. reflexivity.
  - fields. rewrite Hq. reflexivity.
  - fields. apply nth_error_snoc.
  - reflexivity.
  - exact Hne.
  - cbn [to_server]. rewrite firstn_all2 by lia. exact Hdec.
  - exact Hloads.
  - reflexivity.
Qed.

Lemma client_waits req w :
  sock_recv (List.length (conns w), Client) 1024 (sent req w)
  = (Blocked, sent req w).
Proof.
  unfold sock_recv. fields. cbn [fst snd].
  rewrite nth_error_snoc. reflexivity.
Qed.

Lemma client_reads t req reply w :
  reply <> [] -> (List.length reply <= 1024)%nat ->
  sock_recv (List.length (conns w), Client) 1024 (replied t req reply w)
  = (Done reply,
     emit (EvRecv (List.length (conns w), Client) reply)
       (set_conns
          (conns w ++ [{| peer := ephemeral (List.length (conns w));
                          to_server := []; to_client := [];
                          client_closed := false; server_closed := true |}])
          (replied t req reply w))).
Proof.
  intros Hne Hlen.
  erewrite sock_recv_run
    by (try (fields; apply nth_error_snoc); (reflexivity || exact Hne)).
  cbn [inbox to_client]. rewrite firstn_all2, skipn_all2 by exact Hlen.
  fields. rewrite update_snoc. reflexivity.
Qed.

Lemma blocking_wakes {A} (call : M A) w w' :
  call w = (Blocked, w') ->
  blocking float_repr call w
  = bind (resume_acceptor float_repr) (fun _ => call) w'.
Proof. intros H. unfold blocking. rewrite H. reflexivity. Qed.

Lemma client_gets_reply w t city :
  parked t w -> Forall plain city ->
  (List.length (dumps float_repr (weather (VStr city))) <= 1024)%nat ->
  blocking float_repr (sock_recv (List.length (conns w), Client) 1024)
    (sent (dumps float_repr (request city)) w)
  = (Done (dumps float_repr (weather (VStr city))),
     emit (EvRecv (List.length (conns w), Client)
             (dumps float_repr (weather (VStr city))))
       (set_conns
          (conns w ++ [{| peer := ephemeral (List.length (conns w));
                          to_server := []; to_client := [];
                          client_closed := false; server_closed := true |}])
          (replied t (dumps float_repr (request city))
             (dumps float_repr (weather (VStr city))) w))).
Proof.
  intros Hp Hc Hlen.
  rewrite (blocking_wakes _ _ _ (client_waits _ w)).
  erewrite bind_done by (apply server_answers; eassumption).
  apply client_reads; [apply weather_not_empty | exact Hlen].
Qed.

(** [test_client] against a parked server, up to its [print]. *)
Lemma test_client_hears w t city :
  parked t w -> Forall plain city ->
  (List.length (dumps float_repr (weather (VStr city))) <= 1024)%nat ->
  test_client float_repr city w
  = bind (print (py "Received weather for " ++ city ++ py ": "
                 ++ dumps float_repr (weather (VStr city))))
      (fun _ => sock_close (List.length (conns w), Client))
      (emit (EvRecv (List.length (conns w), Client)
               (dumps float_repr (weather (VStr city))))
         (set_conns
            (conns w ++ [{| peer := ephemeral (List.length (conns w));
                            to_server := []; to_client := [];
                            client_closed := false; server_closed := true |}])
            (replied t (dumps float_repr (request city))
               (dumps float_repr (weather (VStr city))) w))).
Proof.
  intros Hp Hc Hlen. pose proof Hp as (Hb & Hl & Ha & Hq).
  unfold test_client. rewrite client_sends by assumption. cbv beta.
  erewrite bind_done by (apply client_gets_reply; eassumption).
  rewrite (JsonFacts.decode_ascii _
             (JsonFacts.dumps_ascii float_repr float_repr_ascii
                (weather (VStr city)))).
  rewrite bind_lift_ok. reflexivity.
Qed.

(** [test_client] against a parked server: the whole exchange, for a
    city [print] can write. *)
Lemma test_client_run w t city :
  parked t w -> Forall plain city ->
  (List.length (dumps float_repr (weather (VStr city))) <= 1024)%nat ->
  has_surrogate city = false ->
  test_client float_repr city w
  = (Done tt,
     visited t city (dumps float_repr (request city))
       (dumps float_repr (weather (VStr city))) w).
Proof.
  intros Hp Hc Hlen Hs.
  rewrite (test_client_hears w t city Hp Hc Hlen).
  erewrite bind_done.
  2:{ apply PrintFacts.print_ok. rewrite PrintFacts.received_line; [exact Hs |].
      apply JsonFacts.dumps_ascii, float_repr_ascii. }
  erewrite sock_close_run by (fields; apply nth_error_snoc).
  f_equal. apply world_ext; fields; try reflexivity.
  - rewrite !update_snoc. reflexivity.
  - rewrite <- !app_assoc. reflexivity.
Qed.

Lemma visited_parked w t city req reply :
  parked t w -> parked t (visited t city req reply w).
Proof.
  intros (Hb & Hl & Ha & Hq). repeat split; assumption || reflexivity.
Qed.

Lemma city_of_request city :
  Forall plain city ->
  city_of (dumps float_repr (request city)) = Ok (VStr city).
Proof.
  intros Hc. unfold city_of.
  rewrite (JsonFacts.decode_ascii _
             (JsonFacts.dumps_ascii float_repr float_repr_ascii (request city))).
  cbn [rbind]. rewrite loads_request by exact Hc. reflexivity.
Qed.

Lemma city_of_weather city :
  Forall plain city ->
  city_of (dumps float_repr (weather (VStr city))) = Ok (VStr city).
Proof.
  intros Hc. unfold city_of.
  rewrite (JsonFacts.decode_ascii _
             (JsonFacts.dumps_ascii float_repr float_repr_ascii
                (weather (VStr city)))).
  cbn [rbind]. rewrite loads_weather by exact Hc. reflexivity.
Qed.

Lemma reply_of_request city :
  Forall plain city ->
  (List.length (dumps float_repr (request city)) <= 1024)%nat ->
  reply_of float_repr (dumps float_repr (request city))
  = dumps float_repr (weather (VStr city)).
Proof.
  intros Hc Hlen. unfold reply_of.
  rewrite (handle_client_run float_repr float_repr_ascii
             (one_request (dumps float_repr (request city))) 0%nat
             {| peer := ephemeral 0; to_server := dumps float_repr (request city);
                to_client := []; client_closed := false;
                server_closed := false |}
             (dumps float_repr (request city))
             [(py "city", VStr city)] (VStr city));
    try reflexivity.
  - apply request_not_empty.
  - cbn [to_server]. rewrite firstn_all2 by exact Hlen.
    apply JsonFacts.decode_ascii, JsonFacts.dumps_ascii, float_repr_ascii.
  - apply loads_request, Hc.
Qed.

(** C4, amended: the demo has a round trip.  For every city name that
    holds no first half of a surrogate pair and whose reply fits in the
    1024 bytes of one [recv], the server reads back the city the client
    sent, and the reply the client receives carries it: decoding the
    reply with [json.loads] and reading [city] gives the name back.
    When the name holds no surrogate at all, so that [print] can write
    it, [test_client] then prints its line and closes. *)
Theorem city_comes_back w t city :
  parked t w ->
  fits float_repr city ->
  let c := List.length (conns w) in
  let req := dumps float_repr (request city) in
  let reply := dumps float_repr (weather (VStr city)) in
  city_of req = Ok (VStr city)
  /\ reply_of float_repr req = reply
  /\ city_of reply = Ok (VStr city)
  /\ (writable city ->
      fst (test_client float_repr city w) = Done tt
      /\ log (snd (test_client float_repr city w))
         = log w ++ [(cur w, EvConnect c localhost_8000);
                     (cur w, EvSend (c, Client) req);
                     (t, EvAccept c);
                     (t, EvPrint (py "Accepted connection from "
                                  ++ repr_address (ephemeral c)));
                     (t, EvRecv (c, Server) req);
                     (t, EvSleep 2);
                     (t, EvSend (c, Server) reply);
                     (t, EvClose (c, Server));
                     (cur w, EvRecv (c, Client) reply);
                     (cur w, EvPrint (py "Received weather for " ++ city
                                      ++ py ": " ++ reply));
                     (cur w, EvClose (c, Client))]).
Proof.
  intros Hp [Hc Hlen] c req reply.
  split; [apply city_of_request, Hc |].
  split; [apply reply_of_request;
          [exact Hc | pose proof (dumps_request_shorter city); lia] |].
  split; [apply city_of_weather, Hc |].
  intros Hs. rewrite (test_client_run w t city Hp Hc Hlen Hs).
  split; [reflexivity |].
  cbn [snd visited replied log]. rewrite <- app_assoc. reflexivity.
Qed.

(** Each client of a list is served by the parked thread, and no thread
    is started. *)
Lemma clients_served_by_one_thread cities w t :
  parked t w ->
  Forall (fits float_repr) cities ->
  Forall writable cities ->
  fst (for_each cities (test_client float_repr) w) = Done tt
  /\ parked t (snd (for_each cities (test_client float_repr) w))
  /\ threads (snd (for_each cities (test_client float_repr) w)) = threads w
  /\ accepting_threads (log (snd (for_each cities (test_client float_repr) w)))
     = accepting_threads (log w) ++ repeat t (List.length cities).
Proof.
  intros Hp Hall Hwr. revert w Hp Hwr.
  induction Hall as [| city cities [Hc Hlen] Hall IH]; intros w Hp Hwr.
  - cbn. rewrite app_nil_r. repeat split; try apply Hp.
  - inversion Hwr as [| ? ? Hs Hwr']; subst.
    cbn [for_each].
    erewrite bind_done by (apply test_client_run; eassumption).
    destruct (IH _ (visited_parked w t city
                      (dumps float_repr (request city))
                      (dumps float_repr (weather (VStr city))) Hp) Hwr')
      as (I1 & I2 & I3 & I4).
    split; [exact I1 |]. split; [exact I2 |]. split; [rewrite I3; reflexivity |].
    rewrite I4. cbn [visited replied log].
    unfold accepting_threads. rewrite !flat_map_app. cbn [flat_map snd fst app].
    rewrite !app_nil_r, <- app_assoc. reflexivity.
Qed.

End Codec.
End RoundTrip.

(** ** The demo: its threads and its addresses *)

Module DemoFacts.
Import Net Weather WeatherFacts RoundTrip.

Section Demo.
Variable float_repr : str -> str.
Hypothesis float_repr_ascii : forall lit, is_ascii (float_repr lit).

Lemma cities_fit : Forall (fits float_repr) cities.
Proof.
  unfold cities.
  repeat (constructor;
          [split; [repeat (constructor; [split; reflexivity |]); constructor
                  | apply Nat.leb_le; vm_compute; reflexivity] |]).
  constructor.
Qed.

Lemma main_run :
  fst (main float_repr initial) = Done tt
  /\ threads (snd (main float_repr initial)) = 2%nat
  /\ clock (snd (main float_repr initial)) = 10%Z
  /\ accepting_threads (log (snd (main float_repr initial))) = repeat 1%nat 5
  /\ bound_addresses (log (snd (main float_repr initial))) = [localhost_8000]
  /\ connected_addresses (log (snd (main float_repr initial)))
     = repeat localhost_8000 5.
Proof. vm_compute. repeat split; reflexivity. Qed.

(** C5, amended: the example starts one thread, the server's, whatever
    the number of requests.  The loop of the server runs in the thread
    that called it and starts none; every client of a list, for cities
    whose reply fits in one [recv] and that [print] can write, is
    accepted and handled by that one thread, one after the other; in
    the demo the two threads are the main thread and thread 1, which
    accepts the five connections. *)
Theorem one_server_thread :
  (forall n w, same_thread w (snd (accept_loop float_repr n w)))
  /\ (forall cities w t,
        parked t w -> Forall (fits float_repr) cities ->
        Forall writable cities ->
        threads (snd (for_each cities (test_client float_repr) w)) = threads w
        /\ accepting_threads
             (log (snd (for_each cities (test_client float_repr) w)))
           = accepting_threads (log w) ++ repeat t (List.length cities))
  /\ threads (snd (main float_repr initial)) = 2%nat
  /\ accepting_threads (log (snd (main float_repr initial))) = repeat 1%nat 5.
Proof.
  split; [apply server_loop_same_thread |].
  split.
  - intros cs w t Hp Hfit Hwr.
    destruct (clients_served_by_one_thread float_repr float_repr_ascii
                cs w t Hp Hfit Hwr) as (_ & _ & H3 & H4).
    split; assumption.
  - destruct main_run as (_ & H2 & _ & H4 & _). split; assumption.
Qed.

Ltac address_side :=
  first [ apply same_address_trans
        | apply same_address_emit
        | intros; apply same_address_frame; reflexivity
        | intros; exact I
        | intros; cbn; reflexivity
        | apply plain_event_address_ok ].

Lemma same_address_listen n : respects same_address (sock_listen n).
Proof. apply (respects_listen same_address address_ok); address_side. Qed.

Lemma same_address_print line : respects same_address (print line).
Proof. apply (respects_print same_address address_ok); address_side. Qed.

Lemma same_address_serve : respects same_address (serve float_repr).
Proof. apply (respects_serve same_address address_ok); address_side. Qed.

Lemma same_address_recv s n : respects same_address (sock_recv s n).
Proof. apply (respects_recv same_address address_ok); address_side. Qed.

Lemma same_address_close s : respects same_address (sock_close s).
Proof. apply (respects_close same_address address_ok); address_side. Qed.

Lemma same_address_blocking {A} (call : M A) :
  respects same_address call ->
  respects same_address (blocking float_repr call).
Proof.
  intros H.
  apply (respects_blocking same_address address_ok); try exact H; address_side.
Qed.

Lemma same_address_run_weather_server w :
  same_address w (snd (run_weather_server float_repr w)).
Proof.
  apply (respects_run_weather_server same_address address_ok); address_side.
Qed.

Lemma same_address_test_client city w :
  same_address w (snd (test_client float_repr city w)).
Proof.
  apply (respects_test_client same_address address_ok); address_side.
Qed.

Lemma same_address_main w : same_address w (snd (main float_repr w)).
Proof.
  apply (respects_main same_address address_ok); address_side.
Qed.

Lemma bound_kept_trans (a b c : world) :
  bound b = bound a -> bound c = bound b -> bound c = bound a.
Proof. congruence. Qed.

Lemma listen_keeps_bound n : respects (fun a b => bound b = bound a) (sock_listen n).
Proof.
  apply (respects_listen _ (fun _ => True));
    try reflexivity; try (intros; exact I). apply bound_kept_trans.
Qed.

Lemma print_keeps_bound line :
  respects (fun a b => bound b = bound a) (print line).
Proof.
  apply (respects_print _ (fun _ => True));
    try reflexivity; try (intros; exact I). apply bound_kept_trans.
Qed.

Lemma serve_keeps_bound :
  respects (fun a b => bound b = bound a) (serve float_repr).
Proof.
  apply (respects_serve _ (fun _ => True));
    try reflexivity; try (intros; exact I). apply bound_kept_trans.
Qed.

(** On a host where the address is free, the server binds it. *)
Lemma run_weather_server_binds w :
  bound w = None ->
  bound (snd (run_weather_server float_repr w)) = Some localhost_8000
  /\ exists l, log (snd (run_weather_server float_repr w))
               = log w ++ (cur w, EvBind localhost_8000) :: l.
Proof.
  intros Hfree. unfold run_weather_server.
  assert (Hbind : sock_bind localhost_8000 w
                  = (Done tt, emit (EvBind localhost_8000)
                                (set_bound (Some localhost_8000) w)))
    by (unfold sock_bind; rewrite Hfree; reflexivity).
  rewrite (bind_done _ _ _ _ _ Hbind).
  set (w1 := emit (EvBind localhost_8000) (set_bound (Some localhost_8000) w)).
  set (rest := bind (sock_listen 5) _).
  assert (Hbound : bound (snd (rest w1)) = bound w1).
  { apply (respects_bind _ bound_kept_trans);
      [apply listen_keeps_bound | intros _].
    apply (respects_bind _ bound_kept_trans);
      [apply print_keeps_bound | intros _; apply serve_keeps_bound]. }
  assert (Hlog : same_address w1 (snd (rest w1))).
  { apply (respects_bind _ same_address_trans);
      [apply same_address_listen | intros _].
    apply (respects_bind _ same_address_trans);
      [apply same_address_print | intros _; apply same_address_serve]. }
  split; [rewrite Hbound; reflexivity |].
  destruct Hlog as (l & Hl & _). exists l. rewrite Hl. subst w1.
  cbn [log emit set_bound cur]. rewrite <- app_assoc. reflexivity.
Qed.

(** C6: the server binds [('localhost', 8000)] and the client connects
    to the same address; whatever the state of the world and whatever the
    city, no run of the server, of the client or of the demo names another
    address. *)
Theorem only_localhost_8000 :
  localhost_8000 = (py "localhost", 8000%Z)
  /\ (forall w, same_address w (snd (run_weather_server float_repr w)))
  /\ (forall city w, same_address w (snd (test_client float_repr city w)))
  /\ (forall w, same_address w (snd (main float_repr w)))
  /\ (forall w, bound w = None ->
        bound (snd (run_weather_server float_repr w)) = Some localhost_8000
        /\ exists l, log (snd (run_weather_server float_repr w))
                     = log w ++ (cur w, EvBind localhost_8000) :: l)
  /\ (forall city w,
        bound w = Some localhost_8000 -> listening w = true ->
        exists l, log (snd (test_client float_repr city w))
                  = log w
                    ++ (cur w, EvConnect (List.length (conns w)) localhost_8000)
                    :: l)
  /\ bound_addresses (log (snd (main float_repr initial))) = [localhost_8000]
  /\ connected_addresses (log (snd (main float_repr initial)))
     = repeat localhost_8000 5.
Proof.
  split; [reflexivity |].
  split; [apply same_address_run_weather_server |].
  split; [apply same_address_test_client |].
  split; [apply same_address_main |].
  split; [apply run_weather_server_binds |].
  split.
  - intros city w Hb Hl. unfold test_client.
    rewrite (client_sends float_repr float_repr_ascii _ w city Hb Hl).
    match goal with
    | |- context [snd (?rest (sent ?req w))] =>
        assert (H : same_address (sent req w) (snd (rest (sent req w))))
    end.
    { apply (respects_bind _ same_address_trans);
        [apply same_address_blocking, same_address_recv | intros raw].
      apply (respects_bind _ same_address_trans);
        [apply respects_lift, same_address_refl | intros response].
      apply (respects_bind _ same_address_trans);
        [apply same_address_print | intros _; apply same_address_close]. }
    destruct H as (l & Hlog & _). rewrite Hlog.
    cbn [sent log]. rewrite <- app_assoc. eexists. reflexivity.
  - destruct main_run as (_ & _ & _ & _ & H5 & H6). split; assumption.
Qed.

(** C10: [get_weather_data] is deterministic, and its temperature and
    conditions do not depend on the city: whatever the cities and the
    states of the world, both results carry temperature 20 and conditions
    [sunny], and the same city gives the same dictionary. *)
Theorem get_weather_data_is_constant (c1 c2 : pyval) (w1 w2 : world) :
  (exists d1 d2,
      fst (get_weather_data c1 w1) = Done (VDict d1)
      /\ fst (get_weather_data c2 w2) = Done (VDict d2)
      /\ dict_get (py "city") d1 = Some c1
      /\ dict_get (py "city") d2 = Some c2
      /\ dict_get (py "temperature") d1 = Some (VInt 20)
      /\ dict_get (py "temperature") d2 = Some (VInt 20)
      /\ dict_get (py "conditions") d1 = Some (VStr (py "sunny"))
      /\ dict_get (py "conditions") d2 = Some (VStr (py "sunny")))
  /\ fst (get_weather_data c1 w1) = fst (get_weather_data c1 w2)
  /\ (c1 = c2 -> fst (get_weather_data c1 w1) = fst (get_weather_data c2 w2)).
Proof.
  split; [| split; [reflexivity | intros ->; reflexivity]].
  eexists _, _. repeat split; reflexivity.
Qed.

End Demo.

(** *** The theorems at the inputs of the demo *)

Lemma listening_world_parked : parked 1 listening_world.
Proof. repeat split; reflexivity. Qed.

Lemma london_fits : fits literal_repr (py "London").
Proof.
  split; [repeat (constructor; [split; reflexivity |]); constructor |].
  apply Nat.leb_le. vm_compute. reflexivity.
Qed.

Lemma cities_writable : Forall writable cities.
Proof. unfold cities. repeat (constructor; [reflexivity |]). constructor. Qed.

Lemma bad_request_is_not_caught_witness :
  let k := {| peer := ephemeral 0; to_server := py "hello"; to_client := [];
              client_closed := false; server_closed := false |} in
  let w := pending [py "hello"] in
  exists e w' k',
    handle_client literal_repr (0%nat, Server) (accepted 0 k w) = (Raised e, w')
    /\ accept_loop literal_repr 1 w = (Raised e, w')
    /\ serve literal_repr w = (Raised e, w')
    /\ nth_error (conns w') 0 = Some k'
    /\ to_client k' = [] /\ server_closed k' = false
    /\ backlog w' = [].
Proof.
  intros k w.
  apply (bad_request_is_not_caught literal_repr
           0 w 0%nat [] k eq_refl eq_refl eq_refl).
  - left. discriminate.
  - left. right. exists (py "hello"), JSONDecodeError. split; reflexivity.
Defined.

(** C2, read to the letter, fails on a long request: one of 1031 bytes
    is not JSON, for what follows the object, but [handle_client] reads
    its first 1024 bytes, which are the request for London followed by
    spaces; it answers and closes, and raises nothing. *)
Lemma long_bad_request_is_answered :
  let w := one_request padded_london in
  let reply := Json.dumps literal_repr (weather (VStr (py "London"))) in
  List.length padded_london = 1031%nat
  /\ Utf8.decode padded_london = Ok padded_london
  /\ Json.loads padded_london = Raise JSONDecodeError
  /\ not_json padded_london
  /\ Json.loads (firstn 1024 padded_london)
     = Ok (request (py "London"))
  /\ fst (handle_client literal_repr (0%nat, Server) w) = Done tt
  /\ conns (snd (handle_client literal_repr (0%nat, Server) w))
     = [{| peer := ephemeral 0; to_server := py "garbage"; to_client := reply;
           client_closed := false; server_closed := true |}]
  /\ ~ raises_on_every_bad_request literal_repr.
Proof.
  intros w reply.
  assert (Hdec : Utf8.decode padded_london = Ok padded_london)
    by (vm_compute; reflexivity).
  assert (Hloads : Json.loads padded_london = Raise JSONDecodeError)
    by (vm_compute; reflexivity).
  assert (Hbad : not_json padded_london).
  { right. exists padded_london, JSONDecodeError. split; assumption. }
  assert (Hrun : fst (handle_client literal_repr (0%nat, Server) w) = Done tt)
    by (vm_compute; reflexivity).
  split; [vm_compute; reflexivity |].
  split; [exact Hdec |]. split; [exact Hloads |]. split; [exact Hbad |].
  split; [vm_compute; reflexivity |].
  split; [exact Hrun |].
  split; [vm_compute; reflexivity |].
  intros H.
  destruct (H w 0%nat
              {| peer := ephemeral 0; to_server := padded_london;
                 to_client := []; client_closed := false;
                 server_closed := false |}
              eq_refl eq_refl ltac:(discriminate) (or_introl Hbad))
    as [e He].
  rewrite Hrun in He. discriminate He.
Qed.

Lemma server_goes_back_to_accept_witness :
  let w := pending [london] in
  serve literal_repr w
  = serve literal_repr
      (served 0 london_connection
         (Json.dumps literal_repr (weather (VStr (py "London"))))
         (accepted 0 london_connection w))
  /\ fst (serve literal_repr w) <> Done tt
  /\ fst (run_weather_server literal_repr initial) <> Done tt.
Proof.
  intros w.
  destruct (server_goes_back_to_accept literal_repr literal_repr_ascii
              w 0%nat [] london_connection london
              [(py "city", VStr (py "London"))] (VStr (py "London"))
              eq_refl eq_refl eq_refl ltac:(discriminate)
              eq_refl eq_refl eq_refl) as (H1 & _ & H3 & H4 & _).
  split; [exact H1 |]. split; [apply H3 | apply H4].
Defined.

(** C3, read to the letter, fails: with one client waiting the loop ends
    parked in [accept], not returned; with two waiting it serves the
    second after the first. *)
Lemma server_serves_the_next_client :
  fst (serve literal_repr (pending [london])) = Blocked
  /\ fst (serve literal_repr (pending [london; paris])) = Blocked
  /\ map (fun k => (to_client k, server_closed k))
       (conns (snd (serve literal_repr (pending [london; paris]))))
     = [(Json.dumps literal_repr (weather (VStr (py "London"))), true);
        (Json.dumps literal_repr (weather (VStr (py "Paris"))), true)]
  /\ ~ completes_after_one_client literal_repr.
Proof.
  assert (H1 : fst (serve literal_repr (pending [london])) = Blocked)
    by (vm_compute; reflexivity).
  split; [exact H1 |].
  split; [vm_compute; reflexivity |].
  split; [vm_compute; reflexivity |].
  intros H.
  assert (Hdone : fst (serve literal_repr (pending [london])) = Done tt).
  { apply (H london (VStr (py "London"))).
    - discriminate.
    - apply Nat.leb_le. vm_compute. reflexivity.
    - vm_compute. reflexivity. }
  rewrite H1 in Hdone. discriminate Hdone.
Qed.

Lemma city_comes_back_witness :
  let req := london in
  let reply := Json.dumps literal_repr (weather (VStr (py "London"))) in
  city_of req = Ok (VStr (py "London"))
  /\ reply_of literal_repr req = reply
  /\ city_of reply = Ok (VStr (py "London"))
  /\ fst (test_client literal_repr (py "London") listening_world) = Done tt
  /\ log (snd (test_client literal_repr (py "London") listening_world))
     = log listening_world
       ++ [(0%nat, EvConnect 0 localhost_8000);
           (0%nat, EvSend (0%nat, Client) req);
           (1%nat, EvAccept 0);
           (1%nat, EvPrint (py "Accepted connection from "
                            ++ repr_address (ephemeral 0)));
           (1%nat, EvRecv (0%nat, Server) req);
           (1%nat, EvSleep 2);
           (1%nat, EvSend (0%nat, Server) reply);
           (1%nat, EvClose (0%nat, Server));
           (0%nat, EvRecv (0%nat, Client) reply);
           (0%nat, EvPrint (py "Received weather for " ++ py "London"
                            ++ py ": " ++ reply));
           (0%nat, EvClose (0%nat, Client))].
Proof.
  intros req reply.
  destruct (city_comes_back literal_repr literal_repr_ascii
              listening_world 1%nat (py "London")
              listening_world_parked london_fits)
    as (H1 & H2 & H3 & H4).
  destruct (H4 eq_refl) as [H5 H6].
  repeat split; assumption.
Defined.

(** C4, read to the letter, fails: the city London, sent by the client, is
    read back unchanged from the reply of the server. *)
Lemma london_comes_back :
  city_of (reply_of literal_repr london) = Ok (VStr (py "London"))
  /\ ~ never_recovered literal_repr.
Proof.
  assert (H : city_of (reply_of literal_repr london) = Ok (VStr (py "London")))
    by (vm_compute; reflexivity).
  split; [exact H |].
  intros Hnever. exact (Hnever (py "London") H).
Qed.

Lemma one_server_thread_witness :
  threads (snd (main literal_repr initial)) = 2%nat
  /\ accepting_threads (log (snd (main literal_repr initial))) = repeat 1%nat 5
  /\ same_thread listening_world (snd (serve literal_repr listening_world)).
Proof.
  destruct (one_server_thread literal_repr literal_repr_ascii)
    as (H1 & _ & H3 & H4).
  split; [exact H3 |]. split; [exact H4 |]. apply H1.
Defined.

(** C5, read to the letter, fails: in the demo the five connections are all
    accepted by thread 1, the only thread the program starts. *)
Lemma five_requests_one_thread :
  accepting_threads (log (snd (main literal_repr initial))) = [1; 1; 1; 1; 1]%nat
  /\ threads (snd (main literal_repr initial)) = 2%nat
  /\ ~ own_thread_per_request literal_repr.
Proof.
  assert (H : accepting_threads (log (snd (main literal_repr initial)))
              = [1; 1; 1; 1; 1]%nat) by (vm_compute; reflexivity).
  split; [exact H |]. split; [vm_compute; reflexivity |].
  unfold own_thread_per_request. rewrite H. intros Hnd.
  inversion Hnd as [| x l Hnotin _]. apply Hnotin. left. reflexivity.
Qed.

Lemma only_localhost_8000_witness :
  bound (snd (run_weather_server literal_repr initial)) = Some localhost_8000
  /\ bound_addresses (log (snd (main literal_repr initial))) = [localhost_8000]
  /\ connected_addresses (log (snd (main literal_repr initial)))
     = repeat localhost_8000 5.
Proof.
  destruct (only_localhost_8000 literal_repr literal_repr_ascii)
    as (_ & _ & _ & _ & H5 & _ & H7 & H8).
  split; [apply (H5 initial eq_refl) |]. split; assumption.
Defined.

Lemma get_weather_data_is_constant_witness :
  fst (get_weather_data (VStr (py "London")) initial)
  = fst (get_weather_data (VStr (py "London")) listening_world).
Proof.
  destruct (get_weather_data_is_constant (VStr (py "London"))
              (VStr (py "London")) initial listening_world) as (_ & _ & H).
  apply H. reflexivity.
Defined.

End DemoFacts.

(** ** The weather service with several clients *)

Module TrafficFacts.
Import Net Weather Traffic WeatherFacts.

Ltac fields :=
  cbn [clock conns bound listening backlog acceptor cur threads log
       emit set_clock set_conns set_bound set_listening set_backlog
       set_acceptor set_cur set_threads served accepted sent replied visited
       cut_short].

Lemma nth_error_update_other {A} (l : list A) i j x :
  i <> j -> nth_error (update l i x) j = nth_error l j.
Proof.
  revert i j. induction l as [| h t IH]; intros [| i] [| j] H; simpl;
    try reflexivity; try congruence.
  apply IH. congruence.
Qed.

Lemma city_of_ok data city :
  city_of data = Ok city ->
  exists text d,
    Utf8.decode data = Ok text /\ Json.loads text = Ok (VDict d)
    /\ dict_get (py "city") d = Some city.
Proof.
  unfold city_of.
  destruct (Utf8.decode data) as [text |] eqn:E1; [| discriminate].
  cbn [rbind].
  destruct (Json.loads text) as [v |] eqn:E2; [| discriminate].
  cbn [rbind]. destruct v as [| | | | | | d]; cbn [getitem]; try discriminate.
  destruct (dict_get (py "city") d) as [x |] eqn:E; [| discriminate].
  intros H. inversion H. subst. exists text, d.
  repeat split; assumption.
Qed.

Lemma flat_map_agree {A B} (f g : A -> list B) l :
  (forall a, In a l -> f a = g a) -> flat_map f l = flat_map g l.
Proof.
  induction l as [| x l IH]; intros H; [reflexivity |].
  cbn [flat_map]. rewrite (H x) by (left; reflexivity).
  rewrite IH by (intros a Ha; apply H; right; exact Ha). reflexivity.
Qed.

Lemma printed_by_app t l1 l2 :
  printed_by t (l1 ++ l2) = printed_by t l1 ++ printed_by t l2.
Proof. apply flat_map_app. Qed.

Section Service.
Variable float_repr : str -> str.
Hypothesis float_repr_ascii : forall lit, is_ascii (float_repr lit).

(** The loop of the server over the connections that wait. *)
Lemma serve_queue q :
  forall w, backlog w = q -> NoDup q -> Forall (answerable w) q ->
  exists w',
    serve float_repr w = (Blocked, w')
    /\ clock w' = (clock w + 2 * Z.of_nat (List.length q))%Z
    /\ log w' = log w ++ flat_map (turn float_repr (cur w) w) q
    /\ backlog w' = [] /\ acceptor w' = Some (cur w)
    /\ (forall c, In c q -> nth_error (conns w') c = after_turn float_repr w c)
    /\ (forall c, ~ In c q -> nth_error (conns w') c = nth_error (conns w) c).
Proof.
  induction q as [| c rest IH]; intros w Hq Hnd Hall.
  - exists (set_acceptor (Some (cur w)) w).
    split; [apply serve_parks, Hq |]. fields. cbn [List.length flat_map].
    rewrite app_nil_r, Z.add_0_r. repeat split; try assumption.
    intros c [].
  - inversion Hnd as [| c0 r0 Hnotin Hnd']. subst.
    inversion Hall as [| c0 r0 (k & city & Hk & Hopen & Hne & Hcity) Hall'].
    subst.
    destruct (city_of_ok _ _ Hcity) as (text & d & Htext & Hjson & Hd).
    pose (w1 := served c k (Json.dumps float_repr (weather city))
                  (accepted c k w)).
    assert (Hother : forall c', c' <> c ->
              nth_error (conns w1) c' = nth_error (conns w) c').
    { intros c' Hc'. subst w1. fields.
      apply nth_error_update_other. congruence. }
    destruct (IH w1) as (w' & Hrun & Hclock & Hlog & Hb & Ha & Hin & Hout).
    + subst w1. fields. rewrite Hq. reflexivity.
    + exact Hnd'.
    + apply Forall_forall. intros c' Hc'.
      rewrite Forall_forall in Hall'.
      destruct (Hall' c' Hc') as (k' & city' & Hk' & H1 & H2 & H3).
      exists k', city'. rewrite Hother by (intros ->; contradiction).
      auto.
    + exists w'.
      split; [rewrite (serve_turn float_repr float_repr_ascii
                         w c rest k text d city) by assumption;
              exact Hrun |].
      split; [rewrite Hclock; subst w1; fields;
              cbn [List.length]; lia |].
      split.
      { rewrite Hlog. subst w1. fields. cbn [flat_map].
        unfold turn at 2. rewrite Hk, Hcity.
        rewrite <- !app_assoc. cbn [app]. do 7 f_equal.
        apply flat_map_agree. intros c' Hc'. unfold turn. fields.
        rewrite nth_error_update_other by (intros ->; contradiction).
        reflexivity. }
      split; [exact Hb |]. split; [rewrite Ha; reflexivity |].
      split.
      * intros c' [-> | Hc'].
        -- rewrite Hout by exact Hnotin. subst w1. fields.
           rewrite (nth_error_update _ _ _ _ Hk).
           unfold after_turn. rewrite Hk, Hcity. reflexivity.
        -- rewrite Hin by exact Hc'. unfold after_turn.
           rewrite Hother by (intros ->; contradiction). reflexivity.
      * intros c' Hc'. rewrite Hout by (intros H; apply Hc'; right; exact H).
        apply Hother. intros ->. apply Hc'. left. reflexivity.
Qed.

(** The connections that wait when the server comes to [accept] are
    served in the order they arrived, one after the other: each costs its
    two seconds of [get_weather_data] before the next is accepted, so
    the client in position [i] of the queue has its reply after
    [2 * (i + 1)] seconds, and [n] clients take [2 * n] seconds; then the
    server parks in [accept]. *)
Theorem queued_clients_wait_their_turn w :
  NoDup (backlog w) ->
  Forall (answerable w) (backlog w) ->
  let w' := snd (serve float_repr w) in
  fst (serve float_repr w) = Blocked
  /\ clock w' = (clock w + 2 * Z.of_nat (List.length (backlog w)))%Z
  /\ log w' = log w ++ flat_map (turn float_repr (cur w) w) (backlog w)
  /\ backlog w' = [] /\ acceptor w' = Some (cur w)
  /\ (forall c, In c (backlog w) ->
                nth_error (conns w') c = after_turn float_repr w c)
  /\ (forall c, ~ In c (backlog w) ->
                nth_error (conns w') c = nth_error (conns w) c).
Proof.
  intros Hnd Hall w'. subst w'.
  destruct (serve_queue (backlog w) w eq_refl Hnd Hall) as (w' & Hrun & H).
  rewrite Hrun. cbn [fst snd]. split; [reflexivity | exact H].
Qed.

(** *** One client after the other *)

Lemma server_answers_short w t city :
  parked t w -> Forall Json.plain city ->
  (List.length (Json.dumps float_repr (request city)) <= 1024)%nat ->
  resume_acceptor float_repr (sent (Json.dumps float_repr (request city)) w)
  = (Done tt,
     replied t (Json.dumps float_repr (request city))
       (Json.dumps float_repr (weather (VStr city))) w).
Proof.
  intros (Hb & Hl & Ha & Hq) Hc Hreq.
  assert (Hne : Json.dumps float_repr (request city) <> [])
    by apply RoundTrip.request_not_empty.
  assert (Hdec : Utf8.decode (Json.dumps float_repr (request city))
                 = Ok (Json.dumps float_repr (request city)))
    by apply JsonFacts.decode_ascii, JsonFacts.dumps_ascii, float_repr_ascii.
  assert (Hloads : Json.loads (Json.dumps float_repr (request city))
                   = Ok (VDict [(py "city", VStr city)]))
    by apply RoundTrip.loads_request, Hc.
  generalize dependent (Json.dumps float_repr (request city)).
  intros req Hreq Hne Hdec Hloads.
  set (reply := Json.dumps float_repr (weather (VStr city))).
  unfold resume_acceptor. fields. rewrite Ha. unfold run_thread.
  rewrite (serve_turn float_repr float_repr_ascii
             (set_cur t (set_acceptor None (sent req w)))
             (List.length (conns w)) []
             {| peer := ephemeral (List.length (conns w)); to_server := req;
                to_client := []; client_closed := false;
                server_closed := false |}
             req [(py "city", VStr city)] (VStr city)).
  - rewrite serve_parks by (fields; rewrite Hq; reflexivity).
    f_equal. apply world_ext; fields; try reflexivity.
    + rewrite update_snoc. unfold answered.
      cbn [peer to_server to_client client_closed server_closed app].
      rewrite skipn_all2 by lia. reflexivity.
    + rewrite Hq. reflexivity.
    + cbn [to_server peer]. rewrite firstn_all2 by lia.
      rewrite <- !app_assoc. reflexivity.
  - fields. rewrite Hq. reflexivity.
  - fields. apply nth_error_snoc.
  - reflexivity.
  - exact Hne.
  - cbn [to_server]. rewrite firstn_all2 by lia. exact Hdec.
  - exact Hloads.
  - reflexivity.
Qed.

Lemma is_ascii_firstn n s : is_ascii s -> is_ascii (firstn n s).
Proof.
  unfold is_ascii. intros H. rewrite <- (firstn_skipn n s) in H.
  apply Forall_app in H. apply H.
Qed.

(** [test_client] against a parked server, whatever the length of the
    reply. *)
Lemma test_client_cut w t city :
  parked t w -> Forall Json.plain city -> writable city ->
  (List.length (Json.dumps float_repr (request city)) <= 1024)%nat ->
  test_client float_repr city w
  = (Done tt,
     cut_short t city (Json.dumps float_repr (request city))
       (Json.dumps float_repr (weather (VStr city))) w).
Proof.
  intros Hp Hc Hs Hreq. pose proof Hp as (Hb & Hl & Ha & Hq).
  pose proof (JsonFacts.dumps_ascii float_repr float_repr_ascii
                (weather (VStr city))) as Hascii.
  pose proof (RoundTrip.weather_not_empty float_repr city) as Hne.
  unfold test_client.
  rewrite (RoundTrip.client_sends float_repr float_repr_ascii) by assumption.
  cbv beta.
  erewrite bind_done.
  2:{ rewrite (RoundTrip.blocking_wakes float_repr _ _ _
                 (RoundTrip.client_waits _ w)).
      erewrite bind_done by (apply server_answers_short; eassumption).
      apply sock_recv_run with
        (k := {| peer := ephemeral (List.length (conns w)); to_server := [];
                 to_client := Json.dumps float_repr (weather (VStr city));
                 client_closed := false; server_closed := true |}).
      - fields. apply nth_error_snoc.
      - reflexivity.
      - exact Hne. }
  cbn [inbox to_client].
  rewrite (JsonFacts.decode_ascii _ (is_ascii_firstn 1024 _ Hascii)).
  rewrite bind_lift_ok.
  erewrite bind_done.
  2:{ apply PrintFacts.print_ok.
      rewrite PrintFacts.received_line; [exact Hs |].
      apply is_ascii_firstn, Hascii. }
  erewrite sock_close_run
    by (fields; rewrite update_snoc; apply nth_error_snoc).
  f_equal. apply world_ext; fields; try reflexivity.
  - rewrite !update_snoc. reflexivity.
  - unfold received. rewrite <- !app_assoc. reflexivity.
Qed.

Lemma cut_short_parked w t city req reply :
  parked t w -> parked t (cut_short t city req reply w).
Proof.
  intros (Hb & Hl & Ha & Hq). repeat split; assumption || reflexivity.
Qed.

Lemma printed_by_cut_short w t city req reply :
  cur w <> t ->
  printed_by (cur w) (log (cut_short t city req reply w))
  = printed_by (cur w) (log w) ++ [received city (firstn 1024 reply)].
Proof.
  intros Hneq. fields. rewrite !printed_by_app.
  cbn [printed_by flat_map fst snd app].
  rewrite Nat.eqb_refl.
  replace (Nat.eqb t (cur w)) with false
    by (symmetry; apply Nat.eqb_neq; congruence).
  cbn [app]. rewrite app_nil_r. reflexivity.
Qed.

Lemma clients_run cities :
  forall w t,
  parked t w -> cur w <> t -> Forall (fits float_repr) cities ->
  Forall writable cities ->
  exists w',
    for_each cities (test_client float_repr) w = (Done tt, w')
    /\ clock w' = (clock w + 2 * Z.of_nat (List.length cities))%Z
    /\ printed_by (cur w) (log w')
       = printed_by (cur w) (log w)
         ++ map (fun city =>
                   received city (Json.dumps float_repr (weather (VStr city))))
              cities
    /\ (exists new, conns w' = conns w ++ new
                    /\ List.length new = List.length cities
                    /\ Forall finished new)
    /\ parked t w' /\ cur w' = cur w.
Proof.
  induction cities as [| city cities IH]; intros w t Hp Hneq Hall Hwr.
  - exists w. cbn. rewrite !app_nil_r, Z.add_0_r.
    repeat split; try apply Hp.
    exists []. rewrite app_nil_r. repeat split. constructor.
  - inversion Hall as [| c0 l0 [Hc Hlen] Hall']. subst.
    inversion Hwr as [| c1 l1 Hs Hwr']. subst.
    assert (Hreq : (List.length (Json.dumps float_repr (request city))
                    <= 1024)%nat)
      by (pose proof (RoundTrip.dumps_request_shorter float_repr city); lia).
    set (req := Json.dumps float_repr (request city)) in *.
    set (reply := Json.dumps float_repr (weather (VStr city))) in *.
    destruct (IH (cut_short t city req reply w) t)
      as (w' & Hrun & Hclock & Hout & (new & Hconns & Hnew & Hfin) & Hp' & Hcur).
    + apply cut_short_parked, Hp.
    + exact Hneq.
    + exact Hall'.
    + exact Hwr'.
    + exists w'. cbn [for_each].
      erewrite bind_done by (apply test_client_cut; eassumption).
      split; [exact Hrun |].
      split; [rewrite Hclock; fields; cbn [List.length]; lia |].
      split.
      { change (cur (cut_short t city req reply w)) with (cur w) in Hout.
        rewrite Hout, printed_by_cut_short by exact Hneq.
        rewrite firstn_all2 by exact Hlen.
        rewrite <- app_assoc. reflexivity. }
      split; [| split; [exact Hp' | exact Hcur]].
      exists (hung_up (List.length (conns w)) reply :: new).
      split; [rewrite Hconns; fields; rewrite <- app_assoc; reflexivity |].
      split; [cbn [List.length]; rewrite Hnew; reflexivity |].
      constructor; [| exact Hfin].
      unfold finished, hung_up.
      cbn [client_closed server_closed to_server to_client].
      rewrite skipn_all2 by exact Hlen. repeat split.
Qed.

(** The clients of a list, run one after the other against the parked
    server, each take the two seconds of [get_weather_data]: [n] clients
    take [2 * n] seconds, for cities whose reply fits in one [recv] and
    that [print] can write, which are those without a surrogate.  Each
    client prints the reply for its own city, in the order of the list,
    and every connection opened is closed at both ends with nothing
    left unread. *)
Theorem clients_take_two_seconds_each cities w t :
  parked t w -> cur w <> t -> Forall (fits float_repr) cities ->
  Forall writable cities ->
  let w' := snd (for_each cities (test_client float_repr) w) in
  fst (for_each cities (test_client float_repr) w) = Done tt
  /\ clock w' = (clock w + 2 * Z.of_nat (List.length cities))%Z
  /\ printed_by (cur w) (log w')
     = printed_by (cur w) (log w)
       ++ map (fun city =>
                 received city (Json.dumps float_repr (weather (VStr city))))
            cities
  /\ (exists new, conns w' = conns w ++ new
                  /\ List.length new = List.length cities
                  /\ Forall finished new)
  /\ parked t w'.
Proof.
  intros Hp Hneq Hall Hwr w'. subst w'.
  destruct (clients_run cities w t Hp Hneq Hall Hwr)
    as (w' & Hrun & H1 & H2 & H3 & H4 & _).
  rewrite Hrun. cbn [fst snd].
  split; [reflexivity |]. split; [exact H1 |]. split; [exact H2 |].
  split; [exact H3 | exact H4].
Qed.

(** [test_client] reads at most 1024 bytes of the reply.  When the
    request fits in the 1024 bytes the server reads and [print] can
    write the city, which is when it holds no surrogate, the client
    prints the first 1024 bytes of the reply and closes its socket: of
    a reply longer than that the rest is never read, and the line
    printed holds a JSON text cut short. *)
Theorem long_reply_is_cut w t city :
  parked t w -> cur w <> t -> Forall Json.plain city -> writable city ->
  (List.length (Json.dumps float_repr (request city)) <= 1024)%nat ->
  let reply := Json.dumps float_repr (weather (VStr city)) in
  let w' := snd (test_client float_repr city w) in
  fst (test_client float_repr city w) = Done tt
  /\ printed_by (cur w) (log w')
     = printed_by (cur w) (log w) ++ [received city (firstn 1024 reply)]
  /\ nth_error (conns w') (List.length (conns w))
     = Some (hung_up (List.length (conns w)) reply)
  /\ ((1024 < List.length reply)%nat ->
      List.length (firstn 1024 reply) = 1024%nat
      /\ to_client (hung_up (List.length (conns w)) reply) <> []).
Proof.
  intros Hp Hneq Hc Hs Hreq reply w'. subst w'.
  rewrite (test_client_cut w t city Hp Hc Hs Hreq). cbn [fst snd].
  split; [reflexivity |].
  split; [apply printed_by_cut_short, Hneq |].
  split; [fields; apply nth_error_snoc |].
  intros Hlong. split; [apply firstn_length_le; lia |].
  cbn [hung_up to_client]. intros H.
  apply skipn_all_iff in H. fold reply in H. lia.
Qed.

(** Without a server listening on [localhost_8000], [test_client] raises
    [ConnectionRefusedError] at [connect]: nothing is sent or printed,
    and as no handler catches it the loop over the cities stops at the
    first of them. *)
Theorem no_server_no_reply city cities w :
  nobody_listens w ->
  test_client float_repr city w = (Raised ConnectionRefusedError, w)
  /\ for_each (city :: cities) (test_client float_repr) w
     = (Raised ConnectionRefusedError, w).
Proof.
  intros Hnobody.
  assert (Hconnect : sock_connect localhost_8000 w
                     = (Raised ConnectionRefusedError, w)).
  { unfold sock_connect. destruct (bound w) as [b |] eqn:Hb; [| reflexivity].
    rewrite (Hnobody b Hb). reflexivity. }
  assert (Hone : test_client float_repr city w
                 = (Raised ConnectionRefusedError, w)).
  { unfold test_client. apply bind_raised. exact Hconnect. }
  split; [exact Hone |].
  cbn [for_each]. apply bind_raised. exact Hone.
Qed.

(** Whatever the city, what goes on the wire is ASCII: [json.dumps]
    escapes every other character, so neither the [encode] of the
    request in [test_client] nor the [encode] of the reply in
    [handle_client] can fail, and both leave the JSON text as it is. *)
Theorem the_wire_is_ascii (city : str) (v : pyval) :
  is_ascii (Json.dumps float_repr (request city))
  /\ Utf8.encode (Json.dumps float_repr (request city))
     = Ok (Json.dumps float_repr (request city))
  /\ is_ascii (Json.dumps float_repr (weather v))
  /\ Utf8.encode (Json.dumps float_repr (weather v))
     = Ok (Json.dumps float_repr (weather v)).
Proof.
  pose proof (JsonFacts.dumps_ascii float_repr float_repr_ascii) as H.
  repeat split; try apply JsonFacts.encode_ascii; apply H.
Qed.

End Service.

(** *** The theorems at the inputs of the guide *)

Lemma queued_clients_wait_their_turn_witness :
  let w := pending [london; paris] in
  let w' := snd (serve literal_repr w) in
  fst (serve literal_repr w) = Blocked
  /\ clock w' = 4%Z
  /\ log w' = turn literal_repr 1 w 0 ++ turn literal_repr 1 w 1
  /\ option_map to_client (nth_error (conns w') 1)
     = Some (Json.dumps literal_repr (weather (VStr (py "Paris")))).
Proof.
  intros w w'. subst w'.
  assert (Hnd : NoDup (backlog w))
    by (repeat constructor; simpl; intuition discriminate).
  assert (Hall : Forall (answerable w) (backlog w)).
  { repeat constructor.
    - exists london_connection, (VStr (py "London")).
      repeat split; try reflexivity. discriminate.
    - exists {| peer := ephemeral 1; to_server := paris; to_client := [];
                client_closed := false; server_closed := false |},
             (VStr (py "Paris")).
      repeat split; try reflexivity. discriminate. }
  destruct (queued_clients_wait_their_turn literal_repr literal_repr_ascii
              w Hnd Hall) as (H1 & H2 & H3 & _ & _ & H6 & _).
  split; [exact H1 |]. split; [exact H2 |].
  split; [rewrite H3; cbn [log w pending backlog List.length seq flat_map app];
          rewrite app_nil_r; reflexivity |].
  rewrite (H6 1%nat) by (right; left; reflexivity). reflexivity.
Defined.

Lemma clients_take_two_seconds_each_witness :
  let w' := snd (for_each cities (test_client literal_repr) listening_world) in
  clock w' = 10%Z
  /\ printed_by 0 (log w')
     = map (fun city =>
              received city (Json.dumps literal_repr (weather (VStr city))))
         cities.
Proof.
  intros w'. subst w'.
  destruct (clients_take_two_seconds_each literal_repr literal_repr_ascii
              cities listening_world 1%nat
              DemoFacts.listening_world_parked ltac:(discriminate)
              (DemoFacts.cities_fit literal_repr) DemoFacts.cities_writable)
    as (_ & H2 & H3 & _).
  split; [exact H2 | exact H3].
Defined.

Lemma long_name_plain : Forall Json.plain long_name.
Proof.
  unfold long_name. apply Forall_forall. intros x Hx.
  apply repeat_spec in Hx. subst. split; reflexivity.
Qed.

Lemma long_reply_is_cut_witness :
  let reply := Json.dumps literal_repr (weather (VStr long_name)) in
  let w' := snd (test_client literal_repr long_name listening_world) in
  List.length reply = 1054%nat
  /\ printed_by 0 (log w') = [received long_name (firstn 1024 reply)]
  /\ option_map to_client (nth_error (conns w') 0) = Some (skipn 1024 reply).
Proof.
  intros reply w'. subst w'.
  destruct (long_reply_is_cut literal_repr literal_repr_ascii
              listening_world 1%nat long_name
              DemoFacts.listening_world_parked ltac:(discriminate)
              long_name_plain ltac:(vm_compute; reflexivity)
              ltac:(apply Nat.leb_le; vm_compute; reflexivity))
    as (_ & H2 & H3 & _).
  split; [vm_compute; reflexivity |].
  split; [exact H2 |].
  change (List.length (conns listening_world)) with 0%nat in H3.
  rewrite H3. reflexivity.
Defined.

Lemma no_server_no_reply_witness :
  for_each cities (test_client literal_repr) initial
  = (Raised ConnectionRefusedError, initial).
Proof.
  apply (no_server_no_reply literal_repr (py "London")
           [py "Paris"; py "New York"; py "Tokyo"; py "Berlin"] initial).
  intros b Hb. discriminate Hb.
Defined.

Lemma the_wire_is_ascii_witness :
  Utf8.encode (Json.dumps literal_repr (request [90; 252; 114; 105; 99; 104]))
  = Ok (py "{" ++ [34] ++ py "city" ++ [34] ++ py ": " ++ [34]
        ++ py "Z\u00fcrich" ++ [34] ++ py "}").
Proof.
  destruct (the_wire_is_ascii literal_repr literal_repr_ascii
              [90; 252; 114; 105; 99; 104] VNone) as (_ & H & _).
  rewrite H. reflexivity.
Defined.

End TrafficFacts.

(** ** The event loop of asyncio *)

Module AsyncioFacts.
Import Asyncio.
Local Open Scope nat_scope.

(** More iterations than a run needs change nothing. *)
Lemma run_forever_more n l r :
  run_forever n l = r -> (forall l', r <> Unfinished l') ->
  forall m, (n <= m)%nat -> run_forever m l = r.
Proof.
  revert l. induction n as [| n IH]; intros l Hrun Hfin m Hle.
  - cbn in Hrun. subst r. destruct (Hfin l eq_refl).
  - destruct m as [| m]; [lia |].
    cbn [run_forever] in *.
    destruct (ready l); [destruct (live l) |]; try exact Hrun;
      (destruct (stopping (run_once l)); [exact Hrun |
        apply IH; [exact Hrun | exact Hfin | lia]]).
Qed.

Lemma run_stopped n c l :
  run_until_complete c n = Stopped l ->
  forall fuel, (n <= fuel)%nat -> run_until_complete c fuel = Stopped l.
Proof.
  intros H fuel Hle. unfold run_until_complete in *.
  apply (run_forever_more n _ _ H); [discriminate | exact Hle].
Qed.

(** *** A coroutine that runs alone on the loop *)

Lemma after_return v l :
  quiet l ->
  exists l',
    (forall n, after (S n) (exec 0 (Return v) l) = Stopped l')
    /\ result_of 0%nat l' = Value v /\ now l' = now l
    /\ output l' = output l /\ faults l' = faults l.
Proof.
  intros (Hr & Hs & Hst & frame & fw & rest & Hf).
  destruct l as [t fs rd ts sch st out flt]. cbn in Hr, Hs, Hst, Hf. subst.
  eexists. split; [intros n; reflexivity |]. repeat split; reflexivity.
Qed.

Lemma after_throw e l :
  quiet l ->
  exists l',
    (forall n, after (S n) (exec 0 (Throw e) l) = Stopped l')
    /\ result_of 0%nat l' = Error e /\ now l' = now l
    /\ output l' = output l /\ faults l' = faults l.
Proof.
  intros (Hr & Hs & Hst & frame & fw & rest & Hf).
  destruct l as [t fs rd ts sch st out flt]. cbn in Hr, Hs, Hst, Hf. subst.
  destruct e as [x | | | | |];
    (eexists; split; [intros n; reflexivity |]);
    repeat split; reflexivity.
Qed.

Lemma quiet_print l line :
  quiet l -> quiet (set_output (output l ++ [(now l, line)]) l).
Proof. intros H. exact H. Qed.

(** [sleep(0)]: the task yields to the loop for one iteration. *)
Lemma after_yield d k l :
  quiet l -> (d <= 0)%Z ->
  exists l0,
    (forall n,
       after (S n) (exec 0 (Sleep d k) l) = after n (exec 0 (k None) l0))
    /\ quiet l0 /\ now l0 = now l /\ output l0 = output l
    /\ faults l0 = faults l.
Proof.
  intros (Hr & Hs & Hst & frame & fw & rest & Hf) Hd.
  destruct l as [t fs rd ts sch st out flt]. cbn in Hr, Hs, Hst, Hf. subst.
  cbn [exec]. apply Z.leb_le in Hd. rewrite Hd.
  eexists. split; [intros n; reflexivity |].
  split; [| repeat split; reflexivity].
  repeat split; try reflexivity. eexists _, _, _. reflexivity.
Qed.

Lemma nth_last {A} (l : list A) x d : nth (List.length l) (l ++ [x]) d = x.
Proof. induction l as [| h r IH]; simpl; [reflexivity | exact IH]. Qed.

Section Sleeping.
Variables (t d : Z) (frame : option error -> coro value) (fw : option fut)
          (rest : list future) (ts : list timer_handle)
          (out : list (Z * str)) (flt : list error)
          (k : option error -> coro value).

Local Abbreviation running := (Asyncio.running t frame fw rest ts out flt).
Local Abbreviation sleeping := (Asyncio.sleeping t d rest ts out flt k).
Local Abbreviation woken := (Asyncio.woken t d rest ts out flt k).
Local Abbreviation resumed := (Asyncio.resumed t d rest ts out flt k).

Lemma exec_sleep : (0 < d)%Z -> exec 0 (Sleep d k) running = sleeping.
Proof.
  intros Hd. cbn [exec].
  replace (d <=? 0)%Z with false by (symmetry; apply Z.leb_gt; lia).
  unfold new_future, call_later, block, Asyncio.running.
  cbn. unfold add_done_callback, is_done, get. cbn.
  rewrite !nth_last. cbn.
  unfold set_kind, put, get. cbn.
  rewrite WeatherFacts.update_snoc. reflexivity.
Qed.

Lemma live_sleeping : live sleeping = [((t + d)%Z, List.length ts)].
Proof.
  unfold live, timer_cancelled. cbn.
  rewrite WeatherFacts.nth_error_snoc. reflexivity.
Qed.

Lemma run_once_sleeping : (0 < d)%Z -> run_once sleeping = woken.
Proof.
  intros Hd. unfold run_once, wait. rewrite live_sleeping.
  cbn [ready Asyncio.sleeping]. change (now sleeping) with t.
  rewrite Z.max_r by lia.
  change (live (set_now (t + d) sleeping)) with (live sleeping).
  rewrite live_sleeping.
  cbn [now set_now due later]. rewrite Z.leb_refl.
  cbn [map snd app fold_left ready Asyncio.sleeping set_now].
  unfold run_handle.
  cbn [timers set_ready set_scheduled set_now Asyncio.sleeping].
  rewrite WeatherFacts.nth_error_snoc. cbn [cancelled action].
  unfold get. cbn [futures set_ready set_scheduled set_now Asyncio.sleeping nth].
  rewrite nth_last. cbn [state].
  unfold complete, put, get.
  cbn [futures set_ready set_scheduled set_now set_futures Asyncio.sleeping nth
       Net.update ready].
  rewrite nth_last, WeatherFacts.update_snoc. reflexivity.
Qed.

Lemma run_once_woken : run_once woken = exec 0 (k None) resumed.
Proof.
  unfold run_once, wait, live. cbn [ready Asyncio.woken scheduled filter due later].
  cbn [map app fold_left].
  unfold run_handle, result_of, get.
  cbn [futures set_ready set_scheduled Asyncio.woken nth].
  rewrite nth_last. cbn [state].
  unfold step, get.
  cbn [futures set_ready set_scheduled Asyncio.woken nth kind_of state task0].
  unfold set_kind, put, get.
  cbn [futures set_ready set_scheduled set_futures Asyncio.woken nth kind_of state
       task0 callbacks Net.update exec].
  unfold cancel_timer.
  cbn [timers set_timers set_futures set_ready set_scheduled Asyncio.woken].
  rewrite WeatherFacts.nth_error_snoc.
  cbn [when action]. rewrite WeatherFacts.update_snoc. reflexivity.
Qed.
End Sleeping.

Lemma after_sleep d k l :
  quiet l -> (0 < d)%Z ->
  exists l0,
    (forall n,
       after (S (S n)) (exec 0 (Sleep d k) l) = after n (exec 0 (k None) l0))
    /\ quiet l0 /\ now l0 = (now l + d)%Z /\ output l0 = output l
    /\ faults l0 = faults l.
Proof.
  intros (Hr & Hs & Hst & frame & fw & rest & Hf) Hd.
  destruct l as [t fs rd ts sch st out flt]. cbn in Hr, Hs, Hst, Hf. subst.
  exists (resumed t d rest ts out flt k).
  split.
  - intros n.
    change {| now := t; futures := task0 frame fw :: rest; ready := [];
              timers := ts; scheduled := []; stopping := false;
              output := out; faults := flt |}
      with (running t frame fw rest ts out flt).
    rewrite exec_sleep by exact Hd.
    unfold after at 1. cbn [stopping Asyncio.sleeping run_forever ready].
    rewrite live_sleeping, run_once_sleeping by exact Hd.
    cbn [stopping Asyncio.woken run_forever ready].
    rewrite run_once_woken. reflexivity.
  - split; [| repeat split; reflexivity].
    repeat split; try reflexivity. eexists _, _, _. reflexivity.
Qed.

(** A coroutine that only prints, sleeps and reads the clock, run by the
    loop in task 0 with nothing else going on, does what [alone] says. *)
Lemma alone_exec :
  forall (c : coro value) l r t out,
    quiet l -> alone c (now l) (output l) = Some (r, t, out) ->
    exists n l',
      (forall m, after (n + m) (exec 0 c l) = Stopped l')
      /\ result_of 0 l' = r /\ now l' = t /\ output l' = out
      /\ faults l' = faults l.
Proof.
  fix IH 1. intros c l r t out Hq Hrun.
  destruct c; cbn [alone] in Hrun; try discriminate Hrun.
  - inversion Hrun; subst.
    destruct (after_return a l Hq) as (l' & H1 & H2).
    exists 1, l'. split; [intros m; apply H1 | exact H2].
  - inversion Hrun; subst.
    destruct (after_throw e l Hq) as (l' & H1 & H2).
    exists 1, l'. split; [intros m; apply H1 | exact H2].
  - cbn [exec].
    apply (IH c (set_output (output l ++ [(now l, line)]) l) r t out);
      [apply quiet_print, Hq | exact Hrun].
  - cbn [exec]. apply (IH (k (now l)) l r t out Hq Hrun).
  - destruct (Z.leb_spec delay 0) as [Hd | Hd].
    + destruct (after_yield delay k l Hq Hd) as (l0 & H & Hq0 & Hn & Ho & Hf).
      replace (now l + Z.max 0 delay)%Z with (now l0) in Hrun by lia.
      rewrite <- Ho in Hrun.
      destruct (IH (k None) l0 r t out Hq0 Hrun) as (n & l' & H1 & H2).
      exists (S n), l'. split.
      * intros m. cbn [Nat.add]. rewrite H. apply H1.
      * rewrite <- Hf. exact H2.
    + destruct (after_sleep delay k l Hq Hd) as (l0 & H & Hq0 & Hn & Ho & Hf).
      replace (now l + Z.max 0 delay)%Z with (now l0) in Hrun by lia.
      rewrite <- Ho in Hrun.
      destruct (IH (k None) l0 r t out Hq0 Hrun) as (n & l' & H1 & H2).
      exists (S (S n)), l'. split.
      * intros m. cbn [Nat.add]. rewrite H. apply H1.
      * rewrite <- Hf. exact H2.
Qed.

(** The same, from the start of [run_until_complete]. *)
Lemma alone_run (c : coro value) r t out :
  alone c 0%Z [] = Some (r, t, out) ->
  exists n l,
    (forall fuel, n <= fuel -> run_until_complete c fuel = Stopped l)
    /\ result_of 0 l = r /\ now l = t /\ output l = out /\ faults l = [].
Proof.
  intros Hrun.
  pose (l0 := {| now := 0%Z; futures := [task0 (start c) None]; ready := [];
                 timers := []; scheduled := []; stopping := false;
                 output := []; faults := [] |}).
  assert (Hq : quiet l0).
  { repeat split; try reflexivity. eexists _, _, _. reflexivity. }
  destruct (alone_exec c l0 r t out Hq Hrun) as (n & l & H1 & H2).
  exists (S n), l. split; [| exact H2].
  intros fuel Hle. replace fuel with (S (n + (fuel - S n))) by lia.
  unfold run_until_complete. cbn [run_forever fresh ready].
  change (run_once (fresh c)) with (exec 0 c l0).
  apply H1.
Qed.

(** *** [alone] and the ways of putting coroutines together *)

Lemma alone_bind {A B} (c : coro A) (f : A -> coro B) t out :
  alone (bind c f) t out
  = match alone c t out with
    | Some (Value a, t', out') => alone (f a) t' out'
    | Some (Error e, t', out') => Some (Error e, t', out')
    | None => None
    end.
Proof.
  revert t out. induction c; intros t out; cbn [bind alone]; auto.
Qed.

Lemma alone_attempt {A} (c : coro A) t out :
  alone (attempt c) t out
  = match alone c t out with
    | Some (r, t', out') => Some (Value r, t', out')
    | None => None
    end.
Proof.
  revert t out. induction c; intros t out; cbn [attempt alone]; auto.
Qed.

Lemma alone_print line t out :
  alone (print line) t out = Some (Value tt, t, out ++ [(t, line)]).
Proof. reflexivity. Qed.

Lemma alone_sleep ms t out :
  alone (sleep ms) t out = Some (Value tt, (t + Z.max 0 ms)%Z, out).
Proof. reflexivity. Qed.

Lemma alone_time t out : alone time t out = Some (Value t, t, out).
Proof. reflexivity. Qed.

(** What is seen of a run that has stopped stays with more fuel. *)
Lemma seen_with_more_fuel n c fs x ss :
  outcome_of (run_until_complete c n) = Some x ->
  states_of fs (run_until_complete c n) = ss ->
  forall fuel, n <= fuel ->
    outcome_of (run_until_complete c fuel) = Some x
    /\ states_of fs (run_until_complete c fuel) = ss.
Proof.
  intros Ho Hs fuel Hle.
  destruct (run_until_complete c n) as [l | l | l] eqn:E;
    try discriminate Ho.
  rewrite (run_stopped n c l E fuel Hle). split; assumption.
Qed.

(** *** The iterations of the loop, one at a time

    For a run whose durations are not given as numbers: each iteration
    is unfolded, the timers that are due are found from what is known
    of the durations, and the handles are run. *)

Lemma run_forever_go n l :
  (match ready l, live l with [], [] => false | _, _ => true end) = true ->
  run_forever (S n) l = after n (run_once l).
Proof.
  intros H. cbn [run_forever]. unfold after.
  destruct (ready l); [destruct (live l); [discriminate H |] |]; reflexivity.
Qed.

Lemma after_go n l : stopping l = false -> after n l = run_forever n l.
Proof. intros H. unfold after. rewrite H. reflexivity. Qed.

Lemma after_stop n l : stopping l = true -> after n l = Stopped l.
Proof. intros H. unfold after. rewrite H. reflexivity. Qed.

(** An iteration with handles in the queue: the loop does not wait. *)
Lemma run_once_busy l :
  (match ready l with [] => false | _ => true end) = true ->
  run_once l
  = handles (ready l ++ map (fun wh => Fire (snd wh)) (due (now l) (live l)))
      (set_ready [] (set_scheduled (later (now l) (live l)) l)).
Proof.
  intros H. unfold run_once, wait, handles.
  destruct (ready l) eqn:E; [discriminate H |].
  cbv iota. rewrite ?E. reflexivity.
Qed.

Lemma live_set_now t l : live (set_now t l) = live l.
Proof. destruct l; reflexivity. Qed.

(** An iteration with an empty queue: the loop waits for the first
    timer, at [w]. *)
Lemma run_once_idle l w h rest :
  ready l = [] -> live l = (w, h) :: rest -> (now l <= w)%Z ->
  run_once l
  = handles (Fire h :: map (fun wh => Fire (snd wh)) (due w rest))
      (set_ready [] (set_scheduled (later w ((w, h) :: rest)) (set_now w l))).
Proof.
  intros Hr Hl Hle. unfold run_once, wait, handles. rewrite Hr, Hl.
  rewrite Z.max_r by exact Hle.
  assert (E : ready (set_now w l) = []) by (destruct l; exact Hr).
  assert (N : now (set_now w l) = w) by (destruct l; reflexivity).
  rewrite E, N, live_set_now, Hl. cbn [due app map snd].
  rewrite Z.leb_refl. reflexivity.
Qed.

(** The comparisons of two times are settled by what is known. *)
Ltac tests :=
  repeat match goal with
  | |- context [(?a <=? ?b)%Z] =>
      first [ replace (a <=? b)%Z with true by (symmetry; apply Z.leb_le; lia)
            | replace (a <=? b)%Z with false by (symmetry; apply Z.leb_gt; lia) ]
  | |- context [match ?c with Eq => _ | Lt => _ | Gt => _ end] =>
      first [ replace c with Lt
                by (symmetry; apply (proj2 (Pos.compare_lt_iff _ _)); lia)
            | replace c with Gt
                by (symmetry; apply (proj2 (Pos.compare_gt_iff _ _)); lia)
            | replace c with Eq
                by (symmetry; apply (proj2 (Pos.compare_eq_iff _ _)); lia) ];
      cbv iota
  end.

Ltac queue := repeat (cbn [due later]; tests).

Ltac evaluate :=
  match goal with
  | |- context [handles ?hs ?l] =>
      let r := eval vm_compute in (handles hs l) in
      replace (handles hs l) with r by (vm_compute; reflexivity)
  end.

Ltac busy :=
  rewrite run_forever_go by (vm_compute; reflexivity);
  rewrite run_once_busy by (vm_compute; reflexivity);
  match goal with
  | |- context [handles (ready ?l ++ _) _] =>
      let t := eval vm_compute in (now l) in
      let q := eval vm_compute in (live l) in
      replace (now l) with t by (vm_compute; reflexivity);
      replace (live l) with q by (vm_compute; reflexivity)
  end;
  queue; evaluate; tests.

Ltac idle :=
  rewrite run_forever_go by (vm_compute; reflexivity);
  match goal with
  | |- context [run_once ?l] =>
      let q := eval vm_compute in (live l) in
      lazymatch q with
      | (?w, ?h) :: ?rest =>
          rewrite (run_once_idle l w h rest)
            by first [ vm_compute; reflexivity | cbn [now]; lia ]
      end
  end;
  queue; evaluate; tests.

Ltac advance :=
  first [busy | idle];
  first [ rewrite after_stop by (vm_compute; reflexivity)
        | rewrite after_go by (vm_compute; reflexivity) ].

Ltac iterations :=
  unfold run_until_complete; repeat advance; vm_compute; reflexivity.

End AsyncioFacts.

(** ** The cells of the notebook that run alone *)

Module CellFacts.
Import Asyncio Cells AsyncioFacts.
Local Open Scope nat_scope.

Lemma alone_statement (c : coro unit) t out r t' out' :
  alone c t out = Some (r, t', out') ->
  alone (c ;; Return NoneV) t out = Some (returning_none r, t', out').
Proof.
  intros H. rewrite alone_bind, H. destruct r; reflexivity.
Qed.

Lemma with_resource_alone body t0 out0 r t1 out1 :
  alone (body new_AsyncResource) (t0 + 1000)%Z
    (out0 ++ [(t0, py "Acquiring resource")]) = Some (r, t1, out1) ->
  alone (with_resource body) t0 out0
  = Some (r, (t1 + 500)%Z, out1 ++ [(t1, py "Releasing resource")]).
Proof.
  intros Hbody. unfold with_resource, async_with.
  rewrite alone_bind. unfold Resource.aenter.
  rewrite alone_bind, alone_print, alone_bind, alone_sleep.
  cbn [alone fst snd]. change (Z.max 0 1000) with 1000%Z.
  rewrite alone_bind, alone_attempt, Hbody.
  destruct r as [[] | e]; unfold Resource.aexit;
    rewrite !alone_bind, alone_print; reflexivity.
Qed.

(** [async with AsyncResource() as resource: body], whatever the body
    that runs alone: the resource is acquired in one second, the body
    runs, and when it ends, whether it returns or raises, [Releasing
    resource] is printed and half a second later the statement ends as
    the body did: [__aexit__] hides no exception.  So it goes on the
    loop of asyncio too. *)
Theorem the_resource_is_always_released body t0 out0 r t1 out1 :
  alone (body new_AsyncResource) (t0 + 1000)%Z
    (out0 ++ [(t0, py "Acquiring resource")]) = Some (r, t1, out1) ->
  alone (with_resource body) t0 out0
  = Some (r, (t1 + 500)%Z, out1 ++ [(t1, py "Releasing resource")])
  /\ (t0 = 0%Z -> out0 = [] ->
      exists n l,
        (forall fuel, n <= fuel ->
           run_until_complete (with_resource body ;; Return NoneV) fuel
           = Stopped l)
        /\ result_of 0 l = returning_none r
        /\ now l = (t1 + 500)%Z
        /\ output l = out1 ++ [(t1, py "Releasing resource")]
        /\ faults l = []).
Proof.
  intros Hbody.
  pose proof (with_resource_alone body t0 out0 r t1 out1 Hbody) as Hrun.
  split; [exact Hrun |].
  intros -> ->. apply alone_run, alone_statement, Hrun.
Qed.

Lemma with_database_alone body t0 out0 r t1 out1 :
  alone (body {| conn := Some Itself |}) (t0 + 1000)%Z out0
  = Some (r, t1, out1) ->
  alone (with_database body) t0 out0
  = Some (Error (AttributeError (py "AsyncDatabase") (py "close")), t1, out1).
Proof.
  intros Hbody. unfold with_database, async_with.
  rewrite alone_bind. unfold Database.aenter, Database.connect.
  rewrite !alone_bind, alone_sleep. cbn [alone fst snd].
  change (Z.max 0 1000) with 1000%Z.
  rewrite alone_bind, alone_attempt, Hbody.
  destruct r as [[] | e]; reflexivity.
Qed.

(** [async with AsyncDatabase() as db: body], whatever the body that
    runs alone: when the body ends, [__aexit__] looks up [close] on
    [self.conn], which is the [AsyncDatabase] itself, and no place binds
    that name.  The statement raises [AttributeError], also when the
    body returned, and in place of the exception of a body that
    raised; [database_demo] prints its results and raises. *)
Theorem the_database_cannot_be_closed body t0 out0 r t1 out1 :
  alone (body {| conn := Some Itself |}) (t0 + 1000)%Z out0
  = Some (r, t1, out1) ->
  alone (with_database body) t0 out0
  = Some (Error (AttributeError (py "AsyncDatabase") (py "close")), t1, out1)
  /\ (t0 = 0%Z -> out0 = [] ->
      exists n l,
        (forall fuel, n <= fuel ->
           run_until_complete (with_database body ;; Return NoneV) fuel
           = Stopped l)
        /\ result_of 0 l
           = Error (AttributeError (py "AsyncDatabase") (py "close"))
        /\ now l = t1 /\ output l = out1 /\ faults l = []).
Proof.
  intros Hbody.
  pose proof (with_database_alone body t0 out0 r t1 out1 Hbody) as Hrun.
  split; [exact Hrun |].
  intros -> ->.
  apply (alone_run _ (returning_none (Error _))), alone_statement, Hrun.
Qed.

Lemma async_timer_alone {Args} format_2f name (func : Args -> coro value) args
    t0 out0 r t1 out1 :
  alone (func args) t0 out0 = Some (r, t1, out1) ->
  alone (async_timer format_2f name func args) t0 out0
  = Some (r, t1,
          match r with
          | Value _ => out1 ++ [(t1, took format_2f name (t1 - t0))]
          | Error _ => out1
          end).
Proof.
  intros Hfunc. unfold async_timer.
  rewrite alone_bind, alone_time, alone_bind, Hfunc.
  destruct r as [v | e]; [| reflexivity].
  rewrite alone_bind, alone_time, alone_bind, alone_print. reflexivity.
Qed.

(** A coroutine decorated with [async_timer], whatever it is as long
    as it runs alone, does what it did and returns what it returned;
    the wrapper then prints the time it took, formatted with [.2f],
    whatever text that format gives for a duration.  When the
    coroutine raises, the wrapper raises the same exception and prints
    nothing: the time of a call that fails is not reported. *)
Theorem async_timer_is_transparent {Args} (format_2f : Z -> str) name
    (func : Args -> coro value) args t0 out0 r t1 out1 :
  alone (func args) t0 out0 = Some (r, t1, out1) ->
  alone (async_timer format_2f name func args) t0 out0
  = Some (r, t1,
          match r with
          | Value _ => out1 ++ [(t1, took format_2f name (t1 - t0))]
          | Error _ => out1
          end)
  /\ (t0 = 0%Z -> out0 = [] ->
      exists n l,
        (forall fuel, n <= fuel ->
           run_until_complete (async_timer format_2f name func args) fuel
           = Stopped l)
        /\ result_of 0 l = r /\ now l = t1
        /\ output l = match r with
                      | Value _ => out1 ++ [(t1, took format_2f name t1)]
                      | Error _ => out1
                      end
        /\ faults l = []).
Proof.
  intros Hfunc.
  pose proof (async_timer_alone format_2f name func args t0 out0 r t1 out1
                Hfunc) as Hrun.
  split; [exact Hrun |].
  intros -> ->. rewrite Z.sub_0_r in Hrun. apply alone_run, Hrun.
Qed.

(** *** The iterator and the generator *)

Lemma ticks_cons line t first n :
  ticks line t first (S n)
  = ((t + 500)%Z, line first) :: ticks line (t + 500) (first + 1) n.
Proof.
  unfold ticks. cbn [seq map].
  replace (t + 500 * (Z.of_nat 0 + 1))%Z with (t + 500)%Z by lia.
  replace (first + Z.of_nat 0)%Z with first by lia.
  f_equal. rewrite <- seq_shift, map_map. apply map_ext. intros i.
  replace (t + 500 * (Z.of_nat (S i) + 1))%Z
    with (t + 500 + 500 * (Z.of_nat i + 1))%Z by lia.
  replace (first + Z.of_nat (S i))%Z with (first + 1 + Z.of_nat i)%Z by lia.
  reflexivity.
Qed.

Lemma exhausted_done self :
  (Notebook.end_ self <= Notebook.current self)%Z -> exhausted self = self.
Proof.
  intros H. destruct self as [s e c]. unfold exhausted. cbn in *.
  rewrite Z.max_l by lia. reflexivity.
Qed.

Section Iteration.
Variable line : Z -> str.

Lemma turns_step n self (body : Z -> coro unit) :
  Stream.turns (S n) self body
  = (r <- attempt (Stream.anext self) ;;
     match r with
     | Value (num, self') => body num ;; Stream.turns n self' body
     | Error (Exn StopAsyncIteration) => Return self
     | Error e => Throw e
     end).
Proof. reflexivity. Qed.

Lemma turns_alone n :
  forall self extra t out,
    n = Z.to_nat (Notebook.end_ self - Notebook.current self) ->
    alone (Stream.turns (S (n + extra)) self (fun num => print (line num)))
      t out
    = Some (Value (exhausted self), (t + 500 * Z.of_nat n)%Z,
            out ++ ticks line t (Notebook.current self) n).
Proof.
  induction n as [| n IH]; intros self extra t out Hn.
  - rewrite turns_step, alone_bind, alone_attempt.
    unfold Stream.anext.
    replace (Notebook.current self <? Notebook.end_ self)%Z with false
      by (symmetry; apply Z.ltb_ge; lia).
    cbn [alone]. rewrite exhausted_done by lia.
    cbn [ticks seq map]. rewrite app_nil_r, Z.add_0_r. reflexivity.
  - cbn [Nat.add]. rewrite turns_step, alone_bind, alone_attempt.
    unfold Stream.anext.
    replace (Notebook.current self <? Notebook.end_ self)%Z with true
      by (symmetry; apply Z.ltb_lt; lia).
    rewrite alone_bind, alone_sleep. cbn [alone].
    rewrite alone_bind, alone_print.
    change (Z.max 0 500) with 500%Z.
    rewrite (IH _ extra) by (cbn [Notebook.end_ Notebook.current]; lia).
    rewrite ticks_cons. cbn [Notebook.current].
    rewrite <- app_assoc. cbn [app].
    replace (t + 500 + 500 * Z.of_nat n)%Z
      with (t + 500 * Z.of_nat (S n))%Z by lia.
    unfold exhausted. cbn [Notebook.start Notebook.end_ Notebook.current].
    rewrite !Z.max_r by lia. reflexivity.
Qed.

Lemma async_for_alone self t out :
  alone (Stream.async_for self (fun num => print (line num))) t out
  = Some (Value (exhausted self),
          (t + 500 * Z.of_nat (Z.to_nat (Notebook.end_ self
                                         - Notebook.current self)))%Z,
          out ++ ticks line t (Notebook.current self)
                   (Z.to_nat (Notebook.end_ self - Notebook.current self))).
Proof.
  unfold Stream.async_for, Notebook.aiter.
  pose proof (turns_alone _ self 0 t out eq_refl) as H.
  rewrite Nat.add_0_r in H. exact H.
Qed.

Lemma async_range_alone n :
  forall a b t out,
    n = Z.to_nat (b - a) ->
    alone (async_range a b (fun _ num => print (line num)) tt) t out
    = Some (Value tt, (t + 500 * Z.of_nat n)%Z, out ++ ticks line t a n).
Proof.
  unfold async_range.
  induction n as [| n IH]; intros a b t out Hn.
  - rewrite NotebookFacts.range_nil by lia. cbn [fold_for alone ticks seq map].
    rewrite app_nil_r, Z.add_0_r. reflexivity.
  - rewrite NotebookFacts.range_cons by lia. cbn [fold_for].
    rewrite alone_bind, alone_bind, alone_sleep, alone_print.
    change (Z.max 0 500) with 500%Z.
    rewrite (IH (a + 1)%Z b) by lia. rewrite ticks_cons.
    rewrite <- app_assoc. cbn [app].
    replace (t + 500 + 500 * Z.of_nat n)%Z
      with (t + 500 * Z.of_nat (S n))%Z by lia.
    reflexivity.
Qed.

(** Iterating an [AsyncDataStream] hands its items to the body, one
    every half second, and leaves the object exhausted: [__aiter__]
    returns the object itself and nothing resets [current], so a second
    loop over the same object gets no item and ends at once.  The
    generator [async_range], called again, gives its items again. *)
Theorem a_stream_is_consumed_once self t out :
  let n := Z.to_nat (Notebook.end_ self - Notebook.current self) in
  let body := fun num => print (line num) in
  alone (Stream.async_for self body) t out
  = Some (Value (exhausted self), (t + 500 * Z.of_nat n)%Z,
          out ++ ticks line t (Notebook.current self) n)
  /\ alone (s <- Stream.async_for self body ;; Stream.async_for s body) t out
     = Some (Value (exhausted self), (t + 500 * Z.of_nat n)%Z,
             out ++ ticks line t (Notebook.current self) n)
  /\ alone (async_range (Notebook.current self) (Notebook.end_ self)
              (fun _ num => body num) tt ;;
            async_range (Notebook.current self) (Notebook.end_ self)
              (fun _ num => body num) tt) t out
     = Some (Value tt, (t + 500 * Z.of_nat n + 500 * Z.of_nat n)%Z,
             (out ++ ticks line t (Notebook.current self) n)
             ++ ticks line (t + 500 * Z.of_nat n) (Notebook.current self) n).
Proof.
  intros n body. subst body.
  split; [apply async_for_alone |].
  split.
  - rewrite alone_bind, async_for_alone, async_for_alone. fold n.
    assert (Hleft : Z.to_nat (Notebook.end_ (exhausted self)
                              - Notebook.current (exhausted self)) = 0)
      by (unfold exhausted; cbn [Notebook.end_ Notebook.current]; lia).
    rewrite Hleft. cbn [ticks seq map]. rewrite app_nil_r.
    replace (t + 500 * Z.of_nat n + 500 * Z.of_nat 0)%Z
      with (t + 500 * Z.of_nat n)%Z by lia.
    rewrite (exhausted_done (exhausted self))
      by (unfold exhausted; cbn [Notebook.end_ Notebook.current]; lia).
    reflexivity.
  - rewrite alone_bind, (async_range_alone n) by reflexivity.
    rewrite (async_range_alone n) by reflexivity. reflexivity.
Qed.

End Iteration.

(** *** Batches *)

Lemma slice_chunk {A} (l : list A) i b :
  (0 <= i)%Z -> (0 < b)%Z ->
  slice l i (i + b) = firstn (Z.to_nat b) (skipn (Z.to_nat i) l).
Proof.
  intros Hi Hb. unfold slice, clamp.
  replace (i <? 0)%Z with false by (symmetry; apply Z.ltb_ge; lia).
  replace (i + b <? 0)%Z with false by (symmetry; apply Z.ltb_ge; lia).
  destruct (Z.le_gt_cases (i + b) (Z.of_nat (List.length l))) as [H1 | H1].
  - rewrite !Z.min_l by lia.
    replace (i + b - i)%Z with b by lia. reflexivity.
  - destruct (Z.le_gt_cases i (Z.of_nat (List.length l))) as [H2 | H2].
    + rewrite (Z.min_l i), (Z.min_r (i + b)) by lia.
      rewrite !firstn_all2; [reflexivity | |]; rewrite length_skipn; lia.
    + rewrite !Z.min_r by lia. rewrite Z.sub_diag. cbn [Z.to_nat firstn].
      rewrite skipn_all2 by lia. destruct (Z.to_nat b); reflexivity.
Qed.

Lemma chunks_concat {A} b :
  forall m (l : list A),
    List.length l <= m * b ->
    List.concat (map (fun k => firstn b (skipn (k * b) l)) (seq 0 m)) = l.
Proof.
  induction m as [| m IH]; intros l Hlen.
  - destruct l; [reflexivity | cbn in Hlen; lia].
  - cbn [seq map List.concat]. rewrite <- seq_shift, map_map.
    cbn [Nat.mul skipn].
    rewrite (map_ext _ (fun k => firstn b (skipn (k * b) (skipn b l)))).
    + rewrite IH by (rewrite length_skipn; lia). apply firstn_skipn.
    + intros k. rewrite skipn_skipn. do 2 f_equal. lia.
Qed.

Lemma chunk_length {A} b k (l : list A) :
  List.length (firstn b (skipn (k * b) l)) = Nat.min b (List.length l - k * b).
Proof. rewrite length_firstn, length_skipn. reflexivity. Qed.

(** The number of the batches: the least [m] with [n <= m * b]. *)
Lemma batch_count n b :
  0 < b ->
  let m := Z.to_nat ((Z.of_nat n + Z.of_nat b - 1) / Z.of_nat b) in
  n <= m * b /\ (forall k, k < m -> k * b < n).
Proof.
  intros Hb m.
  pose proof (Z.div_mod (Z.of_nat n + Z.of_nat b - 1) (Z.of_nat b)
                ltac:(lia)) as E.
  pose proof (Z.mod_pos_bound (Z.of_nat n + Z.of_nat b - 1) (Z.of_nat b)
                ltac:(lia)) as M.
  assert (Hq : (0 <= (Z.of_nat n + Z.of_nat b - 1) / Z.of_nat b)%Z)
    by (apply Z.div_pos; lia).
  assert (Hm : Z.of_nat m = ((Z.of_nat n + Z.of_nat b - 1) / Z.of_nat b)%Z)
    by (subst m; rewrite Z2Nat.id; lia).
  clearbody m. rewrite <- Hm in E, Hq. clear Hm.
  split.
  - apply Nat2Z.inj_le. rewrite Nat2Z.inj_mul. nia.
  - intros k Hk. apply Nat2Z.inj_lt. rewrite Nat2Z.inj_mul.
    assert (Z.of_nat k + 1 <= Z.of_nat m)%Z by lia. nia.
Qed.

Lemma process_batches_alone items b :
  forall starts t out,
    alone
      (for_each starts (fun i =>
         results <- process_batch (slice items i (i + b)) ;;
         print (py "Processed batch of "
                ++ Json.int_repr (Z.of_nat (List.length results))
                ++ py " items"))) t out
    = Some (Value tt, (t + 1000 * Z.of_nat (List.length starts))%Z,
            out ++ batch_lines t (map (fun i => slice items i (i + b)) starts)).
Proof.
  induction starts as [| i starts IH]; intros t out.
  - cbn [for_each alone List.length map batch_lines].
    rewrite app_nil_r, Z.add_0_r. reflexivity.
  - cbn [for_each]. unfold process_batch at 1.
    rewrite !alone_bind, alone_sleep. cbn [alone].
    rewrite alone_print, IH.
    change (Z.max 0 1000) with 1000%Z.
    cbn [map batch_lines List.length]. rewrite length_map, <- app_assoc.
    cbn [app].
    replace (t + 1000 + 1000 * Z.of_nat (List.length starts))%Z
      with (t + 1000 * Z.of_nat (S (List.length starts)))%Z by lia.
    reflexivity.
Qed.

(** The loop of [demo_performance_patterns] over batches, for any list
    of items.  With a positive [batch_size] the batches, put end to
    end, are the items: none is lost or taken twice; every batch but
    the last has [batch_size] items and the last at least one; each
    batch takes a second, and its size is printed.  With a
    [batch_size] of zero [range] raises [ValueError], and with a
    negative one there is no batch: nothing is processed and nothing
    is reported. *)
Theorem the_batches_are_the_items items batch_size t out :
  ((0 < batch_size)%Z ->
   exists bs,
     batches items batch_size = Value bs
     /\ List.concat bs = items
     /\ List.length bs
        = Z.to_nat ((Z.of_nat (List.length items) + batch_size - 1)
                    / batch_size)
     /\ Forall (fun b => 0 < List.length b <= Z.to_nat batch_size) bs
     /\ (forall i, S i < List.length bs ->
                   List.length (nth i bs []) = Z.to_nat batch_size)
     /\ alone (process_in_batches items batch_size) t out
        = Some (Value tt, (t + 1000 * Z.of_nat (List.length bs))%Z,
                out ++ batch_lines t bs))
  /\ (batch_size = 0%Z ->
      alone (process_in_batches items batch_size) t out
      = Some (Error (Exn (ValueError (py "range() arg 3 must not be zero"))),
              t, out))
  /\ ((batch_size < 0)%Z ->
      batches items batch_size = Value []
      /\ alone (process_in_batches items batch_size) t out
         = Some (Value tt, t, out)).
Proof.
  split; [| split].
  - intros Hb.
    set (b := Z.to_nat batch_size).
    assert (HB : Z.of_nat b = batch_size) by (subst b; lia).
    assert (Hb0 : 0 < b) by lia.
    set (m := Z.to_nat ((Z.of_nat (List.length items) + batch_size - 1)
                        / batch_size)).
    destruct (batch_count (List.length items) b Hb0) as (Hm1 & Hm2).
    rewrite HB in Hm1, Hm2. fold m in Hm1, Hm2.
    assert (Hstarts : range_step 0 (Z.of_nat (List.length items)) batch_size
                      = Value (map (fun k => (0 + Z.of_nat k * batch_size)%Z)
                                 (seq 0 m))).
    { unfold range_step.
      replace (batch_size =? 0)%Z with false by (symmetry; apply Z.eqb_neq; lia).
      replace (0 <? batch_size)%Z with true by (symmetry; apply Z.ltb_lt; lia).
      rewrite Z.sub_0_r. reflexivity. }
    assert (Hbs : map (fun i => slice items i (i + batch_size))
                    (map (fun k => (0 + Z.of_nat k * batch_size)%Z) (seq 0 m))
                  = map (fun k => firstn b (skipn (k * b) items)) (seq 0 m)).
    { rewrite map_map. apply map_ext. intros k.
      rewrite slice_chunk by lia. fold b. do 2 f_equal.
      rewrite <- HB. lia. }
    exists (map (fun k => firstn b (skipn (k * b) items)) (seq 0 m)).
    split; [unfold batches; rewrite Hstarts, Hbs; reflexivity |].
    split; [apply chunks_concat; exact Hm1 |].
    split; [rewrite length_map, length_seq; reflexivity |].
    split; [| split].
    + apply Forall_forall. intros x Hx. apply in_map_iff in Hx.
      destruct Hx as (k & <- & Hk). apply in_seq in Hk.
      rewrite chunk_length. pose proof (Hm2 k ltac:(lia)). lia.
    + intros i Hi. rewrite length_map, length_seq in Hi.
      rewrite (nth_indep _ _ (firstn b (skipn (0 * b) items)))
        by (rewrite length_map, length_seq; lia).
      rewrite (map_nth (fun k => firstn b (skipn (k * b) items))).
      rewrite seq_nth by lia. rewrite chunk_length.
      pose proof (Hm2 (S i) Hi). cbn [Nat.add]. lia.
    + unfold process_in_batches. rewrite Hstarts.
      cbn [settle bind]. rewrite process_batches_alone, Hbs.
      rewrite !length_map. reflexivity.
  - intros ->. reflexivity.
  - intros Hb.
    assert (Hstarts : range_step 0 (Z.of_nat (List.length items)) batch_size
                      = Value []).
    { unfold range_step.
      replace (batch_size =? 0)%Z with false by (symmetry; apply Z.eqb_neq; lia).
      replace (0 <? batch_size)%Z with false by (symmetry; apply Z.ltb_ge; lia).
      assert (Hneg : ((0 - Z.of_nat (List.length items) - batch_size - 1)
                      / - batch_size <= 0)%Z).
      { apply Z.le_trans
          with ((- batch_size - 1) / - batch_size)%Z.
        - apply Z.div_le_mono; lia.
        - rewrite Z.div_small; lia. }
      replace (Z.to_nat _) with 0 by lia. reflexivity. }
    split; [unfold batches; rewrite Hstarts; reflexivity |].
    unfold process_in_batches. rewrite Hstarts. reflexivity.
Qed.

(** *** The theorems at the cells of the notebook *)

Lemma the_resource_is_always_released_witness :
  alone (with_resource Resource.work) 0%Z []
  = Some (Value tt, 2500%Z,
          [(0%Z, py "Acquiring resource"); (1000%Z, py "Using resource");
           (2000%Z, py "Releasing resource")])
  /\ alone (with_resource (fun _ => Throw (Exn (ValueError (py "lost")))))
       0%Z []
     = Some (Error (Exn (ValueError (py "lost"))), 1500%Z,
             [(0%Z, py "Acquiring resource");
              (1000%Z, py "Releasing resource")]).
Proof.
  split.
  - exact (proj1 (the_resource_is_always_released Resource.work
                    0%Z [] (Value tt) 2000%Z
                    [(0%Z, py "Acquiring resource");
                     (1000%Z, py "Using resource")] eq_refl)).
  - exact (proj1 (the_resource_is_always_released
                    (fun _ => Throw (Exn (ValueError (py "lost"))))
                    0%Z [] (Error (Exn (ValueError (py "lost")))) 1000%Z
                    [(0%Z, py "Acquiring resource")] eq_refl)).
Defined.

Lemma the_database_cannot_be_closed_witness :
  exists n l,
    (forall fuel, n <= fuel -> run_until_complete database_demo fuel = Stopped l)
    /\ result_of 0 l = Error (AttributeError (py "AsyncDatabase") (py "close"))
    /\ now l = 1500%Z
    /\ output l = [(1500%Z, py "Query results: ['result1', 'result2']")]
    /\ faults l = [].
Proof.
  exact (proj2 (the_database_cannot_be_closed
                  (fun db =>
                     results <- Database.query db (py "SELECT * FROM table") ;;
                     print (py "Query results: " ++ str_of results))
                  0%Z [] (Value tt) 1500%Z
                  [(1500%Z, py "Query results: ['result1', 'result2']")]
                  eq_refl)
           eq_refl eq_refl).
Defined.

Lemma async_timer_is_transparent_witness :
  alone (monitored_operation whole_seconds_2f tt) 0%Z []
  = Some (Value (StrV (py "done")), 1000%Z,
          [(1000%Z, py "monitored_operation took 1.00 seconds")])
  /\ alone (async_timer whole_seconds_2f (py "might_fail") might_fail
              (BoolV false)) 0%Z []
     = Some (Error (Exn (ValueError (py "Operation failed!"))), 1000%Z, []).
Proof.
  split.
  - exact (proj1 (async_timer_is_transparent whole_seconds_2f
                    (py "monitored_operation")
                    (fun _ : unit => sleep 1000 ;; Return (StrV (py "done")))
                    tt 0%Z [] (Value (StrV (py "done"))) 1000%Z [] eq_refl)).
  - exact (proj1 (async_timer_is_transparent whole_seconds_2f
                    (py "might_fail") might_fail
                    (BoolV false) 0%Z []
                    (Error (Exn (ValueError (py "Operation failed!"))))
                    1000%Z [] eq_refl)).
Defined.

Lemma the_batches_are_the_items_witness :
  batches (Notebook.range 0 100) 10
  = Value (map (fun k => Notebook.range (10 * Z.of_nat k)
                           (10 * Z.of_nat k + 10)) (seq 0 10))
  /\ batches [1; 2; 3; 4; 5; 6; 7]%Z 3 = Value [[1; 2; 3]; [4; 5; 6]; [7]]%Z
  /\ batches [1; 2; 3]%Z (-1) = Value [].
Proof.
  destruct (the_batches_are_the_items [1; 2; 3]%Z (-1) 0%Z [])
    as (_ & _ & H).
  split; [reflexivity |]. split; [reflexivity |].
  exact (proj1 (H ltac:(lia))).
Defined.

Lemma a_stream_is_consumed_once_witness :
  alone (s <- Stream.async_for (Notebook.init 1 4)
                (fun num => print (py "Got number: " ++ str_of (IntV num))) ;;
         Stream.async_for s
           (fun num => print (py "Got number: " ++ str_of (IntV num)))) 0%Z []
  = Some (Value {| Notebook.start := 1; Notebook.end_ := 4;
                   Notebook.current := 4 |}, 1500%Z,
          [(500%Z, py "Got number: 1"); (1000%Z, py "Got number: 2");
           (1500%Z, py "Got number: 3")]).
Proof.
  exact (proj1 (proj2 (a_stream_is_consumed_once
                         (fun num => py "Got number: " ++ str_of (IntV num))
                         (Notebook.init 1 4) 0%Z []))).
Defined.

End CellFacts.

(** ** The cells that run tasks *)

Module TaskFacts.
Import Asyncio Cells AsyncioFacts.
Local Open Scope nat_scope.

Ltac run_for n :=
  intros Hfuel;
  apply (seen_with_more_fuel n); [vm_compute; reflexivity .. | exact Hfuel].

(** The first three cells print what the notebook has recorded for
    them.  The two [fetch_data] of [main] run at the same time: both
    print their line at the start, and the two seconds of sleep of each
    are over after two seconds, not four. *)
Theorem the_recorded_outputs fuel :
  12 <= fuel ->
  let seen c := option_map (fun x => (map snd (snd (fst x)), snd (fst (fst x))))
                  (outcome_of (run_until_complete c fuel)) in
  seen simple_coroutine = Some (recorded_output 0, 1000%Z)
  /\ seen process_data = Some (recorded_output 1, 2000%Z)
  /\ seen main = Some (recorded_output 2, 2000%Z)
  /\ outcome_of (run_until_complete main fuel)
     = Some (Value NoneV, 2000%Z,
             [(0%Z, py "Fetching data..."); (0%Z, py "Fetching data...")], [])
  /\ states_of [1; 2] (run_until_complete main fuel)
     = repeat (Finished (Value (DictV [(py "data", StrV (py "example"))]))) 2.
Proof.
  intros Hfuel seen. subst seen. cbv beta.
  destruct (seen_with_more_fuel 12 simple_coroutine []
              (Value NoneV, 1000%Z,
               [(0%Z, py "Starting"); (1000%Z, py "Finished")], []) []
              ltac:(vm_compute; reflexivity) ltac:(vm_compute; reflexivity)
              fuel Hfuel) as [H1 _].
  destruct (seen_with_more_fuel 12 process_data []
              (Value NoneV, 2000%Z,
               [(0%Z, py "Fetching data...");
                (2000%Z, py "Processing {'data': 'example'}")], []) []
              ltac:(vm_compute; reflexivity) ltac:(vm_compute; reflexivity)
              fuel Hfuel) as [H2 _].
  destruct (seen_with_more_fuel 12 main [1; 2]
              (Value NoneV, 2000%Z,
               [(0%Z, py "Fetching data..."); (0%Z, py "Fetching data...")], [])
              (repeat (Finished (Value (DictV [(py "data",
                                                StrV (py "example"))]))) 2)
              ltac:(vm_compute; reflexivity) ltac:(vm_compute; reflexivity)
              fuel Hfuel) as [H3 H4].
  rewrite H1, H2, H3, H4. repeat split; reflexivity.
Qed.

(** [task_demo], whatever the durations of its two tasks and their
    names, of printable ASCII characters (the last line printed is the
    [repr] of the results, which holds the names): both tasks start at
    once, in the order they were created, and sleep at the same time;
    each prints its last line when its own sleep is over, the shorter
    first; [gather] returns when the slower one has ended, after the
    longer of the two durations and not their sum, and it gives the
    results in the order of its arguments, not in the order the tasks
    ended. *)
Theorem gather_keeps_the_order_of_its_arguments name1 seconds1 name2 seconds2
    fuel :
  printable_ascii name1 -> printable_ascii name2 ->
  (0 < seconds1)%Z -> (0 < seconds2)%Z -> 12 <= fuel ->
  let results := ListV [StrV (name1 ++ py " completed");
                        StrV (name2 ++ py " completed")] in
  let finished1 := (seconds1, py "Finished " ++ name1) in
  let finished2 := (seconds2, py "Finished " ++ name2) in
  outcome_of
    (run_until_complete (task_demo_with name1 seconds1 name2 seconds2) fuel)
  = Some (Value NoneV, Z.max seconds1 seconds2,
          [(0%Z, py "Starting " ++ name1); (0%Z, py "Starting " ++ name2)]
          ++ (if (seconds2 <? seconds1)%Z then [finished2; finished1]
              else [finished1; finished2])
          ++ [(Z.max seconds1 seconds2, py "Results: " ++ str_of results)],
          [])
  /\ states_of [1; 2; 3]
       (run_until_complete (task_demo_with name1 seconds1 name2 seconds2) fuel)
     = [Finished (Value (StrV (name1 ++ py " completed")));
        Finished (Value (StrV (name2 ++ py " completed")));
        Finished (Value results)].
Proof.
  intros _ _ H1 H2 Hfuel results finished1 finished2.
  subst results finished1 finished2.
  unfold task_demo_with. set (show := str_of). clearbody show.
  destruct seconds1 as [| p | p]; try lia.
  destruct seconds2 as [| q | q]; try lia.
  destruct (Z.ltb_spec (Z.pos q) (Z.pos p)) as [Hlt | Hle].
  - rewrite Z.max_l by lia.
    apply (seen_with_more_fuel 12); [iterations | iterations | exact Hfuel].
  - rewrite Z.max_r by lia.
    destruct (Z.eq_dec (Z.pos p) (Z.pos q)) as [E | Hne].
    + injection E as ->.
      apply (seen_with_more_fuel 12); [iterations | iterations | exact Hfuel].
    + assert (Hlt : (Z.pos p < Z.pos q)%Z) by lia.
      apply (seen_with_more_fuel 12); [iterations | iterations | exact Hfuel].
Qed.

(** [task_operations_demo] with a task that takes longer than the
    timeout: the task is not done when it has just been created, and it
    starts only once the demo waits.  When the timeout is over
    [wait_for] cancels the task, which sleeps still, and raises
    [TimeoutError]; the [cancel] of the demo then finds the task done,
    and awaiting it raises [CancelledError].  The task never prints its
    last line, and the demo ends at the timeout, not when the task
    would have ended. *)
Theorem the_slow_task_is_cancelled name seconds timeout fuel :
  (0 < timeout < seconds)%Z -> 12 <= fuel ->
  outcome_of
    (run_until_complete (task_operations_demo_with name seconds timeout) fuel)
  = Some (Value NoneV, timeout,
          [(0%Z, py "Task done? False");
           (0%Z, py "Starting " ++ name);
           (timeout, py "Task took too long, cancelling...");
           (timeout, py "Task was cancelled")],
          [])
  /\ states_of [1]
       (run_until_complete (task_operations_demo_with name seconds timeout)
          fuel)
     = [Cancelled].
Proof.
  intros H Hfuel.
  destruct seconds as [| p | p]; try lia.
  destruct timeout as [| q | q]; try lia.
  apply (seen_with_more_fuel 12); [iterations | iterations | exact Hfuel].
Qed.

(** [task_operations_demo] with a task that ends before the timeout:
    [wait_for] returns as soon as the task has ended, the demo ends
    then and not at the timeout, nothing is cancelled and none of the
    two lines of the timeout is printed. *)
Theorem the_task_in_time_is_not_cancelled name seconds timeout fuel :
  (0 < seconds < timeout)%Z -> 12 <= fuel ->
  outcome_of
    (run_until_complete (task_operations_demo_with name seconds timeout) fuel)
  = Some (Value NoneV, seconds,
          [(0%Z, py "Task done? False");
           (0%Z, py "Starting " ++ name);
           (seconds, py "Finished " ++ name)],
          [])
  /\ states_of [1]
       (run_until_complete (task_operations_demo_with name seconds timeout)
          fuel)
     = [Finished (Value (StrV (name ++ py " completed")))].
Proof.
  intros H Hfuel.
  destruct seconds as [| p | p]; try lia.
  destruct timeout as [| q | q]; try lia.
  apply (seen_with_more_fuel 12); [iterations | iterations | exact Hfuel].
Qed.

(** C8, amended: [might_fail] tests the truth value of [succeed].  After
    its sleep of one second it raises [ValueError] exactly when
    [succeed] is false in that sense ([False], but also [None], zero or
    an empty string, list or dictionary), and returns the string
    [Success!] exactly when [succeed] is true in that sense; run to its
    end, alone or on the loop, it raises nothing else and returns
    nothing else.  A task that runs it and is cancelled during the
    sleep ends with [CancelledError] instead, whatever [succeed]. *)
Theorem might_fail_outcomes (succeed : value) :
  let failed := Error (Exn (ValueError (py "Operation failed!"))) in
  let success := Value (StrV (py "Success!")) in
  let outcome := if truth succeed then success else failed in
  (forall t out,
     alone (might_fail succeed) t out = Some (outcome, (t + 1000)%Z, out))
  /\ (exists n l,
        (forall fuel, n <= fuel ->
           run_until_complete (might_fail succeed) fuel = Stopped l)
        /\ result_of 0 l = outcome /\ now l = 1000%Z
        /\ output l = [] /\ faults l = [])
  /\ (outcome = failed <-> truth succeed = false)
  /\ (outcome = success <-> truth succeed = true)
  /\ (forall ms fuel,
        (0 < ms < 1000)%Z -> 12 <= fuel ->
        outcome_of
          (run_until_complete (cancelled_after ms (might_fail succeed)) fuel)
        = Some (Error CancelledError, ms, [], [])
        /\ states_of [1]
             (run_until_complete (cancelled_after ms (might_fail succeed))
                fuel)
           = [Cancelled]).
Proof.
  intros failed success outcome.
  assert (Halone : forall t out,
             alone (might_fail succeed) t out
             = Some (outcome, (t + 1000)%Z, out)).
  { intros t out. subst outcome failed success. unfold might_fail.
    rewrite alone_bind, alone_sleep. change (Z.max 0 1000) with 1000%Z.
    destruct (truth succeed); reflexivity. }
  split; [exact Halone |].
  split; [apply alone_run, (Halone 0%Z []) |].
  split; [subst outcome failed success; destruct (truth succeed);
          split; intros H; (reflexivity || discriminate H) |].
  split; [subst outcome failed success; destruct (truth succeed);
          split; intros H; (reflexivity || discriminate H) |].
  intros ms fuel Hms Hfuel.
  destruct ms as [| p | p]; try lia.
  unfold cancelled_after, might_fail.
  set (test := truth succeed). clearbody test.
  pose (q := 1000%positive).
  change 1000%Z with (Z.pos q) in *. clearbody q.
  apply (seen_with_more_fuel 12); [iterations | iterations | exact Hfuel].
Qed.

(** [error_handling_demo] never raises, whatever calls of [might_fail]
    succeed: the [ValueError] of the first call is caught, and [gather]
    with [return_exceptions] gives the exception of a coroutine that
    fails as a result, at the place of that coroutine, so that one line
    is printed for each of the two, in the order they were given, after
    the one second they sleep at the same time. *)
Theorem the_errors_are_all_handled succeed0 succeed1 succeed2 fuel :
  12 <= fuel ->
  let returned (succeed : bool) :=
    if succeed then StrV (py "Success!")
    else ExcV (Exn (ValueError (py "Operation failed!"))) in
  let line (succeed : bool) :=
    if succeed then py " succeeded with: Success!"
    else py " failed with: Operation failed!" in
  outcome_of
    (run_until_complete (error_handling_demo_with succeed0 succeed1 succeed2)
       fuel)
  = Some (Value NoneV, 2000%Z,
          (if succeed0 then []
           else [(1000%Z, py "Caught error: Operation failed!")])
          ++ [(2000%Z, py "Task 0" ++ line succeed1);
              (2000%Z, py "Task 1" ++ line succeed2)],
          [])
  /\ states_of [2]
       (run_until_complete
          (error_handling_demo_with succeed0 succeed1 succeed2) fuel)
     = [Finished (Value (ListV [returned succeed1; returned succeed2]))].
Proof.
  intros Hfuel returned line. subst returned line.
  destruct succeed0, succeed1, succeed2; revert Hfuel; run_for 12.
Qed.

(** [demo_performance_patterns]: the hundred items go through ten
    batches of ten, one second each, one after the other; the five
    [parallel_operation] then sleep at the same time, and [gather]
    gives their results, the doubles, in the order of the arguments,
    a tenth of a second later. *)
Theorem batches_in_turn_then_operations_together fuel :
  30 <= fuel ->
  outcome_of (run_until_complete demo_performance_patterns fuel)
  = Some (Value NoneV, 10100%Z,
          batch_lines 0 (repeat (repeat 0%Z 10) 10)
          ++ [(10100%Z, py "Parallel results: [0, 2, 4, 6, 8]")],
          [])
  /\ states_of [11] (run_until_complete demo_performance_patterns fuel)
     = [Finished (Value (ListV (map IntV [0; 2; 4; 6; 8]%Z)))].
Proof. run_for 30. Qed.

(** *** The theorems at a number of iterations that is enough *)

(** C8, read to the letter, fails: [might_fail(None)] raises
    [ValueError] though [None] is not [False], and [might_fail(2)]
    returns [Success!] though [2] is not [True]; and [might_fail(True)],
    cancelled after half a second, raises [CancelledError]. *)
Lemma might_fail_tests_the_truth_value :
  alone (might_fail NoneV) 0%Z []
  = Some (Error (Exn (ValueError (py "Operation failed!"))), 1000%Z, [])
  /\ alone (might_fail (IntV 2)) 0%Z []
     = Some (Value (StrV (py "Success!")), 1000%Z, [])
  /\ outcome_of
       (run_until_complete (cancelled_after 500 (might_fail (BoolV true))) 12)
     = Some (Error CancelledError, 500%Z, [], [])
  /\ ~ fails_exactly_on_false.
Proof.
  split; [reflexivity |]. split; [reflexivity |].
  split; [vm_compute; reflexivity |].
  intros H.
  destruct (H NoneV (Error (Exn (ValueError (py "Operation failed!"))))
              1000%Z [] eq_refl) as [[Hfalse _] _].
  discriminate (Hfalse eq_refl).
Qed.

Lemma might_fail_outcomes_witness :
  alone (might_fail (BoolV false)) 0%Z []
  = Some (Error (Exn (ValueError (py "Operation failed!"))), 1000%Z, [])
  /\ alone (might_fail (BoolV true)) 0%Z []
     = Some (Value (StrV (py "Success!")), 1000%Z, [])
  /\ alone (might_fail (StrV [])) 0%Z []
     = Some (Error (Exn (ValueError (py "Operation failed!"))), 1000%Z, [])
  /\ states_of [1]
       (run_until_complete (cancelled_after 500 (might_fail (IntV 0))) 12)
     = [Cancelled].
Proof.
  split; [exact (proj1 (might_fail_outcomes (BoolV false)) 0%Z []) |].
  split; [exact (proj1 (might_fail_outcomes (BoolV true)) 0%Z []) |].
  split; [exact (proj1 (might_fail_outcomes (StrV [])) 0%Z []) |].
  destruct (might_fail_outcomes (IntV 0)) as (_ & _ & _ & _ & H).
  exact (proj2 (H 500%Z 12 (conj eq_refl eq_refl) (le_n 12))).
Defined.

Lemma the_recorded_outputs_witness :
  outcome_of (run_until_complete main 12)
  = Some (Value NoneV, 2000%Z,
          [(0%Z, py "Fetching data..."); (0%Z, py "Fetching data...")], []).
Proof.
  destruct (the_recorded_outputs 12 (le_n 12)) as (_ & _ & _ & H & _).
  exact H.
Defined.

Lemma gather_keeps_the_order_of_its_arguments_witness :
  outcome_of (run_until_complete task_demo 12)
  = Some (Value NoneV, 2000%Z,
          [(0, py "Starting Task 1"); (0, py "Starting Task 2");
           (1000, py "Finished Task 2"); (2000, py "Finished Task 1");
           (2000, py "Results: ['Task 1 completed', 'Task 2 completed']")]%Z,
          []).
Proof.
  exact (proj1 (gather_keeps_the_order_of_its_arguments
                  (py "Task 1") 2000 (py "Task 2") 1000 12
                  ltac:(repeat constructor; discriminate)
                  ltac:(repeat constructor; discriminate)
                  eq_refl eq_refl (le_n 12))).
Defined.

Lemma the_slow_task_is_cancelled_witness :
  outcome_of (run_until_complete task_operations_demo 12)
  = Some (Value NoneV, 2000%Z,
          [(0, py "Task done? False");
           (0, py "Starting Demo Task");
           (2000, py "Task took too long, cancelling...");
           (2000, py "Task was cancelled")]%Z,
          [])
  /\ states_of [1] (run_until_complete task_operations_demo 12) = [Cancelled].
Proof.
  exact (the_slow_task_is_cancelled (py "Demo Task") 3000 2000 12
           (conj eq_refl eq_refl) (le_n 12)).
Defined.

Lemma the_task_in_time_is_not_cancelled_witness :
  outcome_of
    (run_until_complete
       (task_operations_demo_with (py "Demo Task") 3000 4000) 12)
  = Some (Value NoneV, 3000%Z,
          [(0, py "Task done? False");
           (0, py "Starting Demo Task");
           (3000, py "Finished Demo Task")]%Z,
          []).
Proof.
  exact (proj1 (the_task_in_time_is_not_cancelled (py "Demo Task") 3000 4000
                  12 (conj eq_refl eq_refl) (le_n 12))).
Defined.

Lemma the_errors_are_all_handled_witness :
  outcome_of (run_until_complete error_handling_demo 12)
  = Some (Value NoneV, 2000%Z,
          [(1000, py "Caught error: Operation failed!");
           (2000, py "Task 0 succeeded with: Success!");
           (2000, py "Task 1 failed with: Operation failed!")]%Z,
          []).
Proof.
  exact (proj1 (the_errors_are_all_handled false true false 12 (le_n 12))).
Defined.

Lemma batches_in_turn_then_operations_together_witness :
  states_of [11] (run_until_complete demo_performance_patterns 30)
  = [Finished (Value (ListV (map IntV [0; 2; 4; 6; 8]%Z)))].
Proof.
  exact (proj2 (batches_in_turn_then_operations_together 30 (le_n 30))).
Defined.

End TaskFacts.
